(** * Resumable inbox scan: sender aggregation, index merge and checkpoints

    A shallow embedding of the scan engine of the Apps Script program
    (CONFIG, parseFrom, parseListUnsubscribeHeader, processMessages,
    readIndex, buildRowFromBucket, mergeRunMapUsingIndex, checkpoint and
    buildSenderReportBatch), followed by the properties of the
    specification stated over it.

    Conventions of the model.
    - A JS string is a Rocq [string]: a sequence of 8-bit code units.
      Code units above 255 are outside the model.
    - A JS object used as a map whose key order is observed
      ([runMap], read through [Object.keys]) is an association list in
      insertion order; a map that is only looked up ([indexMap], the
      user properties) is a [gmap].
    - A sheet is the list of its data rows: row 1 holds the header and
      the list holds rows 2, 3, ... in order.
    - [Date.now()] reads a clock given as a function of the number of
      earlier readings. *)

From stdpp Require Import gmap strings list sorting.
From Stdlib Require Import ZArith Ascii DecimalString DecimalNat Lia Permutation.

Local Open Scope string_scope.
Local Open Scope list_scope.

(** ** Characters and strings *)

Module Js.

Definition code (c : ascii) : N := N_of_ascii c.

(** White space of [String.prototype.trim] and of the class [\s],
    among the code units below 256. *)
Definition isSpace (c : ascii) : bool :=
  let n := code c in
  ((9 <=? n) && (n <=? 13) || (n =? 32) || (n =? 160))%N.

Definition isUpper (c : ascii) : bool :=
  let n := code c in
  ((65 <=? n) && (n <=? 90) || (192 <=? n) && (n <=? 222) && negb (n =? 215))%N.

Definition lowerChar (c : ascii) : ascii :=
  if isUpper c then ascii_of_N (code c + 32) else c.

Fixpoint toLowerCase (s : string) : string :=
  match s with
  | EmptyString => EmptyString
  | String c s' => String (lowerChar c) (toLowerCase s')
  end.

(** Truthiness of a string value: only the empty string is falsy. *)
Definition truthy (s : string) : bool :=
  match s with EmptyString => false | _ => true end.

(** [a || b] on strings. *)
Definition or (a b : string) : string := if truthy a then a else b.

(** Truthiness of a value that is [null] or a string. *)
Definition truthyO (o : option string) : bool :=
  match o with Some s => truthy s | None => false end.

(** [o || ''] for a value that is [null] or a string. *)
Definition orEmpty (o : option string) : string :=
  match o with Some s => s | None => "" end.

Fixpoint dropWhile (p : ascii -> bool) (s : string) : string :=
  match s with
  | EmptyString => EmptyString
  | String c s' => if p c then dropWhile p s' else s
  end.

(** Removes the longest suffix all of whose characters satisfy [p]. *)
Fixpoint dropWhileEnd (p : ascii -> bool) (s : string) : string :=
  match s with
  | EmptyString => EmptyString
  | String c s' =>
      match dropWhileEnd p s' with
      | EmptyString => if p c then EmptyString else String c EmptyString
      | r => String c r
      end
  end.

Definition trim (s : string) : string :=
  dropWhileEnd isSpace (dropWhile isSpace s).

Definition isChar (x : ascii) (c : ascii) : bool := (code c =? code x)%N.

(** Removes one leading character satisfying [p], if there is one. *)
Definition dropOneStart (p : ascii -> bool) (s : string) : string :=
  match s with
  | String c s' => if p c then s' else s
  | EmptyString => EmptyString
  end.

(** Removes one trailing character satisfying [p], if there is one. *)
Fixpoint dropOneEnd (p : ascii -> bool) (s : string) : string :=
  match s with
  | EmptyString => EmptyString
  | String c EmptyString => if p c then EmptyString else s
  | String c s' => String c (dropOneEnd p s')
  end.

Fixpoint takeN (n : nat) (s : string) : string :=
  match n, s with
  | S n', String c s' => String c (takeN n' s')
  | _, _ => EmptyString
  end.

Fixpoint dropN (n : nat) (s : string) : string :=
  match n, s with
  | S n', String c s' => dropN n' s'
  | _, _ => s
  end.

(** Length of the longest prefix all of whose characters satisfy [p]. *)
Fixpoint spanLen (p : ascii -> bool) (s : string) : nat :=
  match s with
  | String c s' => if p c then S (spanLen p s') else 0
  | EmptyString => 0
  end.

(** [s.split(sep)] for a one-character separator. *)
Fixpoint split (sep : ascii) (s : string) : list string :=
  match s with
  | EmptyString => [EmptyString]
  | String c s' =>
      if isChar sep c then EmptyString :: split sep s'
      else match split sep s' with
           | p :: ps => String c p :: ps
           | [] => [String c EmptyString]
           end
  end.

(** Case-insensitive test that [s] starts with the lower-case text [pre]
    (a regular expression [/^pre/i] over a literal). *)
Fixpoint startsWithCI (pre s : string) : bool :=
  match pre, s with
  | EmptyString, _ => true
  | String a pre', String c s' =>
      (code (lowerChar c) =? code a)%N && startsWithCI pre' s'
  | String _ _, EmptyString => false
  end.

(** [a > b] on strings: lexicographic order of the code units. *)
Definition gtb (a b : string) : bool := String.ltb b a.

End Js.

(** ** The regular expressions of [parseFrom]

    Both expressions are sequences of single-character classes, some of
    them repeated greedily at least a fixed number of times.  The
    matcher backtracks the way the JS engine does: a repetition first
    takes the longest run and gives characters back one at a time. *)

Module Regex.

Inductive atom :=
| One (p : ascii -> bool)
| AtLeast (min : nat) (p : ascii -> bool).

(** Matches the atoms at the start of [s]; returns the text taken by
    each atom. *)
Fixpoint matchHere (re : list atom) (s : string) : option (list string) :=
  match re with
  | [] => Some []
  | One p :: re' =>
      match s with
      | String c s' =>
          if p c then
            match matchHere re' s' with
            | Some segs => Some (String c EmptyString :: segs)
            | None => None
            end
          else None
      | EmptyString => None
      end
  | AtLeast min p :: re' =>
      (fix back (k : nat) : option (list string) :=
         if (k <? min)%nat then None
         else match matchHere re' (Js.dropN k s) with
              | Some segs => Some (Js.takeN k s :: segs)
              | None => match k with
                        | O => None
                        | S k' => back k'
                        end
              end) (Js.spanLen p s)
  end.

Fixpoint concat (l : list string) : string :=
  match l with
  | [] => EmptyString
  | s :: l' => s +:+ concat l'
  end.

(** The leftmost match: the text before it, the text of each atom, and
    the text after it. *)
Fixpoint search (re : list atom) (s : string)
  : option (string * list string * string) :=
  match matchHere re s with
  | Some segs => Some (EmptyString, segs, Js.dropN (String.length (concat segs)) s)
  | None =>
      match s with
      | EmptyString => None
      | String c s' =>
          match search re s' with
          | Some (pre, segs, post) => Some (String c pre, segs, post)
          | None => None
          end
      end
  end.

Definition isAlpha (c : ascii) : bool :=
  let n := Js.code c in
  ((65 <=? n) && (n <=? 90) || (97 <=? n) && (n <=? 122))%N.

Definition isDigit (c : ascii) : bool :=
  let n := Js.code c in ((48 <=? n) && (n <=? 57))%N.

Definition oneOf (l : list N) (c : ascii) : bool :=
  existsb (N.eqb (Js.code c)) l.

(** [/<([^>]+)>/]; the text of the group is the second segment. *)
Definition angleRe : list atom :=
  [ One (Js.isChar "<"%char);
    AtLeast 1 (fun c => negb (Js.isChar ">"%char c));
    One (Js.isChar ">"%char) ].

(** [/[A-Z0-9._%+-]+@[A-Z0-9.-]+\.[A-Z]{2,}/i] *)
Definition bareRe : list atom :=
  [ AtLeast 1 (fun c => isAlpha c || isDigit c || oneOf [46; 95; 37; 43; 45]%N c);
    One (Js.isChar "@"%char);
    AtLeast 1 (fun c => isAlpha c || isDigit c || oneOf [46; 45]%N c);
    One (Js.isChar "."%char);
    AtLeast 2 isAlpha ].

End Regex.

(** ** Record normalizer *)

(** The double quote, code 34. *)
Definition isQuote (c : ascii) : bool := (Js.code c =? 34)%N.

(** [s.replace(/^"|"$/g, '')] *)
Definition stripQuotes (s : string) : string :=
  Js.dropOneEnd isQuote (Js.dropOneStart isQuote s).

(** [s.replace(/^[("'\s]+|[)"'\s]+$/g, '')] *)
Definition stripWrapping (s : string) : string :=
  Js.dropWhileEnd (fun c => Regex.oneOf [41; 34; 39]%N c || Js.isSpace c)
    (Js.dropWhile (fun c => Regex.oneOf [40; 34; 39]%N c || Js.isSpace c) s).

(** [parseFrom(rawFrom)]: the pair of [email] and [name].  The match
    text removed from [rawFrom] by [replace] is the leftmost match
    itself, since its first occurrence is where the expression first
    matches. *)
Definition parseFrom (rawFrom : string) : string * option string :=
  let '(email, name) :=
    match Regex.search Regex.angleRe rawFrom with
    | Some (pre, segs, post) =>
        (Js.trim (nth 1 segs EmptyString), stripQuotes (Js.trim (pre +:+ post)))
    | None =>
        match Regex.search Regex.bareRe rawFrom with
        | Some (pre, segs, post) =>
            (Js.trim (Regex.concat segs), stripWrapping (Js.trim (pre +:+ post)))
        | None => (EmptyString, EmptyString)
        end
    end in
  let email := if Js.truthy email then Js.toLowerCase email else email in
  let name := if Js.truthy name then stripQuotes name else name in
  (email, if Js.truthy name then Some name else None).

(** [s.trim().replace(/^<|>$/g, '')] of one header part. *)
Definition unsubPart (s : string) : string :=
  Js.dropOneEnd (Js.isChar ">"%char) (Js.dropOneStart (Js.isChar "<"%char) (Js.trim s)).

Definition isHttp (p : string) : bool :=
  Js.startsWithCI "http://" p || Js.startsWithCI "https://" p.

Definition isMailto (p : string) : bool := Js.startsWithCI "mailto:" p.

(** The loop of [parseListUnsubscribeHeader] over the parts. *)
Fixpoint unsubScan (parts : list string) (url mailto : option string)
  : option string * option string :=
  match parts with
  | [] => (url, mailto)
  | p :: ps =>
      if isHttp p then
        unsubScan ps (if Js.truthyO url then url else Some p) mailto
      else if isMailto p then
        unsubScan ps url (if Js.truthyO mailto then mailto else Some p)
      else unsubScan ps url mailto
  end.

(** [parseListUnsubscribeHeader(headerValue)]; [None] is [null]. *)
Definition parseListUnsubscribeHeader (headerValue : string)
  : option (option string * option string) :=
  if negb (Js.truthy headerValue) then None
  else
    let parts := map unsubPart (Js.split ","%char headerValue) in
    let '(url, mailto) := unsubScan parts None None in
    if Js.truthyO url || Js.truthyO mailto then Some (url, mailto) else None.

(** ** Run aggregator *)

(** A message as the scan reads it: [isInInbox()], [getFrom() || ''],
    [getSubject() || ''], the date formatted by [Utilities.formatDate]
    and [getHeader('List-Unsubscribe') || '']. *)
Record Msg := {
  isInInbox : bool;
  getFrom : string;
  getSubject : string;
  getDateIso : string;
  getListUnsubscribe : string
}.

Module Bucket.
Record t := {
  email : string;
  name : option string;
  count : Z;
  sampleSubject : option string;
  lastSeen : option string;
  unsubUrl : option string;
  unsubMailto : option string
}.
End Bucket.

(** [runMap]: keys in insertion order. *)
Abbreviation RunMap := (list (string * Bucket.t)).

Fixpoint rmGet (key : string) (rm : RunMap) : option Bucket.t :=
  match rm with
  | [] => None
  | (k, b) :: rm' => if String.eqb k key then Some b else rmGet key rm'
  end.

(** Assignment to [runMap[key]]: in place for a present key, at the end
    for a new one. *)
Fixpoint rmSet (key : string) (b : Bucket.t) (rm : RunMap) : RunMap :=
  match rm with
  | [] => [(key, b)]
  | (k, v) :: rm' =>
      if String.eqb k key then (k, b) :: rm' else (k, v) :: rmSet key b rm'
  end.

(** The lower-case names that every object inherits from
    [Object.prototype]: for these [runMap[key]] is truthy although
    [runMap] has no such key of its own, so no bucket is created and the
    updates land on the inherited object. *)
Definition inheritedKey (key : string) : bool :=
  String.eqb key "constructor" || String.eqb key "__proto__".

Definition newBucket (email : string) (name : option string) : Bucket.t :=
  {| Bucket.email := email; Bucket.name := name; Bucket.count := 0;
     Bucket.sampleSubject := None; Bucket.lastSeen := None;
     Bucket.unsubUrl := None; Bucket.unsubMailto := None |}.

(** The updates of one message on its bucket. *)
Definition absorb (subject dateIso : string)
    (unsub : option (option string * option string)) (b : Bucket.t) : Bucket.t :=
  let sampleSubject :=
    if negb (Js.truthyO (Bucket.sampleSubject b)) && Js.truthy subject
    then Some subject else Bucket.sampleSubject b in
  let lastSeen :=
    if negb (Js.truthyO (Bucket.lastSeen b))
       || match Bucket.lastSeen b with
          | Some l => Js.gtb dateIso l
          | None => false
          end
    then Some dateIso else Bucket.lastSeen b in
  let unsubUrl :=
    match unsub with
    | Some (url, _) =>
        if Js.truthyO url && negb (Js.truthyO (Bucket.unsubUrl b))
        then url else Bucket.unsubUrl b
    | None => Bucket.unsubUrl b
    end in
  let unsubMailto :=
    match unsub with
    | Some (_, mailto) =>
        if Js.truthyO mailto && negb (Js.truthyO (Bucket.unsubMailto b))
        then mailto else Bucket.unsubMailto b
    | None => Bucket.unsubMailto b
    end in
  {| Bucket.email := Bucket.email b; Bucket.name := Bucket.name b;
     Bucket.count := Bucket.count b + 1;
     Bucket.sampleSubject := sampleSubject; Bucket.lastSeen := lastSeen;
     Bucket.unsubUrl := unsubUrl; Bucket.unsubMailto := unsubMailto |}.

(** One iteration of the loop of [processMessages]. *)
Definition processMessage (m : Msg) (runMap : RunMap) : RunMap :=
  if negb (isInInbox m) then runMap
  else
    let '(email, name) := parseFrom (getFrom m) in
    if negb (Js.truthy email) then runMap
    else
      let key := Js.toLowerCase email in
      if inheritedKey key then runMap
      else
        let bucket :=
          match rmGet key runMap with
          | Some b => b
          | None => newBucket email name
          end in
        rmSet key
          (absorb (getSubject m) (getDateIso m)
                  (parseListUnsubscribeHeader (getListUnsubscribe m)) bucket)
          runMap.

Definition processMessages (msgs : list Msg) (runMap : RunMap) : RunMap :=
  fold_left (fun rm m => processMessage m rm) msgs runMap.

(** ** Store, index and merge *)

Module Row.
(** The ten columns: Act?, Sender Email, Sender Name, Count, Example
    Subject, Last Seen, Unsubscribe URL, Unsubscribe Mailto, Notes,
    Processed. *)
Record t := {
  act : bool;
  email : string;
  name : string;
  count : Z;
  subject : string;
  lastSeen : string;
  url : string;
  mailto : string;
  notes : string;
  processed : string
}.

(** What [getValues] reads from a row that was never written. *)
Definition blank : t :=
  {| act := false; email := ""; name := ""; count := 0; subject := "";
     lastSeen := ""; url := ""; mailto := ""; notes := ""; processed := "" |}.
End Row.

Abbreviation Sheet := (list Row.t).
Abbreviation IndexSheet := (list (string * nat)).

Definition getLastRow {A} (rows : list A) : nat := S (length rows).

(** [sheet.getRange(row, 1, 1, 10).getValues()[0]] *)
Definition getRow (row : nat) (sheet : Sheet) : Row.t :=
  nth (row - 2) sheet Row.blank.

(** [sheet.getRange(row, 1, 1, 10).setValues([v])]; a write below the
    last row leaves the rows in between blank. *)
Definition setRow (row : nat) (v : Row.t) (sheet : Sheet) : Sheet :=
  if (row - 2 <? length sheet)%nat then <[(row - 2)%nat := v]> sheet
  else sheet ++ repeat Row.blank (row - 2 - length sheet) ++ [v].

Definition readIndex (indexSheet : IndexSheet) : gmap string nat :=
  fold_left
    (fun (m : gmap string nat) '(k, row) =>
       let emailLc := Js.toLowerCase (Js.trim k) in
       if Js.truthy emailLc && (1 <? row)%nat then <[emailLc := row]> m else m)
    indexSheet ∅.

Definition buildRowFromBucket (b : Bucket.t) : Row.t :=
  {| Row.act := false;
     Row.email := Bucket.email b;
     Row.name := Js.orEmpty (Bucket.name b);
     Row.count := Bucket.count b;
     Row.subject := Js.orEmpty (Bucket.sampleSubject b);
     Row.lastSeen := Js.orEmpty (Bucket.lastSeen b);
     Row.url := Js.orEmpty (Bucket.unsubUrl b);
     Row.mailto := Js.orEmpty (Bucket.unsubMailto b);
     Row.notes := "";
     Row.processed := "" |}.

(** [newRowVals] of the update of an existing sender. *)
Definition mergeRowVals (vals : Row.t) (bucket : Bucket.t) : Row.t :=
  let existingLast := Row.lastSeen vals in
  let lastSeen :=
    if negb (Js.truthy existingLast)
       || match Bucket.lastSeen bucket with
          | Some l => Js.truthy l && Js.gtb l existingLast
          | None => false
          end
    then Js.or (Js.orEmpty (Bucket.lastSeen bucket)) existingLast
    else existingLast in
  {| Row.act := Row.act vals;
     Row.email := Js.or (Row.email vals) (Bucket.email bucket);
     Row.name := Js.or (Row.name vals) (Js.orEmpty (Bucket.name bucket));
     Row.count := Row.count vals + Bucket.count bucket;
     Row.subject := Js.or (Row.subject vals) (Js.orEmpty (Bucket.sampleSubject bucket));
     Row.lastSeen := lastSeen;
     Row.url := Js.or (Row.url vals) (Js.orEmpty (Bucket.unsubUrl bucket));
     Row.mailto := Js.or (Row.mailto vals) (Js.orEmpty (Bucket.unsubMailto bucket));
     Row.notes := Js.or (Row.notes vals) "";
     Row.processed := Js.or (Row.processed vals) "" |}.

(** One iteration of the loop over [existingUpdates]. *)
Definition applyUpdate (sheet : Sheet) (u : nat * Bucket.t) : Sheet :=
  let '(row, bucket) := u in
  if (row <? 2)%nat then sheet
  else setRow row (mergeRowVals (getRow row sheet) bucket) sheet.

(** [filter.sort(4, false)]: the host reorders the data rows of the
    sheet by the Count column, largest first; rows of equal count keep
    their order. *)
Fixpoint insertByCount (r : Row.t) (l : Sheet) : Sheet :=
  match l with
  | [] => [r]
  | x :: l' =>
      if (Row.count r <? Row.count x)%Z then x :: insertByCount r l' else r :: l
  end.

Definition sortByCountDesc (sheet : Sheet) : Sheet :=
  foldr insertByCount [] sheet.

(** The writes of [mergeRunMapUsingIndex], up to the final sort: the
    partition of the run map by the index, the batch append of the new
    rows with their index entries, and the updates of the existing
    rows one by one.  With no new row both appends add nothing, which
    is the guard [newRows.length > 0]. *)
Definition mergeWrites (sheet : Sheet) (indexSheet : IndexSheet) (runMap : RunMap)
  : Sheet * IndexSheet :=
  let indexMap := readIndex indexSheet in
  let newRows :=
    filter (fun kb => indexMap !! kb.1 = None) runMap in
  let existingUpdates :=
    omap (fun kb : string * Bucket.t =>
            match indexMap !! kb.1 with
            | Some row => Some (row, kb.2)
            | None => None
            end) runMap in
  let firstNewRow := S (getLastRow sheet) in
  let sheet1 := sheet ++ map (fun kb => buildRowFromBucket kb.2) newRows in
  let index1 := indexSheet ++ imap (fun i kb => (kb.1, firstNewRow + i)%nat) newRows in
  (fold_left applyUpdate existingUpdates sheet1, index1).

Definition mergeRunMapUsingIndex (sheet : Sheet) (indexSheet : IndexSheet)
    (runMap : RunMap) : Sheet * IndexSheet :=
  match runMap with
  | [] => (sheet, indexSheet)
  | _ =>
      let '(sheet', index') := mergeWrites sheet indexSheet runMap in
      (sortByCountDesc sheet', index')
  end.

(** ** Resumption state *)

Module KEYS.
Definition CURSOR : string := "cursor".
Definition INITIALIZED : string := "initialized".
Definition TOTAL_PROCESSED : string := "totalProcessed".
Definition AUTO_SCAN_ENABLED : string := "autoScanEnabled".
End KEYS.

Module CONFIG.
Definition PAGE_SIZE_THREADS : nat := 50.
Definition CHECKPOINT_THREADS : nat := 100.
Definition CHECKPOINT_INTERVAL_MS : Z := 60 * 1000.
Definition RUNTIME_HARD_LIMIT_MS : Z := 5 * 60 * 1000.
End CONFIG.

(** [String(n)] for a count of threads; [None] is [NaN]. *)
Definition numToString (n : option nat) : string :=
  match n with
  | Some n => NilEmpty.string_of_uint (Nat.to_uint n)
  | None => "NaN"
  end.

Definition digitVal (c : ascii) : option nat :=
  if Regex.isDigit c then Some (N.to_nat (Js.code c) - 48)%nat else None.

Fixpoint parseDigits (acc : nat) (s : string) : nat :=
  match s with
  | String c s' =>
      match digitVal c with
      | Some d => parseDigits (10 * acc + d) s'
      | None => acc
      end
  | EmptyString => acc
  end.

(** [parseInt(s, 10)] on the values the scan stores: leading white
    space, then decimal digits up to the first other character; [None]
    is [NaN].  Signs are not modelled. *)
Definition parseInt (s : string) : option nat :=
  match Js.dropWhile Js.isSpace s with
  | String c _ as s' => if Regex.isDigit c then Some (parseDigits 0 s') else None
  | EmptyString => None
  end.

Record World := {
  sheet : Sheet;
  indexSheet : IndexSheet;
  props : gmap string string
}.

(** [parseInt(props.getProperty(key) || '0', 10)] *)
Definition readCount (props : gmap string string) (key : string) : option nat :=
  parseInt (Js.or (Js.orEmpty (props !! key)) "0").

(** ** Checkpoint *)

Definition checkpoint (w : World) (runMap : RunMap)
    (cursor : nat) (totalProcessed : option nat) : World :=
  let '(sheet', index') := mergeRunMapUsingIndex (sheet w) (indexSheet w) runMap in
  {| sheet := sheet'; indexSheet := index';
     props := <[KEYS.TOTAL_PROCESSED := numToString totalProcessed]>
                (<[KEYS.CURSOR := numToString (Some cursor)]> (props w)) |}.

(** ** Scan driver *)

Abbreviation Thread := (list Msg).

(** The mailbox and the clock of one invocation. *)
Record Env := {
  threads : list Thread;
  now : nat -> Z
}.

(** [GmailApp.search(CONFIG.INBOX_QUERY, start, max)] together with
    [getMessagesForThreads]. *)
Definition search (env : Env) (start max : nat) : list Thread :=
  take max (drop start (threads env)).

Definition overLimit (env : Env) (runStart : Z) (tick : nat) : bool :=
  (CONFIG.RUNTIME_HARD_LIMIT_MS <? now env tick - runStart)%Z.

(** The [for] loop over the threads of a page.  Returns the run map,
    the number of clock readings so far and the threads from [tIdx] on
    that the loop left when it stopped. *)
Fixpoint processThreads (env : Env) (runStart : Z) (page : list Thread)
    (tick : nat) (runMap : RunMap) : RunMap * nat * list Thread :=
  match page with
  | [] => (runMap, tick, [])
  | msgs :: rest =>
      if overLimit env runStart tick then (runMap, S tick, page)
      else
        processThreads env runStart rest (S tick)
          (match msgs with [] => runMap | _ => processMessages msgs runMap end)
  end.

(** The variables of the main loop.  [skipped] is not a variable of the
    program: it counts the threads that [processThreads] left
    unprocessed ([threads.length - tIdx] at each exit of the [for]
    loop), for the statements below. *)
Record Loop := {
  world : World;
  cursor : nat;
  totalProcessed : option nat;
  runMap : RunMap;
  threadsSinceCheckpoint : nat;
  lastCheckpointTime : Z;
  tick : nat;
  skipped : nat
}.

Definition isEmpty {A} (l : list A) : bool :=
  match l with [] => true | _ => false end.

(** The [while (true)] loop; [None] when [fuel] iterations do not reach
    a [break]. *)
Fixpoint mainLoop (fuel : nat) (env : Env) (runStart : Z) (st : Loop) : option Loop :=
  match fuel with
  | O => None
  | S fuel' =>
      if overLimit env runStart (tick st) then
        Some {| world := world st; cursor := cursor st;
                totalProcessed := totalProcessed st; runMap := runMap st;
                threadsSinceCheckpoint := threadsSinceCheckpoint st;
                lastCheckpointTime := lastCheckpointTime st;
                tick := S (tick st); skipped := skipped st |}
      else
        let page := search env (cursor st) CONFIG.PAGE_SIZE_THREADS in
        if isEmpty page then
          Some {| world := world st; cursor := cursor st;
                  totalProcessed := totalProcessed st; runMap := runMap st;
                  threadsSinceCheckpoint := threadsSinceCheckpoint st;
                  lastCheckpointTime := lastCheckpointTime st;
                  tick := S (tick st); skipped := skipped st |}
        else
          let '(runMap', tick', rest) :=
            processThreads env runStart page (S (tick st)) (runMap st) in
          let cursor' := (cursor st + length page)%nat in
          let since' := (threadsSinceCheckpoint st + length page)%nat in
          let total' := (fun n => n + length page)%nat <$> totalProcessed st in
          let timeSinceCheckpoint := (now env tick' - lastCheckpointTime st)%Z in
          let shouldCheckpoint :=
            (CONFIG.CHECKPOINT_THREADS <=? since')%nat
            || (CONFIG.CHECKPOINT_INTERVAL_MS <=? timeSinceCheckpoint)%Z in
          if shouldCheckpoint && negb (isEmpty runMap') then
            mainLoop fuel' env runStart
              {| world := checkpoint (world st) runMap' cursor' total';
                 cursor := cursor'; totalProcessed := total'; runMap := [];
                 threadsSinceCheckpoint := 0;
                 lastCheckpointTime := now env (S tick');
                 tick := S (S tick'); skipped := (skipped st + length rest)%nat |}
          else
            mainLoop fuel' env runStart
              {| world := world st;
                 cursor := cursor'; totalProcessed := total'; runMap := runMap';
                 threadsSinceCheckpoint := since';
                 lastCheckpointTime := lastCheckpointTime st;
                 tick := S tick'; skipped := (skipped st + length rest)%nat |}
  end.

(** What an invocation reports: [done], the final [cursor] and
    [totalProcessed], and the number of threads skipped on the way. *)
Record Result := {
  done : bool;
  finalCursor : nat;
  finalTotal : option nat;
  finalSkipped : nat
}.

(** How an invocation ends: [Threw] when the stored cursor is not a
    number and [GmailApp.search] rejects it, [NothingToScan] at the
    early [return], [Finished] after the final probe. *)
Inductive Outcome :=
| Threw
| NothingToScan
| Finished (r : Result).

(** The first-time initialisation.  [setupHeader] and [resetIndexSheet]
    run only when neither sheet has a data row, where they rewrite the
    header and leave the (empty) data rows as they are. *)
Definition initialise (w : World) : World :=
  if negb (Js.truthyO (props w !! KEYS.INITIALIZED)) then
    {| sheet := sheet w; indexSheet := indexSheet w;
       props := <[KEYS.INITIALIZED := "1"]>
                  (<[KEYS.TOTAL_PROCESSED := "0"]>
                     (<[KEYS.CURSOR := "0"]> (props w))) |}
  else w.

Definition finish (st : Loop) (env : Env) : World * Outcome :=
  let w :=
    if negb (isEmpty (runMap st))
    then checkpoint (world st) (runMap st) (cursor st) (totalProcessed st)
    else world st in
  let remaining := search env (cursor st) 1 in
  let done := isEmpty remaining in
  let r := {| done := done; finalCursor := cursor st;
              finalTotal := totalProcessed st; finalSkipped := skipped st |} in
  if done then
    ({| sheet := sheet w; indexSheet := indexSheet w;
        props := delete KEYS.TOTAL_PROCESSED
                   (delete KEYS.INITIALIZED (delete KEYS.CURSOR (props w))) |},
     Finished r)
  else
    ({| sheet := sheet w; indexSheet := indexSheet w;
        props := <[KEYS.TOTAL_PROCESSED := numToString (totalProcessed st)]>
                   (<[KEYS.CURSOR := numToString (Some (cursor st))]> (props w)) |},
     Finished r).

(** [buildSenderReportBatch()]; [None] only if the main loop runs out
    of fuel, which [buildSenderReportBatch_total] excludes.  The calls
    of [getSheetStats], [safeAlert] and [migrateAddProcessedColumn]
    only report or touch the header row and are left out. *)
Definition buildSenderReportBatch (env : Env) (w : World) : option (World * Outcome) :=
  let runStart := now env 0 in
  let w := initialise w in
  match readCount (props w) KEYS.CURSOR with
  | None => Some (w, Threw)
  | Some cursor0 =>
      let total0 := readCount (props w) KEYS.TOTAL_PROCESSED in
      let lastCheckpointTime := now env 1 in
      if isEmpty (search env cursor0 1) then Some (w, NothingToScan)
      else
        match mainLoop (S (length (threads env))) env runStart
                {| world := w; cursor := cursor0; totalProcessed := total0;
                   runMap := []; threadsSinceCheckpoint := 0;
                   lastCheckpointTime := lastCheckpointTime;
                   tick := 2; skipped := 0 |} with
        | Some st => Some (finish st env)
        | None => None
        end
  end.

(** ** Durability of a checkpoint

    The host as [checkpoint] describes it in its comments: writes to the
    sheets are batched until [SpreadsheetApp.flush()] commits them,
    while a property is durable as soon as it is set.  A process killed
    between two instructions leaves the committed sheets and the
    properties. *)

Module Durability.

Record Host := {
  committed : Sheet * IndexSheet;
  working : Sheet * IndexSheet;
  hprops : gmap string string
}.

Inductive Instr :=
| MergeRunMap (runMap : RunMap)
| SetProperty (key value : string)
| Flush.

Definition exec (i : Instr) (h : Host) : Host :=
  match i with
  | MergeRunMap runMap =>
      {| committed := committed h;
         working := mergeRunMapUsingIndex (working h).1 (working h).2 runMap;
         hprops := hprops h |}
  | SetProperty key value =>
      {| committed := committed h; working := working h;
         hprops := <[key := value]> (hprops h) |}
  | Flush =>
      {| committed := working h; working := working h; hprops := hprops h |}
  end.

(** The body of [checkpoint], instruction by instruction. *)
Definition checkpointInstrs (runMap : RunMap) (cursor : nat)
    (totalProcessed : option nat) : list Instr :=
  [ MergeRunMap runMap;
    SetProperty KEYS.CURSOR (numToString (Some cursor));
    SetProperty KEYS.TOTAL_PROCESSED (numToString totalProcessed);
    Flush ].

(** The order that the specification asks for: commit the sheets, then
    write the resumption values. *)
Definition flushFirstInstrs (runMap : RunMap) (cursor : nat)
    (totalProcessed : option nat) : list Instr :=
  [ MergeRunMap runMap;
    Flush;
    SetProperty KEYS.CURSOR (numToString (Some cursor));
    SetProperty KEYS.TOTAL_PROCESSED (numToString totalProcessed) ].

(** The states at the instruction boundaries, the first and the last
    included. *)
Fixpoint boundaries (prog : list Instr) (h : Host) : list Host :=
  h :: match prog with
       | [] => []
       | i :: prog' => boundaries prog' (exec i h)
       end.

(** What survives a kill. *)
Definition durable (h : Host) : World :=
  {| sheet := (committed h).1; indexSheet := (committed h).2; props := hprops h |}.

(** A host with nothing pending. *)
Definition settled (w : World) : Host :=
  {| committed := (sheet w, indexSheet w);
     working := (sheet w, indexSheet w);
     hprops := props w |}.

(** The cursor is durably [cursor] although the sheets that survive are
    not the merged ones. *)
Definition cursorAhead (w : World) (runMap : RunMap) (cursor : nat) (h : Host) : Prop :=
  hprops h !! KEYS.CURSOR = Some (numToString (Some cursor))
  /\ committed h <> mergeRunMapUsingIndex (sheet w) (indexSheet w) runMap.

End Durability.

(** ** Quantities of the statements *)

(** The key under which [processMessage] counts a message, if it counts
    it. *)
Definition keyOf (m : Msg) : option string :=
  if negb (isInInbox m) then None
  else
    let email := (parseFrom (getFrom m)).1 in
    if negb (Js.truthy email) then None
    else
      let key := Js.toLowerCase email in
      if inheritedKey key then None else Some key.

Definition counted (m : Msg) : bool :=
  match keyOf m with Some _ => true | None => false end.

(** Number of messages that the scan counts in a list of threads. *)
Definition countedIn (ts : list Thread) : Z :=
  Z.of_nat (length (filter (fun m => counted m = true) (concat ts))).

(** Number of messages counted under [key]. *)
Definition occurrences (key : string) (ts : list Thread) : Z :=
  Z.of_nat (length (filter (fun m => keyOf m = Some key) (concat ts))).

Fixpoint sumZ (l : list Z) : Z :=
  match l with
  | [] => 0
  | x :: l' => x + sumZ l'
  end.

(** Sum of the Count column. *)
Definition totalEmails (sheet : Sheet) : Z := sumZ (map Row.count sheet).

(** Sum of the counts of the buckets of a run map. *)
Definition pendingEmails (runMap : RunMap) : Z :=
  sumZ (map (fun kb => Bucket.count kb.2) runMap).

(** The count the store shows for a sender: the Count of its rows. *)
Definition storedCount (key : string) (sheet : Sheet) : Z :=
  sumZ (map Row.count
          (filter (fun r => Js.toLowerCase (Row.email r) = key) sheet)).

(** The index invariant: every entry of the index points at a row of
    the store that holds the record of its key, and every record of the
    store has an entry. *)
Definition IndexConsistent (sheet : Sheet) (indexSheet : IndexSheet) : Prop :=
  (forall key row, readIndex indexSheet !! key = Some row ->
     exists r, (2 <= row)%nat /\ sheet !! (row - 2)%nat = Some r
               /\ Js.toLowerCase (Row.email r) = key)
  /\ (forall r, r ∈ sheet ->
        is_Some (readIndex indexSheet !! Js.toLowerCase (Row.email r))).

(** The cursor that the next invocation starts from. *)
Definition storedCursor (w : World) : option nat :=
  readCount (props (initialise w)) KEYS.CURSOR.

(** The invariant of the resumption state: the stored cursor is the
    number of threads whose messages the store reflects. *)
Definition CursorReflectsStore (env : Env) (w : World) : Prop :=
  exists c, storedCursor w = Some c
            /\ totalEmails (sheet w) = countedIn (take c (threads env)).

(** The greater of two timestamps as strings; the empty string is the
    least string. *)
Definition maxStr (a b : string) : string := if String.ltb a b then b else a.

(** The first truthy string of a list, if any. *)
Definition firstNonEmpty (l : list string) : option string :=
  head (filter (fun s => Js.truthy s = true) l).

(** Two threads that act alike on every run map. *)
Definition sameEffect (t t' : Thread) : Prop :=
  forall rm,
    match t with [] => rm | _ => processMessages t rm end
    = match t' with [] => rm | _ => processMessages t' rm end.

(** [absorb] applied to the fields that [processMessage] reads from a
    message. *)
Definition absorbMsg (b : Bucket.t) (m : Msg) : Bucket.t :=
  absorb (getSubject m) (getDateIso m)
         (parseListUnsubscribeHeader (getListUnsubscribe m)) b.

(** An inbox message without a List-Unsubscribe header. *)
Definition mail (from subject dateIso : string) : Msg :=
  {| isInInbox := true; getFrom := from; getSubject := subject;
     getDateIso := dateIso; getListUnsubscribe := "" |}.

(** The three fields that belong to the action executor. *)
Definition frame (r : Row.t) : bool * string * string :=
  (Row.act r, Row.notes r, Row.processed r).

(** Every bucket of a run map carries the address under which it is
    filed, and that address is in lower case. *)
Definition emailsAreKeys (rm : RunMap) : Prop :=
  forall k b, (k, b) ∈ rm -> Bucket.email b = k /\ Js.toLowerCase k = k.

(** ** Mailboxes and clocks of the examples *)

Definition freshWorld : World := {| sheet := []; indexSheet := []; props := ∅ |}.

(** A clock that advances by the same number of milliseconds at every
    reading. *)
Definition steadyClock (msPerReading : Z) : nat -> Z :=
  fun t => (msPerReading * Z.of_nat t)%Z.

Definition fromAnn : Msg := mail "Ann <ann@x.com>" "hello" "2024-01-01T00:00:00Z".
Definition fromBob : Msg := mail "bob@y.org" "news" "2024-01-02T00:00:00Z".
Definition fromCat : Msg := mail "Cat <cat@z.net>" "offer" "2024-01-03T00:00:00Z".

(** 51 threads: one message of Ann, a thread with two of Bob, 48
    threads with one of Cat each, and on the second page one more of
    Ann. *)
Definition mailbox51 : list Thread :=
  [[fromAnn]; [fromBob; fromBob]] ++ replicate 48 [fromCat] ++ [[fromAnn]].

(** What the store and the run map of the main loop hold together. *)
Definition accounted (st : Loop) : Z :=
  (totalEmails (sheet (world st)) + pendingEmails (runMap st))%Z.

(** The threads from offset [lo] up to offset [hi]. *)
Definition slice (lo hi : nat) (ts : list Thread) : list Thread :=
  take (hi - lo) (drop lo ts).

(** A clock that jumps past the hard limit at its fifth reading, while
    the second thread of the first page is up. *)
Definition clockCutsFirstPage : nat -> Z :=
  fun t => if (t <? 4)%nat then 0%Z else 300001%Z.

(** The count that a run map holds for a key; 0 for a key that it does
    not hold. *)
Definition bucketCount (key : string) (rm : RunMap) : Z :=
  match rmGet key rm with Some b => Bucket.count b | None => 0%Z end.

(** ** Sheet statistics *)

Module Stats.
Record t := { senderCount : nat; totalEmails : Z }.
End Stats.

(** One iteration of the loop of [getSheetStats]. *)
Definition statsStep (st : Stats.t) (row : Row.t) : Stats.t :=
  let count := Row.count row in
  if (0 <? count)%Z
  then {| Stats.senderCount := S (Stats.senderCount st);
          Stats.totalEmails := Stats.totalEmails st + count |}
  else st.

(** [getSheetStats(sheet)]: the rows with a positive Count and the sum
    of their counts; a sheet without data rows gives zeros. *)
Definition getSheetStats (sheet : Sheet) : Stats.t :=
  fold_left statsStep sheet {| Stats.senderCount := 0; Stats.totalEmails := 0 |}.

(** ** The web interface over the store *)

(** [(row[1] || '').toString().trim().toLowerCase()] *)
Definition emailKey (r : Row.t) : string := Js.toLowerCase (Js.trim (Row.email r)).

(** [emailSet.has(s)] for the set built from a list. *)
Definition inSet (s : string) (l : list string) : bool := existsb (String.eqb s) l.

Definition setAct (checked : bool) (r : Row.t) : Row.t :=
  {| Row.act := checked; Row.email := Row.email r; Row.name := Row.name r;
     Row.count := Row.count r; Row.subject := Row.subject r;
     Row.lastSeen := Row.lastSeen r; Row.url := Row.url r;
     Row.mailto := Row.mailto r; Row.notes := Row.notes r;
     Row.processed := Row.processed r |}.

(** The loop of [setCheckedApi] over the data rows: the rows after the
    writes and the number of rows written. *)
Fixpoint setCheckedRows (emailSet : list string) (checked : bool) (rows : Sheet)
  : Sheet * nat :=
  match rows with
  | [] => ([], 0%nat)
  | r :: rows' =>
      let '(out, updated) := setCheckedRows emailSet checked rows' in
      if inSet (emailKey r) emailSet then (setAct checked r :: out, S updated)
      else (r :: out, updated)
  end.

(** [setCheckedApi(emails, checked)] on the sheet: the sheet after it
    and the [updated] count it returns. *)
Definition setCheckedApi (sheet : Sheet) (emails : list string) (checked : bool)
  : Sheet * nat :=
  setCheckedRows (map Js.toLowerCase emails) checked sheet.

(** [parseInt(s, 10)] with its sign, for the numbers of a request;
    [None] is [NaN]. *)
Definition parseIntZ (s : string) : option Z :=
  match Js.dropWhile Js.isSpace s with
  | String c rest as s' =>
      if Js.isChar "-"%char c then
        match rest with
        | String d _ =>
            if Regex.isDigit d then Some (- Z.of_nat (parseDigits 0 rest))%Z else None
        | EmptyString => None
        end
      else if Js.isChar "+"%char c then
        match rest with
        | String d _ =>
            if Regex.isDigit d then Some (Z.of_nat (parseDigits 0 rest)) else None
        | EmptyString => None
        end
      else if Regex.isDigit c then Some (Z.of_nat (parseDigits 0 s')) else None
  | EmptyString => None
  end.

(** [l.slice(start, stop)]; [None] is [NaN], which counts as 0, and a
    negative position counts from the end. *)
Definition jsSlice {A} (start stop : option Z) (l : list A) : list A :=
  let len := Z.of_nat (length l) in
  let rel (x : option Z) : Z :=
    match x with
    | None => 0
    | Some v => if (v <? 0)%Z then Z.max (len + v) 0 else Z.min v len
    end%Z in
  take (Z.to_nat (rel stop - rel start)) (drop (Z.to_nat (rel start)) l).

(** The query parameters of [getSendersApi]; [None] for an absent
    one. *)
Record Params := {
  p_limit : option string;
  p_offset : option string;
  p_minCount : option string;
  p_onlyUnchecked : option string;
  p_onlyUnprocessed : option string
}.

(** The filters of [getSendersApi] on one row. *)
Definition passesFilters (minCount : option Z) (onlyUnchecked onlyUnprocessed : bool)
    (r : Row.t) : bool :=
  let isProcessed := Js.truthy (Js.trim (Row.processed r)) in
  negb (match minCount with Some m => (Row.count r <? m)%Z | None => false end)
  && negb (onlyUnchecked && Row.act r)
  && negb (onlyUnprocessed && isProcessed).

(** [senders.sort((a, b) => b.count - a.count)]: by count, largest
    first, senders of equal count in their order. *)
Fixpoint insertSender (x : nat * Row.t) (l : list (nat * Row.t)) : list (nat * Row.t) :=
  match l with
  | [] => [x]
  | y :: l' =>
      if (Row.count x.2 <? Row.count y.2)%Z then y :: insertSender x l' else x :: l
  end.

Definition sortSenders (l : list (nat * Row.t)) : list (nat * Row.t) :=
  foldr insertSender [] l.

(** The senders that pass the filters, each with its row number. *)
Definition filteredSenders (minCount : option Z) (onlyUnchecked onlyUnprocessed : bool)
    (sheet : Sheet) : list (nat * Row.t) :=
  filter (fun x : nat * Row.t => passesFilters minCount onlyUnchecked onlyUnprocessed x.2 = true)
         (imap (fun i r => ((i + 2)%nat, r)) sheet).

(** [getSendersApi(params)]: the page of senders and [total]. *)
Definition getSendersApi (sheet : Sheet) (params : Params) : list (nat * Row.t) * nat :=
  let limit :=
    match parseIntZ (Js.or (Js.orEmpty (p_limit params)) "100") with
    | Some n => Some (Z.min n 500)
    | None => None
    end in
  let offset := parseIntZ (Js.or (Js.orEmpty (p_offset params)) "0") in
  let minCount := parseIntZ (Js.or (Js.orEmpty (p_minCount params)) "0") in
  let onlyUnchecked :=
    match p_onlyUnchecked params with Some s => String.eqb s "true" | None => false end in
  let onlyUnprocessed :=
    match p_onlyUnprocessed params with Some s => String.eqb s "true" | None => false end in
  let senders := sortSenders (filteredSenders minCount onlyUnchecked onlyUnprocessed sheet) in
  let stop :=
    match offset, limit with
    | Some o, Some l => Some (o + l)%Z
    | _, _ => None
    end in
  (jsSlice offset stop senders, length senders).

(** The columns of a row other than the Act flag. *)
Definition dataColumns (r : Row.t) :=
  (Row.email r, Row.name r, Row.count r, Row.subject r, Row.lastSeen r,
   Row.url r, Row.mailto r, Row.notes r, Row.processed r).

(** One iteration of the loop of [readIndex]. *)
Definition indexStep (m : gmap string nat) (entry : string * nat) : gmap string nat :=
  let '(k, row) := entry in
  let emailLc := Js.toLowerCase (Js.trim k) in
  if Js.truthy emailLc && (1 <? row)%nat then <[emailLc := row]> m else m.

(** A run map whose keys are as [processMessages] makes them: not
    empty, trimmed, in lower case, each once, and each the address of
    its bucket. *)
Definition wellKeyed (rm : RunMap) : Prop :=
  NoDup (map fst rm)
  /\ forall k b, (k, b) ∈ rm ->
       Js.truthy k = true /\ Js.toLowerCase (Js.trim k) = k /\ Bucket.email b = k.

(** The messages of a run map filed under one key. *)
Definition filedUnder (key : string) (rm : RunMap) : Z :=
  sumZ (map (fun kb => Bucket.count kb.2) (filter (fun kb => kb.1 = key) rm)).

(** ** Automatic scanning *)

(** What the trigger functions work on: the store and the handler
    names of the triggers of the project, as
    [ScriptApp.getProjectTriggers()] lists them. *)
Record Project := {
  store : World;
  triggers : list string
}.

Definition setProps (w : World) (p : gmap string string) : World :=
  {| sheet := sheet w; indexSheet := indexSheet w; props := p |}.

Definition stopAutoScan (p : Project) : Project :=
  {| store := setProps (store p) (delete KEYS.AUTO_SCAN_ENABLED (props (store p)));
     triggers := filter (fun h => h <> "autoScanBatch") (triggers p) |}.

Definition isAutoScanEnabled (p : Project) : bool :=
  bool_decide (props (store p) !! KEYS.AUTO_SCAN_ENABLED = Some "true").

(** [startAutoScan()]; the flag is [false] when the first batch throws
    and the exception leaves the function, after the trigger is created
    and the property set. *)
Definition startAutoScan (env : Env) (p : Project) : option (Project * bool) :=
  let p1 := stopAutoScan p in
  let triggers2 := triggers p1 ++ ["autoScanBatch"] in
  let w2 := setProps (store p1) (<[KEYS.AUTO_SCAN_ENABLED := "true"]> (props (store p1))) in
  match buildSenderReportBatch env w2 with
  | None => None
  | Some (w, Threw) => Some ({| store := w; triggers := triggers2 |}, false)
  | Some (w, _) => Some ({| store := w; triggers := triggers2 |}, true)
  end.

(** [autoScanBatch()].  An exception of the batch or of the probe is
    caught and leaves the trigger in place.  The notification mail is
    sent inside a [try] of its own after [stopAutoScan] and changes
    neither the store nor the triggers; it is left out. *)
Definition autoScanBatch (env : Env) (p : Project) : option Project :=
  match buildSenderReportBatch env (store p) with
  | None => None
  | Some (w, Threw) => Some {| store := w; triggers := triggers p |}
  | Some (w, _) =>
      match readCount (props w) KEYS.CURSOR with
      | None => Some {| store := w; triggers := triggers p |}
      | Some cursor =>
          if isEmpty (search env cursor 1)
          then Some (stopAutoScan {| store := w; triggers := triggers p |})
          else Some {| store := w; triggers := triggers p |}
      end
  end.

(** ** The status report *)

Inductive ScanStatus := not_started | in_progress | complete.

Module Status.
Record t := {
  status : ScanStatus;
  cursor : option nat;
  totalProcessed : option nat;
  senderCount : nat;
  totalEmails : Z;
  hasMore : bool;
  autoScanEnabled : bool
}.
End Status.

(** [getStatusApi()] for an authorised user whose spreadsheet exists;
    [None] when the probe [GmailApp.search] rejects a cursor that is not
    a number.  The fields [spreadsheetUrl] and [user] do not depend on
    the state modelled here. *)
Definition getStatusApi (env : Env) (p : Project) : option Status.t :=
  let w := store p in
  let cursor := readCount (props w) KEYS.CURSOR in
  let totalProcessed := readCount (props w) KEYS.TOTAL_PROCESSED in
  let initialized := Js.truthyO (props w !! KEYS.INITIALIZED) in
  let autoScanEnabled := isAutoScanEnabled p in
  let stats :=
    if negb (isEmpty (sheet w)) then getSheetStats (sheet w)
    else {| Stats.senderCount := 0; Stats.totalEmails := 0 |} in
  let report (hasMore : bool) :=
    {| Status.status :=
         if initialized then (if hasMore then in_progress else complete)
         else not_started;
       Status.cursor := cursor;
       Status.totalProcessed := totalProcessed;
       Status.senderCount := Stats.senderCount stats;
       Status.totalEmails := Stats.totalEmails stats;
       Status.hasMore := hasMore;
       Status.autoScanEnabled := autoScanEnabled |} in
  if initialized then
    match cursor with
    | Some c => Some (report (negb (isEmpty (search env c 1))))
    | None => None
    end
  else Some (report false).

(** [startScanApi()]: the state after the batch and, unless the batch
    or the status throws, the status with its [message]; [elapsedMs] is
    left out. *)
Definition startScanApi (env : Env) (p : Project)
  : option (Project * option (Status.t * string)) :=
  match buildSenderReportBatch env (store p) with
  | None => None
  | Some (w, Threw) => Some ({| store := w; triggers := triggers p |}, None)
  | Some (w, _) =>
      let p' := {| store := w; triggers := triggers p |} in
      Some (p',
            (fun status =>
               (status,
                if Status.hasMore status then "Batch complete, more to scan"
                else "Scan complete")) <$> getStatusApi env p')
  end.

(** ** Deleting the mail of a sender *)

(** The loop of [deleteAllFromSender] with [CONFIG.DRY_RUN] false, over
    the threads that the query [from:"senderEmail"] finds, in the order
    of the search.  [GmailApp.search] leaves out the threads in the
    trash, so a thread moved to the trash is not found by the next
    search.  [None] when [fuel] iterations do not reach the [break]. *)
Fixpoint deleteLoop {A} (fuel : nat) (found : list A) (start total : nat)
  : option (list A * nat) :=
  match fuel with
  | O => None
  | S fuel' =>
      let page := 100%nat in
      let threads := take page (drop start found) in
      if isEmpty threads then Some (found, total)
      else
        deleteLoop fuel' (take start found ++ drop (start + page) found)
          (start + page) (total + length threads)
  end.

(** [deleteAllFromSender(senderEmail)]: the threads of the sender that
    are left outside the trash, and the number in the text
    [Trashed n thread(s)] that it returns. *)
Definition deleteAllFromSender {A} (found : list A) : option (list A * nat) :=
  deleteLoop (S (length found)) found 0 0.

(** ** The action executor *)

Record Options := {
  opt_unsubscribe : bool;
  opt_delete : bool
}.

(** What the executor gets from outside for the data row [i]: the text
    that [unsubscribeIfPossible] returns (it catches its own
    exceptions), the text that [deleteAllFromSender] returns or the
    message of the exception it throws, and the text of
    [Utilities.formatDate(new Date(), ...)]. *)
Record Outside := {
  unsubscribeResult : nat -> string -> string -> string;
  deleteOutcome : nat -> string -> string + string;
  timestamp : nat -> string
}.

(** [notes.join(sep)] *)
Fixpoint jsJoin (sep : string) (l : list string) : string :=
  match l with
  | [] => ""
  | [x] => x
  | x :: rest => x ++ sep ++ jsJoin sep rest
  end.

(** The [try] block of one row up to the writes, with
    [CONFIG.DRY_RUN] false: the joined notes, or the message of the
    exception. *)
Definition runActions (options : Options) (out : Outside) (i : nat)
    (email unsubUrl unsubMailto : string) : string + string :=
  let notes1 :=
    if opt_unsubscribe options then [unsubscribeResult out i unsubUrl unsubMailto]
    else [] in
  if opt_delete options then
    match deleteOutcome out i email with
    | inl deleteResult => inl (jsJoin " | " (notes1 ++ [deleteResult]))
    | inr message => inr message
    end
  else inl (jsJoin " | " notes1).

(** The three writes after the actions of a row succeeded. *)
Definition rowDone (notes stamp : string) (r : Row.t) : Row.t :=
  {| Row.act := false; Row.email := Row.email r; Row.name := Row.name r;
     Row.count := Row.count r; Row.subject := Row.subject r;
     Row.lastSeen := Row.lastSeen r; Row.url := Row.url r;
     Row.mailto := Row.mailto r; Row.notes := notes; Row.processed := stamp |}.

(** The write of the [catch] block. *)
Definition rowFailed (message : string) (r : Row.t) : Row.t :=
  {| Row.act := Row.act r; Row.email := Row.email r; Row.name := Row.name r;
     Row.count := Row.count r; Row.subject := Row.subject r;
     Row.lastSeen := Row.lastSeen r; Row.url := Row.url r;
     Row.mailto := Row.mailto r; Row.notes := "ERROR: " ++ message;
     Row.processed := Row.processed r |}.

(** [!!row[0] && (row[1] || '').toString().trim()] *)
Definition isChecked (r : Row.t) : bool :=
  Row.act r && Js.truthy (Js.trim (Row.email r)).

(** The main loop of [processCheckedRows] from the data row [i] on:
    the rows after the writes, [acted] and [errors]. *)
Fixpoint checkedRowsLoop (options : Options) (out : Outside) (i : nat) (rows : Sheet)
  : Sheet * nat * nat :=
  match rows with
  | [] => ([], 0%nat, 0%nat)
  | row :: rows' =>
      let '(rest, acted, errors) := checkedRowsLoop options out (S i) rows' in
      let act := Row.act row in
      let email := Js.trim (Row.email row) in
      let unsubUrl := Js.trim (Row.url row) in
      let unsubMailto := Js.trim (Row.mailto row) in
      if negb act || negb (Js.truthy email) then (row :: rest, acted, errors)
      else
        match runActions options out i email unsubUrl unsubMailto with
        | inl notes => (rowDone notes (timestamp out i) row :: rest, S acted, errors)
        | inr message => (rowFailed message row :: rest, acted, S errors)
        end
  end.

(** [processCheckedRows(options)] on the sheet, with the two early
    returns: no data row, no checked row. *)
Definition processCheckedRows (options : Options) (out : Outside) (sheet : Sheet)
  : Sheet * nat * nat :=
  if isEmpty sheet then (sheet, 0%nat, 0%nat)
  else
    let checkedCount := length (filter (fun r => isChecked r = true) sheet) in
    if (checkedCount =? 0)%nat then (sheet, 0%nat, 0%nat)
    else checkedRowsLoop options out 0 sheet.

(** The loop of [doActionApi] from the data row [i] on: the rows after
    the writes and the number of [results]. *)
Fixpoint actionRowsLoop (emailSet : list string) (options : Options) (out : Outside)
    (i : nat) (rows : Sheet) : Sheet * nat :=
  match rows with
  | [] => ([], 0%nat)
  | row :: rows' =>
      let '(rest, processed) := actionRowsLoop emailSet options out (S i) rows' in
      let email := emailKey row in
      if negb (inSet email emailSet) then (row :: rest, processed)
      else
        let unsubUrl := Js.trim (Row.url row) in
        let unsubMailto := Js.trim (Row.mailto row) in
        match runActions options out i email unsubUrl unsubMailto with
        | inl notes => (rowDone notes (timestamp out i) row :: rest, S processed)
        | inr message => (rowFailed message row :: rest, S processed)
        end
  end.

(** [doActionApi(emails, options)] on an existing sheet: [None] is the
    answer [No emails provided]. *)
Definition doActionApi (emails : list string) (options : Options) (out : Outside)
    (sheet : Sheet) : option (Sheet * nat) :=
  if isEmpty emails then None
  else Some (actionRowsLoop (map Js.toLowerCase emails) options out 0 sheet).

(** The columns that describe the sender of a row. *)
Definition senderColumns (r : Row.t) :=
  (Row.email r, Row.name r, Row.count r, Row.subject r, Row.lastSeen r,
   Row.url r, Row.mailto r).

(** A row after the executor dealt with it: unchecked and stamped, or
    left as it was but for a note that starts with ERROR. *)
Definition dealtWith (r r' : Row.t) : Prop :=
  (exists notes stamp, r' = rowDone notes stamp r)
  \/ (exists message, r' = rowFailed message r).

(** ** The classification endpoint (api/classify.js) *)

Module Classify.

Definition BATCH_SIZE : nat := 200.

(** An element of the [senders] array of the request; [email] is
    [None] when the element is falsy or its [email] is not a string. *)
Record Sender := {
  email : option string;
  name : option string;
  count : Z;
  subject : option string
}.

(** [s.includes(c)] for a one-character [c]. *)
Fixpoint includesChar (c : ascii) (s : string) : bool :=
  match s with
  | EmptyString => false
  | String d s' => Js.isChar c d || includesChar c s'
  end.

(** [s && typeof s.email === "string" && s.email.includes("@")] *)
Definition isValid (s : Sender) : bool :=
  match email s with
  | Some e => includesChar "@" e
  | None => false
  end.

(** [s.email] of a valid sender. *)
Definition emailOf (s : Sender) : string := Js.orEmpty (email s).

(** The slices [validSenders.slice(i, i + BATCH_SIZE)] for [i] from 0
    in steps of [BATCH_SIZE]; [fuel] bounds their number. *)
Fixpoint batchesOf (fuel : nat) (l : list Sender) : list (list Sender) :=
  match fuel with
  | O => []
  | S fuel' =>
      match l with
      | [] => []
      | _ => take BATCH_SIZE l :: batchesOf fuel' (drop BATCH_SIZE l)
      end
  end.

(** [set.add(x)] on a [Set] kept in insertion order. *)
Definition setAdd (x : string) (l : list string) : list string :=
  if inSet x l then l else l ++ [x].

(** The body of the inner loop over the addresses that the model
    named. *)
Definition keepInput (inputEmails : list string) (all : list string) (e : string)
  : list string :=
  if inSet (Js.toLowerCase e) inputEmails then setAdd (Js.toLowerCase e) all else all.

(** The loop over the batches.  [classifyBatch k batch] is what the
    [k]-th call of [classifyBatch] returns, [None] when it throws. *)
Fixpoint classifyBatches (classifyBatch : nat -> list Sender -> option (list string))
    (k : nat) (batches : list (list Sender)) (all : list string)
  : option (list string) :=
  match batches with
  | [] => Some all
  | batch :: rest =>
      match classifyBatch k batch with
      | None => None
      | Some deleteEmails =>
          let inputEmails := map (fun s => Js.toLowerCase (emailOf s)) batch in
          classifyBatches classifyBatch (S k) rest
            (fold_left (keepInput inputEmails) deleteEmails all)
      end
  end.

(** [new Map(validSenders.map(s => [s.email.toLowerCase(), s.email]))] *)
Definition emailCaseMap (validSenders : list Sender) : gmap string string :=
  fold_left (fun m s => <[Js.toLowerCase (emailOf s) := emailOf s]> m) validSenders ∅.

Inductive Response :=
| NoContent
| Json (status : nat) (body : string + list string).

(** The handler: the method of the request, the API key of the
    environment, [body.senders] ([None] when it is not an array) and
    the answers of the model. *)
Definition handler (method : string) (apiKey : option string)
    (senders : option (list Sender))
    (classifyBatch : nat -> list Sender -> option (list string)) : Response :=
  if String.eqb method "OPTIONS" then NoContent
  else if negb (String.eqb method "POST") then Json 405 (inl "Method not allowed")
  else if negb (Js.truthyO apiKey) then Json 500 (inl "GEMINI_API_KEY not configured")
  else
    match senders with
    | None => Json 400 (inl "Request body must contain a non-empty 'senders' array")
    | Some senders =>
        if isEmpty senders
        then Json 400 (inl "Request body must contain a non-empty 'senders' array")
        else
          let validSenders := filter (fun s => isValid s = true) senders in
          if isEmpty validSenders
          then Json 400 (inl "No valid sender objects found in array")
          else
            match classifyBatches classifyBatch 0
                    (batchesOf (length validSenders) validSenders) [] with
            | None => Json 502 (inl "AI classification failed")
            | Some allDeleteEmails =>
                let caseMap := emailCaseMap validSenders in
                Json 200
                  (inr (map (fun e => Js.or (Js.orEmpty (caseMap !! e)) e)
                            allDeleteEmails))
            end
    end.

End Classify.

(** A request of three senders, one of them without an address, and a
    model that names one of them twice in other spellings and one
    address that is not in the request. *)
Definition classifyRequest : list Classify.Sender :=
  [ {| Classify.email := Some "News@Shop.com"; Classify.name := Some "Shop";
       Classify.count := 40; Classify.subject := Some "Sale" |};
    {| Classify.email := Some "bob@y.org"; Classify.name := None;
       Classify.count := 2; Classify.subject := Some "Lunch" |};
    {| Classify.email := None; Classify.name := None;
       Classify.count := 1; Classify.subject := None |} ].

Definition classifyAnswer (k : nat) (batch : list Classify.Sender) : option (list string) :=
  Some ["news@shop.com"; "evil@other.com"; "NEWS@shop.com"].

(** * Properties *)

(** ** Strings *)

Lemma lowerChar_idem c : Js.lowerChar (Js.lowerChar c) = Js.lowerChar c.
Proof. destruct c as [[] [] [] [] [] [] [] []]; reflexivity. Qed.

Lemma toLowerCase_idem s : Js.toLowerCase (Js.toLowerCase s) = Js.toLowerCase s.
Proof. induction s as [|c s IH]; simpl; [done|]. by rewrite lowerChar_idem, IH. Qed.

Lemma truthy_toLowerCase s : Js.truthy (Js.toLowerCase s) = Js.truthy s.
Proof. by destruct s. Qed.

Lemma or_empty_r s : Js.or s "" = s.
Proof. by destruct s. Qed.

Lemma ascii_compare_refl c : Ascii.compare c c = Eq.
Proof. unfold Ascii.compare. apply N.compare_refl. Qed.

Lemma string_compare_refl s : String.compare s s = Eq.
Proof. induction s as [|c s IH]; simpl; [done|]. by rewrite ascii_compare_refl. Qed.

Lemma ltb_irrefl s : String.ltb s s = false.
Proof. unfold String.ltb. by rewrite string_compare_refl. Qed.

(** No string is below the empty string. *)
Lemma ltb_empty_r s : String.ltb s "" = false.
Proof. by destruct s. Qed.

Lemma ltb_empty_l s : String.ltb "" s = Js.truthy s.
Proof. by destruct s. Qed.

Lemma string_compare_lt_trans a b c :
  String.compare a b = Lt -> String.compare b c = Lt -> String.compare a c = Lt.
Proof.
  revert b c. induction a as [|x a IH]; intros [|y b] [|z c]; simpl; try done.
  unfold Ascii.compare.
  destruct (N.compare_spec (N_of_ascii x) (N_of_ascii y)) as [Hxy|Hxy|Hxy];
    destruct (N.compare_spec (N_of_ascii y) (N_of_ascii z)) as [Hyz|Hyz|Hyz];
    try done; intros H1 H2.
  - rewrite Hxy, Hyz, N.compare_refl. eauto.
  - rewrite Hxy. by apply N.compare_lt_iff in Hyz as ->.
  - rewrite <- Hyz. by apply N.compare_lt_iff in Hxy as ->.
  - assert (N_of_ascii x < N_of_ascii z)%N as Hxz by lia.
    by apply N.compare_lt_iff in Hxz as ->.
Qed.

Lemma string_compare_eq a b : String.compare a b = Eq -> a = b.
Proof. apply String.compare_eq_iff. Qed.

(** The order is total, so "not below" composes. *)
Lemma ltb_false_trans a b c :
  String.ltb a b = false -> String.ltb b c = false -> String.ltb a c = false.
Proof.
  unfold String.ltb. intros Hab Hbc.
  destruct (String.compare a c) eqn:Hac; try done.
  destruct (String.compare b c) eqn:Hbc'; try done.
  - apply string_compare_eq in Hbc' as ->. by rewrite Hac in Hab.
  - destruct (String.compare a b) eqn:Hab'; try done.
    + apply string_compare_eq in Hab' as ->. by rewrite Hac in Hbc'.
    + rewrite String.compare_antisym in Hbc'.
      destruct (String.compare c b) eqn:Hcb; try done.
      pose proof (string_compare_lt_trans _ _ _ Hac Hcb) as Habl.
      by rewrite Habl in Hab'.
Qed.

Lemma maxStr_not_below_l a b : String.ltb (maxStr a b) a = false.
Proof.
  unfold maxStr. destruct (String.ltb a b) eqn:H; [|apply ltb_irrefl].
  unfold String.ltb in *. rewrite String.compare_antisym.
  by destruct (String.compare a b).
Qed.

Lemma maxStr_not_below_r a b : String.ltb (maxStr a b) b = false.
Proof.
  unfold maxStr. destruct (String.ltb a b) eqn:H; [apply ltb_irrefl|done].
Qed.

(** ** Run aggregator *)

Lemma absorb_count s d u b : Bucket.count (absorb s d u b) = (Bucket.count b + 1)%Z.
Proof. reflexivity. Qed.

Lemma absorb_email s d u b : Bucket.email (absorb s d u b) = Bucket.email b.
Proof. reflexivity. Qed.

Lemma absorb_sampleSubject s d u b :
  Bucket.sampleSubject (absorb s d u b)
  = if Js.truthyO (Bucket.sampleSubject b) then Bucket.sampleSubject b
    else if Js.truthy s then Some s else Bucket.sampleSubject b.
Proof. unfold absorb; simpl. by destruct (Js.truthyO _), (Js.truthy s). Qed.

Lemma absorb_lastSeen s d u b :
  Bucket.lastSeen (absorb s d u b) = Some (maxStr (Js.orEmpty (Bucket.lastSeen b)) d).
Proof.
  unfold absorb, maxStr, Js.gtb; simpl.
  destruct (Bucket.lastSeen b) as [[|c x]|]; simpl.
  - rewrite ltb_empty_l. by destruct d.
  - by destruct (String.ltb (String c x) d).
  - rewrite ltb_empty_l. by destruct d.
Qed.

Lemma absorb_unsubUrl_kept s d u b :
  Js.truthyO (Bucket.unsubUrl b) = true ->
  Bucket.unsubUrl (absorb s d u b) = Bucket.unsubUrl b.
Proof.
  intros H. unfold absorb; simpl. destruct u as [[url mailto]|]; [|done].
  rewrite H. by rewrite andb_false_r.
Qed.

Lemma absorb_unsubMailto_kept s d u b :
  Js.truthyO (Bucket.unsubMailto b) = true ->
  Bucket.unsubMailto (absorb s d u b) = Bucket.unsubMailto b.
Proof.
  intros H. unfold absorb; simpl. destruct u as [[url mailto]|]; [|done].
  rewrite H. by rewrite andb_false_r.
Qed.

Lemma fold_absorb_sampleSubject ms b :
  Bucket.sampleSubject (fold_left absorbMsg ms b)
  = if Js.truthyO (Bucket.sampleSubject b) then Bucket.sampleSubject b
    else match firstNonEmpty (map getSubject ms) with
         | Some s => Some s
         | None => Bucket.sampleSubject b
         end.
Proof.
  revert b. induction ms as [|m ms IH]; intros b; simpl.
  - by destruct (Js.truthyO _).
  - rewrite IH. unfold absorbMsg at 1 2 3. rewrite absorb_sampleSubject.
    unfold firstNonEmpty. rewrite filter_cons.
    destruct (Js.truthyO (Bucket.sampleSubject b)) eqn:Hb.
    + by rewrite Hb.
    + destruct (Js.truthy (getSubject m)) eqn:Hs.
      * rewrite decide_True by done. simpl. by destruct (getSubject m).
      * rewrite decide_False by done. by rewrite Hb.
Qed.

Lemma fold_absorb_lastSeen m ms b :
  Bucket.lastSeen (fold_left absorbMsg (m :: ms) b)
  = Some (fold_left maxStr (map getDateIso (m :: ms)) (Js.orEmpty (Bucket.lastSeen b))).
Proof.
  revert m b. induction ms as [|m' ms IH]; intros m b.
  - cbn [fold_left map]. unfold absorbMsg. by rewrite absorb_lastSeen.
  - change (fold_left absorbMsg (m :: m' :: ms) b)
      with (fold_left absorbMsg (m' :: ms) (absorbMsg b m)).
    rewrite IH. unfold absorbMsg at 1. by rewrite absorb_lastSeen.
Qed.

Lemma fold_maxStr_bounds ds a :
  let g := fold_left maxStr ds a in
  (g = a \/ g ∈ ds) /\ String.ltb g a = false
  /\ (forall d, d ∈ ds -> String.ltb g d = false).
Proof.
  revert a. induction ds as [|d ds IH]; intros a; simpl.
  - split; [by left|]. split; [apply ltb_irrefl|]. intros d Hd. by inversion Hd.
  - destruct (IH (maxStr a d)) as (Hin & Hge & Hall). split; [|split].
    + destruct Hin as [->|Hin].
      * unfold maxStr. destruct (String.ltb a d); [right; left|by left].
      * right. by right.
    + eapply ltb_false_trans; [exact Hge|apply maxStr_not_below_l].
    + intros d' Hd'. apply elem_of_cons in Hd' as [->|Hd']; [|by apply Hall].
      eapply ltb_false_trans; [exact Hge|apply maxStr_not_below_r].
Qed.

Lemma fold_absorb_count ms b :
  Bucket.count (fold_left absorbMsg ms b) = (Bucket.count b + Z.of_nat (length ms))%Z.
Proof.
  revert b. induction ms as [|m ms IH]; intros b; simpl; [lia|].
  rewrite IH. unfold absorbMsg at 1. rewrite absorb_count. lia.
Qed.

Lemma rmGet_rmSet_same key b rm : rmGet key (rmSet key b rm) = Some b.
Proof.
  induction rm as [|[k v] rm IH]; simpl.
  - by rewrite String.eqb_refl.
  - destruct (String.eqb k key) eqn:E; simpl; by rewrite E.
Qed.

(** What [processMessage] does with a message it counts. *)
Lemma processMessage_counted m key rm :
  keyOf m = Some key ->
  processMessage m rm
  = rmSet key
      (absorbMsg (match rmGet key rm with
                  | Some b => b
                  | None => newBucket (parseFrom (getFrom m)).1 (parseFrom (getFrom m)).2
                  end) m) rm.
Proof.
  unfold keyOf, processMessage, absorbMsg.
  destruct (isInInbox m); simpl; [|done].
  destruct (parseFrom (getFrom m)) as [email name]; simpl.
  destruct (Js.truthy email); simpl; [|done].
  destruct (inheritedKey (Js.toLowerCase email)); [done|].
  by intros [= <-].
Qed.

(** What it does with a message it does not count: nothing. *)
Lemma processMessage_skipped m rm : keyOf m = None -> processMessage m rm = rm.
Proof.
  unfold keyOf, processMessage.
  destruct (isInInbox m); simpl; [|done].
  destruct (parseFrom (getFrom m)) as [email name]; simpl.
  destruct (Js.truthy email); simpl; [|done].
  by destruct (inheritedKey (Js.toLowerCase email)).
Qed.

Lemma processMessages_single_bucket key ms b :
  Forall (fun m => keyOf m = Some key) ms ->
  processMessages ms [(key, b)] = [(key, fold_left absorbMsg ms b)].
Proof.
  revert b. induction ms as [|m ms IH]; intros b Hall; [done|].
  inversion Hall as [|? ? Hm Hms]; subst.
  unfold processMessages in *. simpl.
  rewrite (processMessage_counted _ _ _ Hm). simpl.
  rewrite String.eqb_refl. by apply IH.
Qed.

(** C7. Within the aggregation of one key's messages into one bucket,
    the sample subject is the first non-empty subject and the last-seen
    timestamp is the greatest timestamp as a string: subjects "", "A",
    "B" give "A", and timestamps of January, March, February give the
    March one.  An unsubscribe URL or mailto that is already set is
    kept; an unset one takes the incoming value. *)
Theorem aggregation_first_subject_latest_timestamp
    (key : string) (m : Msg) (ms : list Msg)
    (Hkey : Forall (fun x => keyOf x = Some key) (m :: ms)) :
  (exists b,
      processMessages [mail "News <news@example.com>" "" "2024-01-01T00:00:00Z";
                       mail "News <news@example.com>" "A" "2024-01-01T00:00:00Z";
                       mail "News <news@example.com>" "B" "2024-01-01T00:00:00Z"] []
      = [("news@example.com", b)]
      /\ Bucket.sampleSubject b = Some "A")
  /\ (exists b,
      processMessages [mail "News <news@example.com>" "x" "2024-01-01T10:00:00+00:00";
                       mail "News <news@example.com>" "x" "2024-03-01T10:00:00+00:00";
                       mail "News <news@example.com>" "x" "2024-02-01T10:00:00+00:00"] []
      = [("news@example.com", b)]
      /\ Bucket.lastSeen b = Some "2024-03-01T10:00:00+00:00")
  /\ (exists b,
      processMessages (m :: ms) [] = [(key, b)]
      /\ Bucket.count b = Z.of_nat (length (m :: ms))
      /\ Bucket.sampleSubject b = firstNonEmpty (map getSubject (m :: ms))
      /\ exists d, Bucket.lastSeen b = Some d
                   /\ d ∈ map getDateIso (m :: ms)
                   /\ forall d', d' ∈ map getDateIso (m :: ms) -> String.ltb d d' = false)
  /\ (forall s d u b,
        (Js.truthyO (Bucket.unsubUrl b) = true ->
         Bucket.unsubUrl (absorb s d u b) = Bucket.unsubUrl b)
        /\ (Js.truthyO (Bucket.unsubMailto b) = true ->
            Bucket.unsubMailto (absorb s d u b) = Bucket.unsubMailto b)
        /\ (forall url mailto,
              u = Some (url, mailto) ->
              (Js.truthyO (Bucket.unsubUrl b) = false -> Js.truthyO url = true ->
               Bucket.unsubUrl (absorb s d u b) = url)
              /\ (Js.truthyO (Bucket.unsubMailto b) = false -> Js.truthyO mailto = true ->
                  Bucket.unsubMailto (absorb s d u b) = mailto))).
Proof.
  split; [eexists; split; vm_compute; reflexivity|].
  split; [eexists; split; vm_compute; reflexivity|].
  split.
  - inversion Hkey as [|? ? Hm Hms]; subst.
    set (b0 := newBucket (parseFrom (getFrom m)).1 (parseFrom (getFrom m)).2).
    exists (fold_left absorbMsg (m :: ms) b0).
    split; [|split; [|split]].
    + unfold processMessages. cbn [fold_left].
      rewrite (processMessage_counted _ _ _ Hm). cbn [rmGet rmSet].
      by apply processMessages_single_bucket.
    + rewrite fold_absorb_count. simpl. lia.
    + rewrite fold_absorb_sampleSubject. subst b0. simpl.
      by destruct (firstNonEmpty _).
    + rewrite fold_absorb_lastSeen. eexists. split; [reflexivity|].
      cbn [map fold_left]. simpl Js.orEmpty.
      replace (maxStr "" (getDateIso m)) with (getDateIso m)
        by (unfold maxStr; rewrite ltb_empty_l; by destruct (getDateIso m)).
      destruct (fold_maxStr_bounds (map getDateIso ms) (getDateIso m))
        as (Hin & Hge & Hall).
      split.
      * destruct Hin as [->|Hin]; [left|by right].
      * intros d' Hd'. apply elem_of_cons in Hd' as [->|Hd']; [done|by apply Hall].
  - intros s d u b. split; [apply absorb_unsubUrl_kept|].
    split; [apply absorb_unsubMailto_kept|].
    intros url mailto -> . unfold absorb; simpl.
    split; intros -> ->; reflexivity.
Qed.

Lemma aggregation_first_subject_latest_timestamp_witness :
  Forall (fun x => keyOf x = Some "news@example.com")
         [mail "News <news@example.com>" "" "2024-01-01T10:00:00+00:00";
          mail "<NEWS@example.com>" "A" "2024-03-01T10:00:00+00:00"]
  /\ exists b,
      processMessages
        [mail "News <news@example.com>" "" "2024-01-01T10:00:00+00:00";
         mail "<NEWS@example.com>" "A" "2024-03-01T10:00:00+00:00"] []
      = [("news@example.com", b)].
Proof.
  assert (H : Forall (fun x => keyOf x = Some "news@example.com")
         [mail "News <news@example.com>" "" "2024-01-01T10:00:00+00:00";
          mail "<NEWS@example.com>" "A" "2024-03-01T10:00:00+00:00"]).
  { repeat constructor. }
  split; [exact H|].
  destruct (aggregation_first_subject_latest_timestamp _ _ _ H)
    as (_ & _ & (b & Hb & _) & _).
  exists b. exact Hb.
Defined.

(** ** Store rows *)

Lemma getRow_setRow row v sheet : (2 <= row)%nat -> getRow row (setRow row v sheet) = v.
Proof.
  intros Hrow. unfold getRow, setRow.
  destruct (row - 2 <? length sheet)%nat eqn:E.
  - apply Nat.ltb_lt in E. apply nth_lookup_Some. by apply list_lookup_insert_eq.
  - apply Nat.ltb_ge in E. apply nth_lookup_Some.
    rewrite lookup_app_r by lia.
    rewrite lookup_app_r by (rewrite repeat_length; lia).
    rewrite repeat_length.
    by replace (row - 2 - length sheet - (row - 2 - length sheet))%nat with 0%nat by lia.
Qed.

Lemma readIndex_rows_fold (l : IndexSheet) (m0 : gmap string nat) key row :
  (forall k r, m0 !! k = Some r -> (2 <= r)%nat) ->
  fold_left
    (fun (m : gmap string nat) '(k, row) =>
       let emailLc := Js.toLowerCase (Js.trim k) in
       if Js.truthy emailLc && (1 <? row)%nat then <[emailLc := row]> m else m)
    l m0 !! key = Some row ->
  (2 <= row)%nat.
Proof.
  revert m0. induction l as [|[k r] l IH]; intros m0 Hm0; simpl.
  - apply Hm0.
  - apply IH. intros k' r'.
    destruct (Js.truthy _ && (1 <? r)%nat) eqn:E; [|apply Hm0].
    apply andb_true_iff in E as [_ E]. apply Nat.ltb_lt in E.
    rewrite lookup_insert. case_decide; [|apply Hm0].
    intros [= <-]. lia.
Qed.

(** The index only ever yields rows below the header. *)
Lemma readIndex_row_ge_2 indexSheet key row :
  readIndex indexSheet !! key = Some row -> (2 <= row)%nat.
Proof.
  unfold readIndex. apply readIndex_rows_fold. intros k r. by rewrite lookup_empty.
Qed.

Lemma mergeWrites_single_existing sheet indexSheet key B row :
  readIndex indexSheet !! key = Some row ->
  mergeWrites sheet indexSheet [(key, B)]
  = (setRow row (mergeRowVals (getRow row sheet) B) sheet, indexSheet).
Proof.
  intros Hidx. unfold mergeWrites. cbv zeta.
  rewrite filter_cons, decide_False by (simpl; by rewrite Hidx).
  rewrite filter_nil. cbn [omap list_omap fst snd]. simpl. rewrite Hidx. simpl.
  rewrite !app_nil_r.
  apply readIndex_row_ge_2 in Hidx.
  destruct (row <? 2)%nat eqn:E; [apply Nat.ltb_lt in E; lia|done].
Qed.

(** C4. The fields of an existing record R merged with a bucket B: the
    count is the sum of the two counts; subject, unsubscribe URL and
    mailto are R's when non-empty and B's otherwise; the last-seen
    timestamp is the greater of the two as strings, the empty one being
    the least.  The merge of a run map that holds B under a key of the
    index writes exactly this record at the indexed row. *)
Theorem merge_field_policy
    (R : Row.t) (B : Bucket.t) (sheet : Sheet) (indexSheet : IndexSheet)
    (key : string) (row : nat)
    (Hidx : readIndex indexSheet !! key = Some row)
    (HR : getRow row sheet = R) :
  let N := mergeRowVals R B in
  Row.count N = (Row.count R + Bucket.count B)%Z
  /\ Row.subject N
     = (if Js.truthy (Row.subject R) then Row.subject R
        else Js.orEmpty (Bucket.sampleSubject B))
  /\ Row.lastSeen N = maxStr (Row.lastSeen R) (Js.orEmpty (Bucket.lastSeen B))
  /\ Row.url N
     = (if Js.truthy (Row.url R) then Row.url R else Js.orEmpty (Bucket.unsubUrl B))
  /\ Row.mailto N
     = (if Js.truthy (Row.mailto R) then Row.mailto R
        else Js.orEmpty (Bucket.unsubMailto B))
  /\ getRow row (mergeWrites sheet indexSheet [(key, B)]).1 = N.
Proof.
  cbv zeta. repeat split.
  - unfold mergeRowVals, maxStr, Js.gtb, Js.or; simpl.
    destruct (Row.lastSeen R) as [|c x] eqn:HL; simpl.
    + destruct (Bucket.lastSeen B) as [[|d y]|]; reflexivity.
    + destruct (Bucket.lastSeen B) as [[|d y]|]; reflexivity.
  - rewrite (mergeWrites_single_existing _ _ _ _ _ Hidx). simpl.
    rewrite HR. apply getRow_setRow. by apply readIndex_row_ge_2 in Hidx.
Qed.

Lemma merge_field_policy_witness :
  readIndex [("a@x.com", 2%nat)] !! "a@x.com" = Some 2%nat
  /\ Row.count
       (getRow 2
          (mergeWrites
             [{| Row.act := true; Row.email := "a@x.com"; Row.name := "A";
                 Row.count := 3; Row.subject := ""; Row.lastSeen := "2024-01";
                 Row.url := ""; Row.mailto := "mailto:u@x.com";
                 Row.notes := "kept"; Row.processed := "2024-05" |}]
             [("a@x.com", 2%nat)]
             [("a@x.com",
               {| Bucket.email := "a@x.com"; Bucket.name := None; Bucket.count := 2;
                  Bucket.sampleSubject := Some "hello";
                  Bucket.lastSeen := Some "2024-02";
                  Bucket.unsubUrl := None; Bucket.unsubMailto := None |})]).1)
     = 5%Z.
Proof.
  assert (H : readIndex [("a@x.com", 2%nat)] !! "a@x.com" = Some 2%nat)
    by (vm_compute; reflexivity).
  split; [exact H|].
  pose proof (merge_field_policy _
    {| Bucket.email := "a@x.com"; Bucket.name := None; Bucket.count := 2;
       Bucket.sampleSubject := Some "hello"; Bucket.lastSeen := Some "2024-02";
       Bucket.unsubUrl := None; Bucket.unsubMailto := None |}
    [{| Row.act := true; Row.email := "a@x.com"; Row.name := "A";
        Row.count := 3; Row.subject := ""; Row.lastSeen := "2024-01";
        Row.url := ""; Row.mailto := "mailto:u@x.com";
        Row.notes := "kept"; Row.processed := "2024-05" |}]
    _ _ _ H eq_refl) as (Hc & _ & _ & _ & _ & Hrow).
  rewrite Hrow. exact Hc.
Defined.

Lemma frame_mergeRowVals R B : frame (mergeRowVals R B) = frame R.
Proof. unfold frame, mergeRowVals; simpl. by rewrite !or_empty_r. Qed.

Lemma frame_buildRowFromBucket b : frame (buildRowFromBucket b) = frame Row.blank.
Proof. reflexivity. Qed.

Lemma frames_applyUpdate sheet u :
  exists k, map frame (applyUpdate sheet u)
            = map frame sheet ++ replicate k (frame Row.blank).
Proof.
  destruct u as [row B]. unfold applyUpdate.
  destruct (row <? 2)%nat; [exists 0%nat; by rewrite app_nil_r|].
  unfold setRow, getRow. destruct (row - 2 <? length sheet)%nat eqn:E.
  - apply Nat.ltb_lt in E. exists 0%nat. rewrite app_nil_r.
    destruct (lookup_lt_is_Some_2 sheet (row - 2)%nat E) as [r Hr].
    rewrite (nth_lookup_Some _ _ _ _ Hr).
    change (map frame) with (fmap (M:=list) frame).
    rewrite list_fmap_insert, frame_mergeRowVals.
    apply list_insert_id. by rewrite list_lookup_fmap, Hr.
  - apply Nat.ltb_ge in E. exists (S (row - 2 - length sheet)).
    rewrite nth_overflow by lia. rewrite !map_app. simpl.
    rewrite frame_mergeRowVals. f_equal.
    rewrite map_repeat. clear.
    induction (row - 2 - length sheet)%nat as [|n IH]; [done|].
    simpl. by rewrite IH.
Qed.

Lemma frames_fold_applyUpdate us sheet :
  exists k, map frame (fold_left applyUpdate us sheet)
            = map frame sheet ++ replicate k (frame Row.blank).
Proof.
  revert sheet. induction us as [|u us IH]; intros sheet; simpl.
  - exists 0%nat. by rewrite app_nil_r.
  - destruct (IH (applyUpdate sheet u)) as [k1 H1].
    destruct (frames_applyUpdate sheet u) as [k2 H2].
    exists (k2 + k1)%nat. rewrite H1, H2, <- app_assoc. f_equal.
    by rewrite replicate_add.
Qed.

Lemma insertByCount_perm r l : Permutation (insertByCount r l) (r :: l).
Proof.
  induction l as [|x l IH]; simpl; [done|].
  destruct (Row.count r <? Row.count x)%Z; [|done].
  rewrite IH. apply perm_swap.
Qed.

(** The sort only reorders the rows. *)
Lemma sortByCountDesc_perm sheet : Permutation (sortByCountDesc sheet) sheet.
Proof.
  induction sheet as [|r l IH]; simpl; [done|].
  rewrite insertByCount_perm. by constructor.
Qed.

Lemma frames_mergeWrites sheet indexSheet runMap :
  exists k, map frame (mergeWrites sheet indexSheet runMap).1
            = map frame sheet ++ replicate k (frame Row.blank).
Proof.
  unfold mergeWrites. cbv zeta. cbn [fst].
  match goal with |- context [fold_left applyUpdate ?us ?s] =>
    destruct (frames_fold_applyUpdate us s) as [k Hk] end.
  rewrite Hk, map_app, map_map.
  match goal with |- context [map ?f (filter ?P runMap)] =>
    exists (length (filter P runMap) + k)%nat;
    generalize (filter P runMap) end.
  intros l. rewrite <- app_assoc, replicate_add. do 2 f_equal.
  induction l as [|x l IH]; [done|]. simpl. by rewrite IH.
Qed.

(** C6. A merge leaves the Act flag, the notes and the processed
    timestamp of a record as they were: in the record written back for
    an existing sender, at the row an update touches, and over the
    whole store, whose rows keep their three fields through the merge
    and its sort (rows that the merge adds start with the blank
    ones). *)
Theorem merge_keeps_executor_fields
    (R : Row.t) (B : Bucket.t) (sheet : Sheet) (indexSheet : IndexSheet)
    (runMap : RunMap) (row : nat) :
  (Row.act (mergeRowVals R B) = Row.act R
   /\ Row.notes (mergeRowVals R B) = Row.notes R
   /\ Row.processed (mergeRowVals R B) = Row.processed R)
  /\ frame (getRow row (applyUpdate sheet (row, B))) = frame (getRow row sheet)
  /\ exists k,
      Permutation
        (map frame (mergeRunMapUsingIndex sheet indexSheet runMap).1)
        (map frame sheet ++ replicate k (false, "", "")).
Proof.
  split; [|split].
  - repeat split; simpl; apply or_empty_r.
  - unfold applyUpdate. destruct (row <? 2)%nat eqn:E; [done|].
    apply Nat.ltb_ge in E. by rewrite getRow_setRow, frame_mergeRowVals.
  - unfold mergeRunMapUsingIndex. destruct runMap as [|kb rm].
    + exists 0%nat. by rewrite app_nil_r.
    + destruct (frames_mergeWrites sheet indexSheet (kb :: rm)) as [k Hk].
      destruct (mergeWrites sheet indexSheet (kb :: rm)) as [sheet' index'].
      exists k. cbn [fst] in *.
      change (false, "", "") with (frame Row.blank). rewrite <- Hk.
      apply Permutation_map, sortByCountDesc_perm.
Qed.

(** ** New records *)

Lemma parseFrom_email_lower s :
  Js.toLowerCase (parseFrom s).1 = (parseFrom s).1.
Proof.
  unfold parseFrom.
  destruct (match Regex.search Regex.angleRe s with
            | Some (pre, segs, post) => _ | None => _ end) as [email name].
  simpl. destruct (Js.truthy email) eqn:E; simpl.
  - apply toLowerCase_idem.
  - by destruct email.
Qed.

Lemma keyOf_email m key :
  keyOf m = Some key -> (parseFrom (getFrom m)).1 = key /\ Js.toLowerCase key = key.
Proof.
  unfold keyOf. destruct (isInInbox m); simpl; [|done].
  destruct (Js.truthy _); simpl; [|done].
  destruct (inheritedKey _); [done|]. intros [= <-].
  rewrite parseFrom_email_lower. split; [done|apply parseFrom_email_lower].
Qed.

Lemma rmGet_Some_elem key b (rm : RunMap) : rmGet key rm = Some b -> (key, b) ∈ rm.
Proof.
  induction rm as [|[k v] rm IH]; simpl; [done|].
  destruct (String.eqb_spec k key) as [->|Hne].
  - intros [= ->]. left.
  - intros H. right. by apply IH.
Qed.

Lemma elem_rmSet key b (rm : RunMap) k v :
  (k, v) ∈ rmSet key b rm -> (k, v) = (key, b) \/ (k, v) ∈ rm.
Proof.
  induction rm as [|[k' v'] rm IH]; simpl.
  - intros H. apply list_elem_of_singleton in H. by left.
  - destruct (String.eqb_spec k' key) as [->|Hne]; intros H;
      apply elem_of_cons in H as [H|H].
    + by left.
    + right. by right.
    + right. rewrite H. left.
    + destruct (IH H) as [?|?]; [by left|right; by right].
Qed.

Lemma processMessage_emailsAreKeys m rm :
  emailsAreKeys rm -> emailsAreKeys (processMessage m rm).
Proof.
  intros Hrm. destruct (keyOf m) as [key|] eqn:Hk.
  - rewrite (processMessage_counted _ _ _ Hk).
    destruct (keyOf_email _ _ Hk) as [He Hl].
    intros k b Hin. apply elem_rmSet in Hin as [[= -> ->]|Hin]; [|by apply Hrm].
    split; [|done]. unfold absorbMsg. rewrite absorb_email.
    destruct (rmGet key rm) as [b0|] eqn:Hg.
    + apply rmGet_Some_elem in Hg. by apply Hrm in Hg as [? _].
    + done.
  - by rewrite processMessage_skipped.
Qed.

Lemma processMessages_emailsAreKeys ms rm :
  emailsAreKeys rm -> emailsAreKeys (processMessages ms rm).
Proof.
  revert rm. induction ms as [|m ms IH]; intros rm Hrm; [done|].
  apply IH. by apply processMessage_emailsAreKeys.
Qed.

Lemma mergeWrites_single_new sheet indexSheet key b :
  readIndex indexSheet !! key = None ->
  mergeWrites sheet indexSheet [(key, b)]
  = (sheet ++ [buildRowFromBucket b],
     indexSheet ++ [(key, (length sheet + 2)%nat)]).
Proof.
  intros Hidx. unfold mergeWrites. cbv zeta.
  rewrite filter_cons, decide_True by done. rewrite filter_nil.
  cbn [omap list_omap fst snd]. simpl. rewrite Hidx. simpl.
  unfold getLastRow.
  by replace (S (S (length sheet + 0))) with (length sheet + 2)%nat by lia.
Qed.

(** C10, as the code has it.  A record created for a new key starts
    with the Act flag off, empty notes and an empty processed
    timestamp, and its address is the address of the bucket.  For a
    bucket that [processMessages] built, that address is the sender's
    address in lower case, the same text as the key under which the
    index files the new row. *)
Theorem new_record_fields
    (msgs : list Msg) (key : string) (b : Bucket.t)
    (sheet : Sheet) (indexSheet : IndexSheet)
    (Hb : (key, b) ∈ processMessages msgs [])
    (Hnew : readIndex indexSheet !! key = None) :
  let r := buildRowFromBucket b in
  Row.act r = false /\ Row.notes r = "" /\ Row.processed r = ""
  /\ Row.email r = Bucket.email b
  /\ Bucket.email b = key
  /\ Js.toLowerCase (Row.email r) = Row.email r
  /\ mergeWrites sheet indexSheet [(key, b)]
     = (sheet ++ [r], indexSheet ++ [(key, (length sheet + 2)%nat)]).
Proof.
  assert (emailsAreKeys (processMessages msgs [])) as Hinv.
  { apply processMessages_emailsAreKeys. intros k v H. by inversion H. }
  destruct (Hinv _ _ Hb) as [He Hl].
  cbv zeta. repeat split; try done.
  - simpl. by rewrite He.
  - by apply mergeWrites_single_new.
Qed.

Lemma new_record_fields_witness :
  (exists b,
     ("bob@example.com", b)
       ∈ processMessages [mail "Bob <Bob@Example.COM>" "hi" "2024-01-01T00:00:00Z"] []
     /\ Row.email (buildRowFromBucket b) = "bob@example.com")
  /\ readIndex [] !! "bob@example.com" = None.
Proof.
  assert (Hnew : readIndex [] !! "bob@example.com" = None) by reflexivity.
  split; [|exact Hnew].
  eexists. 
  assert (Hb : ("bob@example.com",
                absorbMsg (newBucket "bob@example.com" (Some "Bob"))
                  (mail "Bob <Bob@Example.COM>" "hi" "2024-01-01T00:00:00Z"))
               ∈ processMessages
                   [mail "Bob <Bob@Example.COM>" "hi" "2024-01-01T00:00:00Z"] []).
  { vm_compute. left. }
  split; [exact Hb|].
  destruct (new_record_fields _ _ _ [] [] Hb Hnew) as (_ & _ & _ & He & Hk & _).
  by rewrite He, Hk.
Defined.

(** C10, as the specification has it, fails: the address stored for a
    message from [Bob@Example.COM] is [bob@example.com], since
    [parseFrom] already folds the case. *)
Lemma new_record_address_is_case_folded :
  map Row.email
    (mergeRunMapUsingIndex [] []
       (processMessages [mail "Bob <Bob@Example.COM>" "hi" "2024-01-01T00:00:00Z"] [])).1
  = ["bob@example.com"]
  /\ map Row.email
       (mergeRunMapUsingIndex [] []
          (processMessages [mail "Bob <Bob@Example.COM>" "hi" "2024-01-01T00:00:00Z"] [])).1
     <> ["Bob@Example.COM"].
Proof. split; [vm_compute; reflexivity|vm_compute; discriminate]. Qed.

(** ** The index after a merge *)

Lemma readIndex_ann_bob :
  readIndex [("ann@x.com", 2%nat); ("bob@y.org", 3%nat)]
  = <["bob@y.org" := 3%nat]> (<["ann@x.com" := 2%nat]> ∅).
Proof. reflexivity. Qed.

(** C3 fails on the code.  Merging a run map with one message of Ann
    and two of Bob into the empty store appends Ann at row 2 and Bob at
    row 3 and files them so in the index; up to there the index is
    right.  The sort by count then moves Bob's record to row 2, and the
    index entry of Ann points at Bob's record. *)
Theorem index_broken_by_sort :
  let runMap := processMessages [fromAnn; fromBob; fromBob] [] in
  let before := mergeWrites [] [] runMap in
  let after := mergeRunMapUsingIndex [] [] runMap in
  IndexConsistent [] []
  /\ IndexConsistent before.1 before.2
  /\ readIndex after.2 !! "ann@x.com" = Some 2%nat
  /\ Row.email (getRow 2 after.1) = "bob@y.org"
  /\ ~ IndexConsistent after.1 after.2.
Proof.
  cbv zeta. split; [|split; [|split; [|split]]].
  - split.
    + intros key row H. unfold readIndex in H. simpl in H.
      by rewrite lookup_empty in H.
    + intros r H. by inversion H.
  - change (mergeWrites [] [] (processMessages [fromAnn; fromBob; fromBob] [])).2
      with [("ann@x.com", 2%nat); ("bob@y.org", 3%nat)].
    unfold IndexConsistent. rewrite readIndex_ann_bob. split.
    + intros key row H.
      apply lookup_insert_Some in H as [[<- <-]|[_ H]];
        [eexists; split; [lia|split; vm_compute; reflexivity]|].
      apply lookup_insert_Some in H as [[<- <-]|[_ H]];
        [eexists; split; [lia|split; vm_compute; reflexivity]|].
      by rewrite lookup_empty in H.
    + intros r H. vm_compute in H.
      apply elem_of_cons in H as [->|H]; [by eexists|].
      apply elem_of_cons in H as [->|H]; [by eexists|].
      by inversion H.
  - vm_compute. reflexivity.
  - vm_compute. reflexivity.
  - intros [H _].
    destruct (H "ann@x.com" 2%nat) as (r & _ & Hr & He); [vm_compute; reflexivity|].
    vm_compute in Hr. injection Hr as <-. vm_compute in He. discriminate.
Qed.

(** ** Counts and checkpoint boundaries *)

(** C5 fails on the code.  The mailbox counts Ann twice and Cat 48
    times.  With a clock that never triggers a checkpoint before the
    end of the mailbox, the store shows these counts.  With a clock on
    which the first page takes over a minute, a checkpoint is taken
    after the first page; its sort moves Cat's record to the row that
    the index holds for Ann, and the merge of the second page adds
    Ann's second message to Cat's record. *)
Theorem counts_depend_on_checkpoints :
  occurrences "ann@x.com" mailbox51 = 2%Z
  /\ occurrences "cat@z.net" mailbox51 = 48%Z
  /\ (exists w r,
        buildSenderReportBatch {| threads := mailbox51; now := steadyClock 1 |} freshWorld
        = Some (w, Finished r)
        /\ done r = true
        /\ storedCount "ann@x.com" (sheet w) = 2%Z
        /\ storedCount "cat@z.net" (sheet w) = 48%Z)
  /\ (exists w r,
        buildSenderReportBatch {| threads := mailbox51; now := steadyClock 2000 |} freshWorld
        = Some (w, Finished r)
        /\ done r = true
        /\ storedCount "ann@x.com" (sheet w) = 1%Z
        /\ storedCount "cat@z.net" (sheet w) = 49%Z).
Proof.
  split; [vm_compute; reflexivity|].
  split; [vm_compute; reflexivity|].
  split; eexists _, _; (split; [vm_compute; reflexivity|]);
    repeat split; vm_compute; reflexivity.
Qed.

(** ** Records without an address *)

Lemma processMessages_app ms1 ms2 rm :
  processMessages (ms1 ++ ms2) rm = processMessages ms2 (processMessages ms1 rm).
Proof. unfold processMessages. apply fold_left_app. Qed.

Lemma thread_effect (t : Thread) rm :
  match t with [] => rm | _ => processMessages t rm end = processMessages t rm.
Proof. by destruct t. Qed.

Lemma sameEffect_drop_skipped before m after :
  keyOf m = None -> sameEffect (before ++ m :: after) (before ++ after).
Proof.
  intros Hm rm. rewrite !thread_effect, !processMessages_app.
  change (processMessages (m :: after) (processMessages before rm))
    with (processMessages after (processMessage m (processMessages before rm))).
  by rewrite processMessage_skipped.
Qed.

Lemma sameEffect_refl t : sameEffect t t.
Proof. by intros rm. Qed.

Section Congruence.
(** Two mailboxes whose threads act alike, read on the same clock. *)
Variables env env' : Env.
Hypothesis Hnow : now env' = now env.
Hypothesis Hthreads : Forall2 sameEffect (threads env) (threads env').

Lemma overLimit_congr runStart t : overLimit env' runStart t = overLimit env runStart t.
Proof. unfold overLimit. by rewrite Hnow. Qed.

Lemma search_congr start max :
  Forall2 sameEffect (search env start max) (search env' start max).
Proof. unfold search. by apply Forall2_take, Forall2_drop. Qed.

Lemma processThreads_congr runStart page page' t rm :
  Forall2 sameEffect page page' ->
  exists rest rest' rm' t',
    processThreads env runStart page t rm = (rm', t', rest)
    /\ processThreads env' runStart page' t rm = (rm', t', rest')
    /\ length rest = length rest'.
Proof.
  intros H. revert t rm.
  induction H as [|x y page page' Hxy H IH]; intros t rm; simpl.
  - by exists [], [], rm, t.
  - rewrite overLimit_congr. destruct (overLimit env runStart t).
    + exists (x :: page), (y :: page'), rm, (S t). simpl.
      by rewrite (Forall2_length _ _ _ H).
    + rewrite <- (Hxy rm). apply IH.
Qed.

Lemma mainLoop_congr fuel runStart st :
  mainLoop fuel env' runStart st = mainLoop fuel env runStart st.
Proof.
  revert st. induction fuel as [|fuel IH]; intros st; [done|].
  cbn [mainLoop]. rewrite overLimit_congr, Hnow.
  destruct (overLimit env runStart (tick st)); [done|].
  pose proof (search_congr (cursor st) CONFIG.PAGE_SIZE_THREADS) as Hpage.
  pose proof (Forall2_length _ _ _ Hpage) as Hlen.
  destruct (processThreads_congr runStart _ _ (S (tick st)) (runMap st) Hpage)
    as (rest & rest' & rm' & t' & -> & -> & Hrest).
  rewrite <- Hlen, <- Hrest.
  assert (isEmpty (search env' (cursor st) CONFIG.PAGE_SIZE_THREADS)
          = isEmpty (search env (cursor st) CONFIG.PAGE_SIZE_THREADS)) as ->.
  { destruct Hpage; reflexivity. }
  destruct (isEmpty (search env (cursor st) CONFIG.PAGE_SIZE_THREADS)); [done|].
  by rewrite !IH.
Qed.

Lemma buildSenderReportBatch_congr w :
  buildSenderReportBatch env' w = buildSenderReportBatch env w.
Proof.
  unfold buildSenderReportBatch. rewrite Hnow.
  destruct (readCount _ KEYS.CURSOR) as [cursor0|]; [|done].
  assert (forall c, isEmpty (search env' c 1) = isEmpty (search env c 1)) as Hprobe.
  { intros c. by destruct (search_congr c 1). }
  rewrite Hprobe. destruct (isEmpty (search env cursor0 1)); [done|].
  rewrite mainLoop_congr, <- (Forall2_length _ _ _ Hthreads).
  destruct (mainLoop _ env _ _) as [st|]; [|done].
  unfold finish. by rewrite Hprobe.
Qed.
End Congruence.

(** C9. A record whose originator field matches neither the
    angle-bracket form nor the bare address pattern gets no key, and
    the scan goes on as if the record were not there: the run map is
    unchanged by it, and an invocation over a mailbox that holds the
    record ends with the same store, index, resumption state and
    outcome as over the mailbox without it. *)
Theorem record_without_address_is_skipped (m : Msg)
    (Hangle : Regex.search Regex.angleRe (getFrom m) = None)
    (Hbare : Regex.search Regex.bareRe (getFrom m) = None) :
  parseFrom (getFrom m) = ("", None)
  /\ keyOf m = None
  /\ (forall runMap, processMessage m runMap = runMap)
  /\ (forall before after runMap,
        processMessages (before ++ m :: after) runMap
        = processMessages (before ++ after) runMap)
  /\ (forall ts1 before after ts2 clock w,
        buildSenderReportBatch
          {| threads := ts1 ++ (before ++ m :: after) :: ts2; now := clock |} w
        = buildSenderReportBatch
            {| threads := ts1 ++ (before ++ after) :: ts2; now := clock |} w).
Proof.
  assert (parseFrom (getFrom m) = ("", None)) as Hp.
  { unfold parseFrom. by rewrite Hangle, Hbare. }
  assert (keyOf m = None) as Hk.
  { unfold keyOf. rewrite Hp. simpl. by destruct (isInInbox m). }
  split; [done|]. split; [done|]. split; [|split].
  - intros rm. by apply processMessage_skipped.
  - intros before after rm.
    pose proof (sameEffect_drop_skipped before m after Hk rm) as H.
    by rewrite !thread_effect in H.
  - intros ts1 before after ts2 clock w.
    apply buildSenderReportBatch_congr; [done|]. simpl.
    apply Forall2_app; [|constructor].
    + apply Forall_Forall2_diag, Forall_forall. intros t _. apply sameEffect_refl.
    + intros rm. symmetry. apply (sameEffect_drop_skipped before m after Hk rm).
    + apply Forall_Forall2_diag, Forall_forall. intros t _. apply sameEffect_refl.
Qed.

Lemma record_without_address_is_skipped_witness :
  (Regex.search Regex.angleRe (getFrom (mail "undisclosed recipients" "x" "2024")) = None
   /\ Regex.search Regex.bareRe (getFrom (mail "undisclosed recipients" "x" "2024")) = None)
  /\ processMessages [fromAnn; mail "undisclosed recipients" "x" "2024"; fromBob] []
     = processMessages [fromAnn; fromBob] [].
Proof.
  assert (Ha : Regex.search Regex.angleRe
                 (getFrom (mail "undisclosed recipients" "x" "2024")) = None)
    by (vm_compute; reflexivity).
  assert (Hb : Regex.search Regex.bareRe
                 (getFrom (mail "undisclosed recipients" "x" "2024")) = None)
    by (vm_compute; reflexivity).
  split; [by split|].
  destruct (record_without_address_is_skipped _ Ha Hb) as (_ & _ & _ & H & _).
  exact (H [fromAnn] [fromBob] []).
Defined.

(** ** Totals of the Count column *)

Lemma sumZ_app l1 l2 : sumZ (l1 ++ l2) = (sumZ l1 + sumZ l2)%Z.
Proof. induction l1 as [|x l1 IH]; simpl; lia. Qed.

Lemma sumZ_perm l1 l2 : Permutation l1 l2 -> sumZ l1 = sumZ l2.
Proof. induction 1; simpl; lia. Qed.

Lemma totalEmails_app s1 s2 : totalEmails (s1 ++ s2) = (totalEmails s1 + totalEmails s2)%Z.
Proof. unfold totalEmails. by rewrite map_app, sumZ_app. Qed.

Lemma totalEmails_sort sheet : totalEmails (sortByCountDesc sheet) = totalEmails sheet.
Proof. apply sumZ_perm, Permutation_map, sortByCountDesc_perm. Qed.

Lemma totalEmails_blank k : totalEmails (repeat Row.blank k) = 0%Z.
Proof. induction k as [|k IH]; [done|]. unfold totalEmails in *. simpl. lia. Qed.

Lemma totalEmails_insert (sheet : Sheet) i r v :
  sheet !! i = Some r ->
  totalEmails (<[i := v]> sheet) = (totalEmails sheet - Row.count r + Row.count v)%Z.
Proof.
  revert i. induction sheet as [|x sheet IH]; intros i; [done|].
  destruct i as [|i]; simpl.
  - intros [= ->]. unfold totalEmails. simpl. lia.
  - intros H. unfold totalEmails in *. simpl. rewrite (IH _ H). lia.
Qed.

(** An update of a row below the header adds the bucket's count to the
    total, wherever the row is. *)
Lemma totalEmails_applyUpdate sheet row B :
  (2 <= row)%nat ->
  totalEmails (applyUpdate sheet (row, B)) = (totalEmails sheet + Bucket.count B)%Z.
Proof.
  intros Hrow. unfold applyUpdate.
  destruct (row <? 2)%nat eqn:E; [apply Nat.ltb_lt in E; lia|].
  unfold setRow, getRow. destruct (row - 2 <? length sheet)%nat eqn:E2.
  - apply Nat.ltb_lt in E2.
    destruct (lookup_lt_is_Some_2 sheet (row - 2)%nat E2) as [r Hr].
    rewrite (nth_lookup_Some _ _ _ _ Hr), (totalEmails_insert _ _ _ _ Hr).
    simpl. lia.
  - apply Nat.ltb_ge in E2. rewrite nth_overflow by lia.
    rewrite !totalEmails_app, totalEmails_blank. unfold totalEmails. simpl. lia.
Qed.

Lemma totalEmails_fold_applyUpdate (us : list (nat * Bucket.t)) sheet :
  Forall (fun u => (2 <= u.1)%nat) us ->
  totalEmails (fold_left applyUpdate us sheet)
  = (totalEmails sheet + sumZ (map (fun u => Bucket.count u.2) us))%Z.
Proof.
  intros H. revert sheet.
  induction H as [|[row B] us Hu H IH]; intros sheet; cbn [fold_left map sumZ].
  - lia.
  - rewrite IH, totalEmails_applyUpdate by done. simpl. lia.
Qed.

Lemma mergeWrites_partition (indexMap : gmap string nat) (runMap : RunMap) :
  (sumZ (map (fun kb => Row.count (buildRowFromBucket kb.2))
          (filter (fun kb : string * Bucket.t => indexMap !! kb.1 = None) runMap))
   + sumZ (map (fun u : nat * Bucket.t => Bucket.count u.2)
             (omap (fun kb : string * Bucket.t =>
                      match indexMap !! kb.1 with
                      | Some row => Some (row, kb.2)
                      | None => None
                      end) runMap)))%Z
  = pendingEmails runMap.
Proof.
  induction runMap as [|[k b] rm IH]; [done|].
  rewrite filter_cons. unfold pendingEmails in *. cbn [omap list_omap map sumZ fst snd].
  destruct (indexMap !! k) as [row|] eqn:E.
  - rewrite decide_False by (simpl; rewrite ?E; done). simpl in *. lia.
  - rewrite decide_True by (simpl; rewrite ?E; done). simpl in *. lia.
Qed.

Lemma totalEmails_mergeWrites sheet indexSheet runMap :
  totalEmails (mergeWrites sheet indexSheet runMap).1
  = (totalEmails sheet + pendingEmails runMap)%Z.
Proof.
  unfold mergeWrites. cbv zeta. cbn [fst].
  rewrite totalEmails_fold_applyUpdate.
  - rewrite totalEmails_app. unfold totalEmails at 2. rewrite map_map.
    rewrite <- (mergeWrites_partition (readIndex indexSheet) runMap). lia.
  - apply Forall_forall. intros [row B] Hin. simpl.
    apply list_elem_of_omap in Hin as ([k b] & _ & Hkb).
    simpl in Hkb. destruct (readIndex indexSheet !! k) as [row'|] eqn:E; [|done].
    injection Hkb as <- <-. by apply readIndex_row_ge_2 in E.
Qed.

(** A merge adds to the store exactly the counts of the run map. *)
Lemma totalEmails_merge sheet indexSheet runMap :
  totalEmails (mergeRunMapUsingIndex sheet indexSheet runMap).1
  = (totalEmails sheet + pendingEmails runMap)%Z.
Proof.
  unfold mergeRunMapUsingIndex. destruct runMap as [|kb rm].
  - unfold pendingEmails. simpl. lia.
  - pose proof (totalEmails_mergeWrites sheet indexSheet (kb :: rm)) as H.
    destruct (mergeWrites sheet indexSheet (kb :: rm)) as [sheet' index'].
    cbn [fst] in *. by rewrite totalEmails_sort.
Qed.

Lemma totalEmails_checkpoint w runMap c t :
  totalEmails (sheet (checkpoint w runMap c t))
  = (totalEmails (sheet w) + pendingEmails runMap)%Z.
Proof.
  unfold checkpoint.
  pose proof (totalEmails_merge (sheet w) (indexSheet w) runMap) as H.
  by destruct (mergeRunMapUsingIndex (sheet w) (indexSheet w) runMap).
Qed.

(** ** Counts held by the run map *)

Lemma pendingEmails_rmSet key b rm :
  pendingEmails (rmSet key b rm)
  = (pendingEmails rm + Bucket.count b
     - match rmGet key rm with Some b0 => Bucket.count b0 | None => 0 end)%Z.
Proof.
  unfold pendingEmails. induction rm as [|[k v] rm IH]; simpl; [lia|].
  destruct (String.eqb k key); simpl; lia.
Qed.

Lemma pendingEmails_processMessage m rm :
  pendingEmails (processMessage m rm)
  = (pendingEmails rm + if counted m then 1 else 0)%Z.
Proof.
  unfold counted. destruct (keyOf m) as [key|] eqn:Hk.
  - rewrite (processMessage_counted _ _ _ Hk), pendingEmails_rmSet.
    unfold absorbMsg. rewrite absorb_count.
    destruct (rmGet key rm); simpl; lia.
  - rewrite processMessage_skipped by done. lia.
Qed.

Lemma countedIn_nil : countedIn [] = 0%Z.
Proof. reflexivity. Qed.

Lemma countedIn_app ts1 ts2 : countedIn (ts1 ++ ts2) = (countedIn ts1 + countedIn ts2)%Z.
Proof.
  unfold countedIn. rewrite concat_app, filter_app, length_app. lia.
Qed.

Lemma countedIn_cons t ts : countedIn (t :: ts) = (countedIn [t] + countedIn ts)%Z.
Proof. apply (countedIn_app [t] ts). Qed.

Lemma pendingEmails_processMessages ms rm :
  pendingEmails (processMessages ms rm) = (pendingEmails rm + countedIn [ms])%Z.
Proof.
  revert rm. unfold countedIn. simpl. rewrite app_nil_r.
  induction ms as [|m ms IH]; intros rm.
  - simpl. lia.
  - change (processMessages (m :: ms) rm)
      with (processMessages ms (processMessage m rm)).
    rewrite IH, pendingEmails_processMessage, filter_cons.
    destruct (counted m); [rewrite decide_True by done|rewrite decide_False by done];
      simpl length; lia.
Qed.

(** The [for] loop adds to the run map the counted messages of the
    threads it processes; the rest of the page is what it returns. *)
Lemma processThreads_accounts env runStart page t rm rm' t' rest :
  processThreads env runStart page t rm = (rm', t', rest) ->
  (pendingEmails rm' + countedIn rest = pendingEmails rm + countedIn page)%Z
  /\ (length rest <= length page)%nat.
Proof.
  revert t rm. induction page as [|msgs page IH]; intros t rm; simpl.
  - intros [= <- <- <-]. split; [lia|done].
  - destruct (overLimit env runStart t).
    + intros [= <- <- <-]. split; [lia|done].
    + intros H. apply IH in H as [H Hlen]. split; [|simpl; lia].
      rewrite thread_effect, pendingEmails_processMessages in H.
      rewrite (countedIn_cons msgs page). lia.
Qed.

Lemma processThreads_in_budget env runStart page t rm :
  (forall i, overLimit env runStart i = false) ->
  exists rm', processThreads env runStart page t rm = (rm', (t + length page)%nat, []).
Proof.
  intros Hb. revert t rm. induction page as [|msgs page IH]; intros t rm; simpl.
  - exists rm. by rewrite Nat.add_0_r.
  - rewrite Hb. destruct (IH (S t) (match msgs with [] => rm | _ => processMessages msgs rm end))
      as [rm' ->].
    exists rm'. do 2 f_equal. lia.
Qed.

(** ** The main loop *)

Lemma slice_split (ts : list Thread) lo hi k :
  (lo + length (take k (drop lo ts)) <= hi)%nat ->
  slice lo hi ts
  = take k (drop lo ts)
    ++ slice (lo + length (take k (drop lo ts))) hi ts.
Proof.
  intros Hle. unfold slice. set (page := take k (drop lo ts)) in *.
  replace (hi - lo)%nat with (length page + (hi - (lo + length page)))%nat by lia.
  rewrite <- take_take_drop, drop_drop. f_equal.
  subst page. rewrite <- (take_drop k (drop lo ts)) at 2.
  by rewrite take_app_length.
Qed.

Lemma checkpoint_initialized w rm c t :
  props (checkpoint w rm c t) !! KEYS.INITIALIZED = props w !! KEYS.INITIALIZED.
Proof.
  unfold checkpoint. destruct (mergeRunMapUsingIndex _ _ _). simpl.
  by rewrite !lookup_insert_ne.
Qed.

Lemma mainLoop_spec fuel env runStart st st' :
  mainLoop fuel env runStart st = Some st' ->
  (skipped st <= skipped st')%nat
  /\ props (world st') !! KEYS.INITIALIZED = props (world st) !! KEYS.INITIALIZED
  /\ (cursor st <= cursor st')%nat
  /\ (skipped st' = skipped st ->
      accounted st' = (accounted st + countedIn (slice (cursor st) (cursor st') (threads env)))%Z).
Proof.
  revert st st'. induction fuel as [|fuel IH]; intros st st' H; [done|].
  cbn [mainLoop] in H.
  assert (forall st0 : Loop,
    world st0 = world st -> cursor st0 = cursor st -> runMap st0 = runMap st ->
    skipped st0 = skipped st ->
    (skipped st <= skipped st0)%nat
    /\ props (world st0) !! KEYS.INITIALIZED = props (world st) !! KEYS.INITIALIZED
    /\ (cursor st <= cursor st0)%nat
    /\ (skipped st0 = skipped st ->
        accounted st0
        = (accounted st + countedIn (slice (cursor st) (cursor st0) (threads env)))%Z))
    as Hstop.
  { intros st0 Hw Hc Hr Hs. rewrite Hs, Hw, Hc. repeat split; try lia.
    intros _. unfold accounted, slice. rewrite Hw, Hr, Nat.sub_diag.
    change (countedIn _) with 0%Z. lia. }
  destruct (overLimit env runStart (tick st)).
  { injection H as <-. by apply Hstop. }
  destruct (isEmpty (search env (cursor st) CONFIG.PAGE_SIZE_THREADS)) eqn:Hpage.
  { injection H as <-. by apply Hstop. }
  unfold search in *.
  set (page := take CONFIG.PAGE_SIZE_THREADS (drop (cursor st) (threads env))) in *.
  destruct (processThreads env runStart page (S (tick st)) (runMap st))
    as [[rm' t'] rest] eqn:HP.
  apply processThreads_accounts in HP as [HP Hrest].
  assert (forall st1 : Loop,
    mainLoop fuel env runStart st1 = Some st' ->
    props (world st1) !! KEYS.INITIALIZED = props (world st) !! KEYS.INITIALIZED ->
    cursor st1 = (cursor st + length page)%nat ->
    skipped st1 = (skipped st + length rest)%nat ->
    accounted st1 = (totalEmails (sheet (world st)) + pendingEmails rm')%Z ->
    (skipped st <= skipped st')%nat
    /\ props (world st') !! KEYS.INITIALIZED = props (world st) !! KEYS.INITIALIZED
    /\ (cursor st <= cursor st')%nat
    /\ (skipped st' = skipped st ->
        accounted st'
        = (accounted st + countedIn (slice (cursor st) (cursor st') (threads env)))%Z))
    as Hgo.
  { intros st1 H1 Hi Hc Hs Ha. apply IH in H1 as (Hmono & Hinit & Hcur & Hacc).
    split; [lia|]. split; [by rewrite Hinit|]. split; [lia|].
    intros Hsk. assert (length rest = 0)%nat as Hr0 by lia.
    destruct rest; [|done]. rewrite countedIn_nil in HP.
    rewrite Hacc by lia. rewrite Ha, Hc.
    rewrite (slice_split (threads env) (cursor st) (cursor st') CONFIG.PAGE_SIZE_THREADS)
      by (fold page; lia).
    fold page. rewrite countedIn_app. unfold accounted. lia. }
  destruct (_ && negb (isEmpty rm')) in H.
  - apply (Hgo _ H); cbn [world cursor skipped]; try done.
    + apply checkpoint_initialized.
    + unfold accounted. cbn [world runMap]. rewrite totalEmails_checkpoint.
      unfold pendingEmails at 2. simpl. lia.
  - by apply (Hgo _ H).
Qed.

(** The loop ends within the fuel that [buildSenderReportBatch] gives
    it. *)
Lemma mainLoop_total env runStart fuel st :
  (length (threads env) - cursor st < fuel)%nat ->
  is_Some (mainLoop fuel env runStart st).
Proof.
  revert st. induction fuel as [|fuel IH]; intros st Hf; [lia|].
  cbn [mainLoop].
  destruct (overLimit env runStart (tick st)); [done|].
  destruct (isEmpty (search env (cursor st) CONFIG.PAGE_SIZE_THREADS)) eqn:Hpage; [done|].
  assert (0 < length (search env (cursor st) CONFIG.PAGE_SIZE_THREADS))%nat as Hlen.
  { destruct (search env (cursor st) CONFIG.PAGE_SIZE_THREADS); [done|simpl; lia]. }
  assert (length (search env (cursor st) CONFIG.PAGE_SIZE_THREADS)
          <= length (threads env) - cursor st)%nat as Hle.
  { unfold search. rewrite length_take, length_drop. lia. }
  destruct (processThreads env runStart _ (S (tick st)) (runMap st)) as [[rm' t'] rest].
  destruct (_ && negb (isEmpty rm')); apply IH; cbn [cursor]; lia.
Qed.

Lemma buildSenderReportBatch_total env w : is_Some (buildSenderReportBatch env w).
Proof.
  unfold buildSenderReportBatch.
  destruct (readCount _ KEYS.CURSOR) as [c|]; [|done].
  destruct (isEmpty (search env c 1)); [done|].
  destruct (mainLoop_total env (now env 0) (S (length (threads env)))
              {| world := initialise w; cursor := c;
                 totalProcessed := readCount (props (initialise w)) KEYS.TOTAL_PROCESSED;
                 runMap := []; threadsSinceCheckpoint := 0;
                 lastCheckpointTime := now env 1; tick := 2; skipped := 0 |})
    as [st ->]; [cbn [cursor]; lia|done].
Qed.

(** ** The stored cursor *)

Lemma parseDigits_string_of_uint d acc :
  parseDigits acc (NilEmpty.string_of_uint d) = Nat.of_uint_acc d acc.
Proof.
  revert acc. induction d as [|d IH|d IH|d IH|d IH|d IH|d IH|d IH|d IH|d IH|d IH];
    intros acc; [reflexivity|..];
    cbn [NilEmpty.string_of_uint Nat.of_uint_acc];
    rewrite Nat.tail_mul_spec, <- IH;
    cbn [parseDigits];
    match goal with |- context [digitVal ?c] =>
      let v := eval vm_compute in (digitVal c) in change (digitVal c) with v
    end;
    cbv iota; f_equal; lia.
Qed.

Lemma to_uint_not_nil n : Nat.to_uint n <> Decimal.Nil.
Proof.
  intros E. assert (n = 0%nat) as ->.
  { rewrite <- (DecimalNat.Unsigned.of_to n), E. reflexivity. }
  discriminate E.
Qed.

(** The text stored for a cursor reads back as that cursor. *)
Lemma parseInt_numToString n : parseInt (numToString (Some n)) = Some n.
Proof.
  unfold numToString. pose proof (to_uint_not_nil n) as Hnil.
  pose proof (DecimalNat.Unsigned.of_to n) as Hof. unfold Nat.of_uint in Hof.
  pose proof (parseDigits_string_of_uint (Nat.to_uint n) 0) as Hp.
  rewrite Hof in Hp. clear Hof.
  destruct (Nat.to_uint n) as [|d|d|d|d|d|d|d|d|d|d]; [done|..];
    unfold parseInt; cbn [NilEmpty.string_of_uint Js.dropWhile] in *;
    (change (Js.isSpace _) with false); cbv iota;
    (change (Regex.isDigit _) with true); cbv iota; by rewrite Hp.
Qed.

Lemma readCount_stored (p : gmap string string) key n :
  p !! key = Some (numToString (Some n)) -> readCount p key = Some n.
Proof.
  intros H. unfold readCount. rewrite H. cbn [Js.orEmpty].
  pose proof (parseInt_numToString n) as Hn.
  unfold Js.or. destruct (numToString (Some n)) as [|a s] eqn:E.
  - discriminate Hn.
  - exact Hn.
Qed.

Lemma initialise_initialized w :
  Js.truthyO (props (initialise w) !! KEYS.INITIALIZED) = true.
Proof.
  unfold initialise. destruct (Js.truthyO (props w !! KEYS.INITIALIZED)) eqn:E; simpl.
  - done.
  - by rewrite lookup_insert_eq.
Qed.

Lemma initialise_idem w :
  Js.truthyO (props w !! KEYS.INITIALIZED) = true -> initialise w = w.
Proof. intros H. unfold initialise. by rewrite H. Qed.

Lemma initialise_sheet w : sheet (initialise w) = sheet w.
Proof. unfold initialise. by destruct (negb _). Qed.

(** An uninitialised state starts from cursor 0, whatever the sheets
    hold. *)
Lemma storedCursor_uninitialised w :
  Js.truthyO (props w !! KEYS.INITIALIZED) = false -> storedCursor w = Some 0%nat.
Proof.
  intros H. unfold storedCursor, initialise. rewrite H. simpl.
  unfold readCount. rewrite lookup_insert_ne, lookup_insert_ne, lookup_insert_eq by done.
  reflexivity.
Qed.

(** ** The end of an invocation *)

Lemma finish_spec st env w' o :
  finish st env = (w', o) ->
  o = Finished {| done := isEmpty (search env (cursor st) 1);
                  finalCursor := cursor st; finalTotal := totalProcessed st;
                  finalSkipped := skipped st |}
  /\ totalEmails (sheet w') = accounted st
  /\ (isEmpty (search env (cursor st) 1) = true ->
      props w' !! KEYS.CURSOR = None
      /\ props w' !! KEYS.TOTAL_PROCESSED = None
      /\ props w' !! KEYS.INITIALIZED = None)
  /\ (isEmpty (search env (cursor st) 1) = false ->
      props w' !! KEYS.CURSOR = Some (numToString (Some (cursor st)))
      /\ props w' !! KEYS.TOTAL_PROCESSED = Some (numToString (totalProcessed st))
      /\ props w' !! KEYS.INITIALIZED = props (world st) !! KEYS.INITIALIZED).
Proof.
  unfold finish.
  set (wf := if negb (isEmpty (runMap st))
             then checkpoint (world st) (runMap st) (cursor st) (totalProcessed st)
             else world st).
  assert (totalEmails (sheet wf) = accounted st) as Htot.
  { subst wf. unfold accounted. destruct (runMap st) as [|kb rm] eqn:E; cbn [isEmpty negb].
    - unfold pendingEmails. simpl. lia.
    - by rewrite totalEmails_checkpoint. }
  assert (props wf !! KEYS.INITIALIZED = props (world st) !! KEYS.INITIALIZED) as Hinit.
  { subst wf. destruct (negb _); [apply checkpoint_initialized|done]. }
  destruct (isEmpty (search env (cursor st) 1)); intros [= <- <-]; cbn [sheet props].
  - split; [done|]. split; [done|]. split; [|done]. intros _.
    split; [|split].
    + by rewrite lookup_delete_ne, lookup_delete_ne, lookup_delete_eq.
    + by rewrite lookup_delete_eq.
    + by rewrite lookup_delete_ne, lookup_delete_eq.
  - split; [done|]. split; [done|]. split; [done|]. intros _.
    split; [|split].
    + by rewrite lookup_insert_ne, lookup_insert_eq.
    + by rewrite lookup_insert_eq.
    + by rewrite !lookup_insert_ne.
Qed.

Lemma probe_empty env c : isEmpty (search env c 1) = true -> (length (threads env) <= c)%nat.
Proof.
  unfold search. intros H.
  destruct (drop c (threads env)) as [|t ts] eqn:E; [|done].
  apply (f_equal length) in E. rewrite length_drop in E. simpl in E. lia.
Qed.

(** C1, as the code has it.  In an invocation whose pages are all
    processed to their end, the messages merged into the store are
    exactly the counted messages of the threads between the cursor the
    invocation starts from and its final cursor.  An invocation that is
    not done stores that final cursor; one that is done clears the
    resumption state, so that the next one starts from 0; and an
    uninitialised state starts from 0 whatever the store holds. *)
Theorem cursor_accounts_for_merged_records
    (env : Env) (w w' : World) (r : Result) (c : nat)
    (Hstart : storedCursor w = Some c)
    (Hrun : buildSenderReportBatch env w = Some (w', Finished r))
    (Hwhole : finalSkipped r = 0%nat) :
  (c <= finalCursor r)%nat
  /\ totalEmails (sheet w')
     = (totalEmails (sheet w) + countedIn (slice c (finalCursor r) (threads env)))%Z
  /\ (done r = false -> storedCursor w' = Some (finalCursor r))
  /\ (done r = true ->
      storedCursor w' = Some 0%nat /\ (length (threads env) <= finalCursor r)%nat)
  /\ (Js.truthyO (props w !! KEYS.INITIALIZED) = false -> c = 0%nat).
Proof.
  unfold buildSenderReportBatch in Hrun. unfold storedCursor in Hstart.
  rewrite Hstart in Hrun.
  destruct (isEmpty (search env c 1)); [done|].
  destruct (mainLoop _ env _ _) as [st|] eqn:Hloop; [|done].
  apply mainLoop_spec in Hloop as (_ & Hinit & Hcur & Hacc).
  cbn [world cursor skipped] in *.
  injection Hrun as Hfin.
  apply finish_spec in Hfin as (Hr & Htot & Hdone & Hnot).
  injection Hr as ->. cbn [done finalCursor finalSkipped] in *.
  split; [done|]. split; [|split; [|split]].
  - rewrite Htot, Hacc by done. unfold accounted. cbn [world runMap].
    rewrite initialise_sheet. unfold pendingEmails. simpl. lia.
  - intros Hd. destruct (Hnot Hd) as (Hc & _ & Hi).
    unfold storedCursor. rewrite initialise_idem.
    + by apply readCount_stored.
    + rewrite Hi, Hinit. apply initialise_initialized.
  - intros Hd. destruct (Hdone Hd) as (_ & _ & Hi). split.
    + apply storedCursor_uninitialised. by rewrite Hi.
    + by apply probe_empty.
  - intros Hu. apply storedCursor_uninitialised in Hu.
    unfold storedCursor in Hu. congruence.
Qed.

Lemma cursor_accounts_for_merged_records_witness :
  exists w' r,
    storedCursor freshWorld = Some 0%nat
    /\ buildSenderReportBatch {| threads := mailbox51; now := steadyClock 5500 |} freshWorld
       = Some (w', Finished r)
    /\ finalSkipped r = 0%nat
    /\ done r = false
    /\ storedCursor w' = Some 50%nat
    /\ totalEmails (sheet w') = 51%Z.
Proof.
  destruct (buildSenderReportBatch {| threads := mailbox51; now := steadyClock 5500 |}
              freshWorld) as [[w' o]|] eqn:Hrun; [|vm_compute in Hrun; discriminate].
  destruct o as [| |r]; try (vm_compute in Hrun; discriminate).
  exists w', r.
  assert (H0 : storedCursor freshWorld = Some 0%nat) by reflexivity.
  assert (Hr : r = {| done := false; finalCursor := 50; finalTotal := Some 50%nat;
                      finalSkipped := 0 |}).
  { vm_compute in Hrun. by injection Hrun as _ <-. }
  assert (Hs : finalSkipped r = 0%nat) by (by rewrite Hr).
  assert (Hd : done r = false) by (by rewrite Hr).
  destruct (cursor_accounts_for_merged_records _ _ _ _ _ H0 Hrun Hs)
    as (_ & Htot & Hnot & _).
  split; [exact H0|]. split; [reflexivity|]. split; [exact Hs|]. split; [exact Hd|].
  split.
  - rewrite (Hnot Hd). by rewrite Hr.
  - rewrite Htot, Hr. vm_compute. reflexivity.
Defined.

(** C1, as the specification has it, fails.  A scan of a mailbox with
    one message ends done and clears the resumption state: the next
    invocation starts from cursor 0 although the store holds that
    message, scans the mailbox again and counts the message twice. *)
Lemma cursor_invariant_fails_after_complete_scan :
  let env := {| threads := [[fromAnn]]; now := steadyClock 1 |} in
  CursorReflectsStore env freshWorld
  /\ exists w' r,
      buildSenderReportBatch env freshWorld = Some (w', Finished r)
      /\ done r = true
      /\ ~ CursorReflectsStore env w'
      /\ exists w'' r',
          buildSenderReportBatch env w' = Some (w'', Finished r')
          /\ countedIn (threads env) = 1%Z
          /\ totalEmails (sheet w'') = 2%Z.
Proof.
  cbv zeta. split.
  - exists 0%nat. split; reflexivity.
  - eexists _, _. split; [vm_compute; reflexivity|]. split; [reflexivity|]. split.
    + intros (c & Hc & Ht). vm_compute in Hc. injection Hc as <-.
      vm_compute in Ht. discriminate.
    + eexists _, _. split; [vm_compute; reflexivity|]. split; reflexivity.
Qed.

(** The other way in which the stored cursor gets ahead of the store:
    when the hard limit stops the [for] loop inside a page, the cursor
    still advances by the whole page.  Here the limit falls after the
    first of the 50 threads of the first page; the invocation stores
    cursor 50 with one message in the store, where the first 50 threads
    hold 51 counted messages, and the next invocation starts behind the
    49 threads that were never read. *)
Lemma cursor_passes_threads_cut_by_time_limit :
  let env := {| threads := mailbox51; now := clockCutsFirstPage |} in
  exists w' r,
    buildSenderReportBatch env freshWorld = Some (w', Finished r)
    /\ done r = false
    /\ finalSkipped r = 49%nat
    /\ storedCursor w' = Some 50%nat
    /\ totalEmails (sheet w') = 1%Z
    /\ countedIn (take 50 (threads env)) = 51%Z
    /\ ~ CursorReflectsStore env w'.
Proof.
  cbv zeta. eexists _, _. split; [vm_compute; reflexivity|].
  repeat split.
  intros (c & Hc & Ht). vm_compute in Hc. injection Hc as <-.
  vm_compute in Ht. discriminate.
Qed.

(** ** Exhaustion *)

(** Within the time budget the loop reads every page up to the end of
    the mailbox. *)
Lemma mainLoop_in_budget env runStart fuel st :
  (forall i, overLimit env runStart i = false) ->
  (length (threads env) - cursor st < fuel)%nat ->
  exists st',
    mainLoop fuel env runStart st = Some st'
    /\ cursor st' = (cursor st + (length (threads env) - cursor st))%nat
    /\ totalProcessed st'
       = (fun n => n + (length (threads env) - cursor st))%nat <$> totalProcessed st
    /\ skipped st' = skipped st.
Proof.
  intros Hb. revert st. induction fuel as [|fuel IH]; intros st Hf; [lia|].
  cbn [mainLoop]. rewrite Hb.
  assert (length (search env (cursor st) CONFIG.PAGE_SIZE_THREADS)
          <= length (threads env) - cursor st)%nat as Hle.
  { unfold search. rewrite length_take, length_drop. lia. }
  destruct (isEmpty (search env (cursor st) CONFIG.PAGE_SIZE_THREADS)) eqn:Hpage.
  - eexists. split; [reflexivity|]. cbn [cursor totalProcessed skipped].
    assert (length (threads env) - cursor st = 0)%nat as ->.
    { unfold search in Hpage.
      destruct (drop (cursor st) (threads env)) as [|t ts] eqn:E; [|done].
      apply (f_equal length) in E. rewrite length_drop in E. simpl in E. lia. }
    split; [lia|]. split; [|done].
    destruct (totalProcessed st); simpl; [f_equal; lia|done].
  - assert (0 < length (search env (cursor st) CONFIG.PAGE_SIZE_THREADS))%nat as Hlen.
    { destruct (search env (cursor st) CONFIG.PAGE_SIZE_THREADS); [done|simpl; lia]. }
    destruct (processThreads_in_budget env runStart
                (search env (cursor st) CONFIG.PAGE_SIZE_THREADS)
                (S (tick st)) (runMap st) Hb) as [rm' ->].
    set (n := length (search env (cursor st) CONFIG.PAGE_SIZE_THREADS)) in *.
    destruct (_ && negb (isEmpty rm'));
      match goal with |- context [mainLoop fuel env runStart ?s] =>
        destruct (IH s) as (st' & -> & Hc & Ht & Hs); [cbn [cursor]; lia|]
      end;
      cbn [cursor totalProcessed skipped] in *;
      (exists st'; split; [done|]; split; [lia|]; split; [|simpl in Hs; lia]);
      rewrite Ht; destruct (totalProcessed st); simpl; try done; f_equal; lia.
Qed.

(** C8.  Over a mailbox of 150 threads, an invocation that starts from
    an uninitialised state and stays within its time budget ends with
    [done] true and 150 threads processed, and leaves none of the three
    resumption values.  In every invocation [done] is the emptiness of
    the page probed at the final cursor; when done the three values are
    removed, and when not done the final cursor and total are
    stored. *)
Theorem full_run_of_150_threads
    (env : Env) (w : World)
    (Hlen : length (threads env) = 150%nat)
    (Hbudget : forall i, (now env i - now env 0 <= CONFIG.RUNTIME_HARD_LIMIT_MS)%Z)
    (Hfresh : Js.truthyO (props w !! KEYS.INITIALIZED) = false) :
  (exists w',
      buildSenderReportBatch env w
      = Some (w', Finished {| done := true; finalCursor := 150;
                              finalTotal := Some 150%nat; finalSkipped := 0 |})
      /\ props w' !! KEYS.CURSOR = None
      /\ props w' !! KEYS.TOTAL_PROCESSED = None
      /\ props w' !! KEYS.INITIALIZED = None)
  /\ (forall env0 w0 w1 r,
        buildSenderReportBatch env0 w0 = Some (w1, Finished r) ->
        done r = isEmpty (search env0 (finalCursor r) 1)
        /\ (done r = true ->
            props w1 !! KEYS.CURSOR = None
            /\ props w1 !! KEYS.TOTAL_PROCESSED = None
            /\ props w1 !! KEYS.INITIALIZED = None)
        /\ (done r = false ->
            props w1 !! KEYS.CURSOR = Some (numToString (Some (finalCursor r)))
            /\ props w1 !! KEYS.TOTAL_PROCESSED = Some (numToString (finalTotal r)))).
Proof.
  split.
  - assert (forall i, overLimit env (now env 0) i = false) as Hb.
    { intros i. unfold overLimit. apply Z.ltb_ge, Hbudget. }
    unfold buildSenderReportBatch.
    pose proof (storedCursor_uninitialised w Hfresh) as Hc. unfold storedCursor in Hc.
    rewrite Hc.
    assert (readCount (props (initialise w)) KEYS.TOTAL_PROCESSED = Some 0%nat) as ->.
    { unfold initialise. rewrite Hfresh. simpl. unfold readCount.
      rewrite lookup_insert_ne, lookup_insert_eq by done. reflexivity. }
    assert (isEmpty (search env 0 1) = false) as ->.
    { unfold search. destruct (threads env); [done|reflexivity]. }
    destruct (mainLoop_in_budget env (now env 0) (S (length (threads env)))
                {| world := initialise w; cursor := 0; totalProcessed := Some 0%nat;
                   runMap := []; threadsSinceCheckpoint := 0;
                   lastCheckpointTime := now env 1; tick := 2; skipped := 0 |} Hb)
      as (st & -> & Hcur & Htot & Hsk); [cbn [cursor]; lia|].
    cbn [cursor totalProcessed skipped] in *. rewrite Hlen in *. simpl in Hcur, Htot.
    destruct (finish st env) as [w' o] eqn:Hfin.
    apply finish_spec in Hfin as (-> & _ & Hdone & _).
    assert (isEmpty (search env (cursor st) 1) = true) as Hprobe.
    { unfold search. rewrite drop_ge by lia. reflexivity. }
    rewrite Hprobe in *. exists w'. rewrite Hcur, Htot, Hsk. split; [done|].
    by apply Hdone.
  - intros env0 w0 w1 r Hrun. unfold buildSenderReportBatch in Hrun.
    destruct (readCount _ KEYS.CURSOR) as [c|]; [|done].
    destruct (isEmpty (search env0 c 1)); [done|].
    destruct (mainLoop _ env0 _ _) as [st|]; [|done].
    injection Hrun as Hfin.
    apply finish_spec in Hfin as (Hr & _ & Hdone & Hnot).
    injection Hr as ->. cbn [done finalCursor finalTotal].
    split; [done|]. split; [done|].
    intros Hd. destruct (Hnot Hd) as (? & ? & _). done.
Qed.

Lemma full_run_of_150_threads_witness :
  (length (threads {| threads := replicate 150 [fromCat]; now := fun _ => 0%Z |})
   = 150%nat
   /\ (forall i : nat,
         (now {| threads := replicate 150 [fromCat]; now := fun _ => 0%Z |} i
          - now {| threads := replicate 150 [fromCat]; now := fun _ => 0%Z |} 0
          <= CONFIG.RUNTIME_HARD_LIMIT_MS)%Z)
   /\ Js.truthyO (props freshWorld !! KEYS.INITIALIZED) = false)
  /\ exists w',
      buildSenderReportBatch
        {| threads := replicate 150 [fromCat]; now := fun _ => 0%Z |} freshWorld
      = Some (w', Finished {| done := true; finalCursor := 150;
                              finalTotal := Some 150%nat; finalSkipped := 0 |}).
Proof.
  assert (Hb : forall i : nat,
             (now {| threads := replicate 150 [fromCat]; now := fun _ => 0%Z |} i
              - now {| threads := replicate 150 [fromCat]; now := fun _ => 0%Z |} 0
              <= CONFIG.RUNTIME_HARD_LIMIT_MS)%Z).
  { intros i. simpl. unfold CONFIG.RUNTIME_HARD_LIMIT_MS. lia. }
  split; [split; [reflexivity|split; [exact Hb|reflexivity]]|].
  destruct (full_run_of_150_threads
              {| threads := replicate 150 [fromCat]; now := fun _ => 0%Z |}
              freshWorld eq_refl Hb eq_refl) as [(w' & Hrun & _) _].
  exists w'. exact Hrun.
Defined.

(** ** Order of the writes of a checkpoint *)

Lemma checkpoint_boundaries w runMap c t :
  Durability.boundaries (Durability.checkpointInstrs runMap c t) (Durability.settled w)
  = let merged := mergeRunMapUsingIndex (sheet w) (indexSheet w) runMap in
    let p1 := <[KEYS.CURSOR := numToString (Some c)]> (props w) in
    let p2 := <[KEYS.TOTAL_PROCESSED := numToString t]> p1 in
    [ Durability.settled w;
      {| Durability.committed := (sheet w, indexSheet w);
         Durability.working := merged; Durability.hprops := props w |};
      {| Durability.committed := (sheet w, indexSheet w);
         Durability.working := merged; Durability.hprops := p1 |};
      {| Durability.committed := (sheet w, indexSheet w);
         Durability.working := merged; Durability.hprops := p2 |};
      {| Durability.committed := merged;
         Durability.working := merged; Durability.hprops := p2 |} ].
Proof. reflexivity. Qed.

(** Run to its end, the instruction sequence is [checkpoint]. *)
Lemma checkpoint_instrs_end w runMap c t :
  Durability.durable
    (fold_left (fun h i => Durability.exec i h)
       (Durability.checkpointInstrs runMap c t) (Durability.settled w))
  = checkpoint w runMap c t.
Proof.
  unfold checkpoint. simpl.
  by destruct (mergeRunMapUsingIndex (sheet w) (indexSheet w) runMap).
Qed.

(** C2 fails on the code.  [checkpoint] sets the cursor before it
    flushes the sheets.  In the first checkpoint of a scan that found
    one message of Ann on its first page, at the boundary after the
    second instruction the cursor is durably 50, while the committed
    store is still the empty one and the record of Ann is only
    pending: a process killed there resumes from 50 with an empty
    store. *)
Theorem checkpoint_cursor_written_before_flush :
  let runMap := processMessages [fromAnn] [] in
  let w := initialise freshWorld in
  exists h,
    nth_error
      (Durability.boundaries (Durability.checkpointInstrs runMap 50 (Some 50%nat))
         (Durability.settled w)) 2 = Some h
    /\ Durability.cursorAhead w runMap 50 h
    /\ storedCursor (Durability.durable h) = Some 50%nat
    /\ sheet (Durability.durable h) = []
    /\ map Row.email (Durability.working h).1 = ["ann@x.com"].
Proof.
  cbv zeta. eexists. split; [reflexivity|].
  split; [|split; [|split]]; [|vm_compute; reflexivity..].
  split; [vm_compute; reflexivity|]. vm_compute. discriminate.
Qed.

(** In the same host, the order that commits the sheets first never
    shows a cursor ahead of the store. *)
Lemma flush_first_is_safe w runMap c t h :
  props w !! KEYS.CURSOR <> Some (numToString (Some c)) ->
  h ∈ Durability.boundaries (Durability.flushFirstInstrs runMap c t) (Durability.settled w) ->
  ~ Durability.cursorAhead w runMap c h.
Proof.
  intros Hold Hh [Hcur Hne]. cbn in Hh.
  repeat (apply elem_of_cons in Hh as [->|Hh]); cbn in Hcur, Hne; try done.
  by inversion Hh.
Qed.

(** * Further properties of the code *)

(** ** Normal form of a parsed address *)

Lemma isSpace_lowerChar c : Js.isSpace (Js.lowerChar c) = Js.isSpace c.
Proof. destruct c as [[] [] [] [] [] [] [] []]; reflexivity. Qed.

Lemma dropWhile_isSpace_lower s :
  Js.dropWhile Js.isSpace (Js.toLowerCase s) = Js.toLowerCase (Js.dropWhile Js.isSpace s).
Proof.
  induction s as [|c s IH]; [done|]. cbn [Js.toLowerCase Js.dropWhile].
  rewrite isSpace_lowerChar. by destruct (Js.isSpace c).
Qed.

Lemma dropWhileEnd_isSpace_lower s :
  Js.dropWhileEnd Js.isSpace (Js.toLowerCase s)
  = Js.toLowerCase (Js.dropWhileEnd Js.isSpace s).
Proof.
  induction s as [|c s IH]; [done|]. cbn [Js.toLowerCase Js.dropWhileEnd].
  rewrite IH, isSpace_lowerChar.
  destruct (Js.dropWhileEnd Js.isSpace s); cbn [Js.toLowerCase];
    by destruct (Js.isSpace c).
Qed.

Lemma trim_toLowerCase s : Js.trim (Js.toLowerCase s) = Js.toLowerCase (Js.trim s).
Proof. unfold Js.trim. by rewrite dropWhile_isSpace_lower, dropWhileEnd_isSpace_lower. Qed.

Lemma dropWhileEnd_idem p s :
  Js.dropWhileEnd p (Js.dropWhileEnd p s) = Js.dropWhileEnd p s.
Proof.
  induction s as [|c s IH]; [done|]. cbn [Js.dropWhileEnd].
  destruct (Js.dropWhileEnd p s) as [|d r] eqn:E.
  - destruct (p c) eqn:Hc; [done|]. cbn [Js.dropWhileEnd]. by rewrite Hc.
  - cbn [Js.dropWhileEnd] in *. by rewrite IH.
Qed.

Lemma dropWhileEnd_head p c s :
  p c = false -> exists r, Js.dropWhileEnd p (String c s) = String c r.
Proof.
  intros Hc. cbn [Js.dropWhileEnd]. rewrite Hc.
  destruct (Js.dropWhileEnd p s); eauto.
Qed.

Lemma dropWhile_head p s :
  Js.dropWhile p s = "" \/ exists c r, Js.dropWhile p s = String c r /\ p c = false.
Proof.
  induction s as [|c s IH]; [by left|]. cbn [Js.dropWhile].
  destruct (p c) eqn:Hc; [done|]. right. eauto.
Qed.

(** [trim] leaves nothing to trim. *)
Lemma trim_idem s : Js.trim (Js.trim s) = Js.trim s.
Proof.
  unfold Js.trim.
  destruct (dropWhile_head Js.isSpace s) as [->|(c & r & -> & Hc)]; [done|].
  destruct (dropWhileEnd_head Js.isSpace c r Hc) as [r' Hr]. rewrite Hr.
  cbn [Js.dropWhile]. rewrite Hc, <- Hr. apply dropWhileEnd_idem.
Qed.

Lemma stripQuotes_name_cases (name : string) :
  (if Js.truthy (if Js.truthy name then stripQuotes name else name)
   then Some (if Js.truthy name then stripQuotes name else name) else None)
  <> Some "".
Proof. destruct (if Js.truthy name then stripQuotes name else name); done. Qed.

Lemma parseFrom_email_trim s : Js.trim (parseFrom s).1 = (parseFrom s).1.
Proof.
  unfold parseFrom.
  destruct (match Regex.search Regex.angleRe s with
            | Some (pre, segs, post) => _ | None => _ end) as [email name] eqn:E.
  cbn [fst].
  assert (Js.trim email = email) as Ht.
  { destruct (Regex.search Regex.angleRe s) as [[[pre segs] post]|].
    - injection E as <- _. apply trim_idem.
    - destruct (Regex.search Regex.bareRe s) as [[[pre segs] post]|].
      + injection E as <- _. apply trim_idem.
      + by injection E as <- _. }
  destruct (Js.truthy email); [|done].
  by rewrite trim_toLowerCase, Ht.
Qed.

(** X1. Whatever the originator text, the address that [parseFrom]
    returns is in lower case and has no white space at either end, so
    that folding or trimming it again changes nothing, and the name is
    either absent or a non-empty text. *)
Theorem parseFrom_normal_form (rawFrom : string) :
  Js.toLowerCase (parseFrom rawFrom).1 = (parseFrom rawFrom).1
  /\ Js.trim (parseFrom rawFrom).1 = (parseFrom rawFrom).1
  /\ (parseFrom rawFrom).2 <> Some "".
Proof.
  split; [apply parseFrom_email_lower|]. split; [apply parseFrom_email_trim|].
  unfold parseFrom.
  destruct (match Regex.search Regex.angleRe rawFrom with
            | Some (pre, segs, post) => _ | None => _ end) as [email name].
  cbn [snd]. apply stripQuotes_name_cases.
Qed.

(** ** The List-Unsubscribe header *)

Lemma isHttp_not_isMailto p : isHttp p = true -> isMailto p = false.
Proof.
  unfold isHttp, isMailto. destruct p as [|c p]; [done|].
  cbn [Js.startsWithCI]. intros H.
  destruct (Js.code (Js.lowerChar c) =? Js.code "m")%N eqn:Em; [|done].
  apply N.eqb_eq in Em. rewrite Em in H. done.
Qed.

Lemma isHttp_truthy p : isHttp p = true -> Js.truthy p = true.
Proof. by destruct p. Qed.

Lemma isMailto_truthy p : isMailto p = true -> Js.truthy p = true.
Proof. by destruct p. Qed.

Lemma unsubScan_first parts url mailto :
  unsubScan parts url mailto
  = (if Js.truthyO url then url
     else match head (filter (fun p => isHttp p = true) parts) with
          | Some p => Some p
          | None => url
          end,
     if Js.truthyO mailto then mailto
     else match head (filter (fun p => isMailto p = true) parts) with
          | Some p => Some p
          | None => mailto
          end).
Proof.
  revert url mailto. induction parts as [|p ps IH]; intros url mailto.
  - cbn. by destruct (Js.truthyO url), (Js.truthyO mailto).
  - cbn [unsubScan]. rewrite !filter_cons.
    destruct (isHttp p) eqn:Hh.
    + rewrite (isHttp_not_isMailto _ Hh), IH.
      rewrite decide_True by done. rewrite decide_False by done.
      destruct (Js.truthyO url) eqn:Hu; [by rewrite Hu|].
      cbn [Js.truthyO head]. by rewrite (isHttp_truthy _ Hh).
    + rewrite decide_False by done. destruct (isMailto p) eqn:Hm.
      * rewrite IH. rewrite decide_True by done.
        destruct (Js.truthyO mailto) eqn:Hmt; [by rewrite Hmt|].
        cbn [Js.truthyO head]. by rewrite (isMailto_truthy _ Hm).
      * rewrite decide_False by done. apply IH.
Qed.

(** X2. [parseListUnsubscribeHeader] returns nothing for an empty
    header and for a header without a web or mailto part.  Otherwise
    its URL is the first comma-separated part (trimmed, angle brackets
    removed) that starts with http:// or https://, and its mailto is
    the first part that starts with mailto:, in any letter case; a
    later part of the same kind never replaces an earlier one. *)
Theorem parseListUnsubscribeHeader_first_of_each (headerValue : string) :
  let parts := map unsubPart (Js.split ","%char headerValue) in
  let url := head (filter (fun p => isHttp p = true) parts) in
  let mailto := head (filter (fun p => isMailto p = true) parts) in
  parseListUnsubscribeHeader headerValue
  = match headerValue, url, mailto with
    | EmptyString, _, _ => None
    | _, None, None => None
    | _, _, _ => Some (url, mailto)
    end.
Proof.
  cbv zeta. unfold parseListUnsubscribeHeader.
  destruct headerValue as [|c h]; [done|]. cbn [Js.truthy negb].
  rewrite unsubScan_first. cbn [Js.truthyO].
  set (parts := map unsubPart (Js.split "," (String c h))).
  destruct (head (filter (fun p => isHttp p = true) parts)) as [u|] eqn:Hu.
  - assert (isHttp u = true) as Hh.
    { apply head_Some_elem_of in Hu. by apply list_elem_of_filter in Hu as [? _]. }
    cbn [Js.truthyO]. rewrite (isHttp_truthy _ Hh). cbn [orb].
    by destruct (head (filter (fun p => isMailto p = true) parts)).
  - destruct (head (filter (fun p => isMailto p = true) parts)) as [m|] eqn:Hm; [|done].
    assert (isMailto m = true) as Hh.
    { apply head_Some_elem_of in Hm. by apply list_elem_of_filter in Hm as [? _]. }
    cbn [Js.truthyO]. by rewrite (isMailto_truthy _ Hh).
Qed.

(** ** Counts of one cycle *)

Lemma rmGet_rmSet_other key k b rm : key <> k -> rmGet k (rmSet key b rm) = rmGet k rm.
Proof.
  intros Hne. induction rm as [|[k' v] rm IH]; simpl.
  - destruct (String.eqb_spec key k); [done|done].
  - destruct (String.eqb_spec k' key) as [->|Hk]; simpl.
    + destruct (String.eqb_spec key k); [done|done].
    + destruct (String.eqb_spec k' k); [done|apply IH].
Qed.

Lemma rmGet_None_keys key (rm : RunMap) : rmGet key rm = None <-> key ∉ map fst rm.
Proof.
  induction rm as [|[k v] rm IH]; simpl.
  - split; [intros _ H; by inversion H|done].
  - destruct (String.eqb_spec k key) as [->|Hk].
    + split; [done|]. intros H. exfalso. apply H. left.
    + rewrite IH. split.
      * intros H Hin. apply elem_of_cons in Hin as [->|Hin]; [done|by apply H].
      * intros H Hin. apply H. by right.
Qed.

Lemma keys_rmSet key b (rm : RunMap) :
  map fst (rmSet key b rm)
  = match rmGet key rm with
    | Some _ => map fst rm
    | None => map fst rm ++ [key]
    end.
Proof.
  induction rm as [|[k v] rm IH]; simpl; [done|].
  destruct (String.eqb_spec k key) as [->|Hk]; simpl; [done|].
  rewrite IH. by destruct (rmGet key rm).
Qed.

Lemma NoDup_keys_rmSet key b (rm : RunMap) :
  NoDup (map fst rm) -> NoDup (map fst (rmSet key b rm)).
Proof.
  intros H. rewrite keys_rmSet. destruct (rmGet key rm) eqn:E; [done|].
  apply NoDup_app. split; [done|]. split.
  - intros x Hx Hk. apply list_elem_of_singleton in Hk as ->.
    by apply rmGet_None_keys in E.
  - apply NoDup_singleton.
Qed.

Lemma bucketCount_processMessage key m rm :
  bucketCount key (processMessage m rm)
  = (bucketCount key rm + if decide (keyOf m = Some key) then 1 else 0)%Z.
Proof.
  unfold bucketCount. destruct (keyOf m) as [k|] eqn:Hk.
  - rewrite (processMessage_counted _ _ _ Hk).
    destruct (decide (Some k = Some key)) as [[= ->]|Hne].
    + rewrite rmGet_rmSet_same. unfold absorbMsg. rewrite absorb_count.
      by destruct (rmGet key rm).
    + rewrite rmGet_rmSet_other by congruence. lia.
  - rewrite processMessage_skipped by done. rewrite decide_False by done. lia.
Qed.

Lemma bucketCount_processMessages key ms rm :
  bucketCount key (processMessages ms rm)
  = (bucketCount key rm + occurrences key [ms])%Z.
Proof.
  revert rm. unfold occurrences. simpl. rewrite app_nil_r.
  induction ms as [|m ms IH]; intros rm.
  - simpl. lia.
  - change (processMessages (m :: ms) rm)
      with (processMessages ms (processMessage m rm)).
    rewrite IH, bucketCount_processMessage, filter_cons.
    destruct (decide (keyOf m = Some key)); simpl length; lia.
Qed.

Lemma NoDup_keys_processMessages ms rm :
  NoDup (map fst rm) -> NoDup (map fst (processMessages ms rm)).
Proof.
  revert rm. induction ms as [|m ms IH]; intros rm H; [done|].
  apply IH. destruct (keyOf m) as [k|] eqn:Hk.
  - rewrite (processMessage_counted _ _ _ Hk). by apply NoDup_keys_rmSet.
  - by rewrite processMessage_skipped.
Qed.

Lemma counts_positive_processMessages ms (rm : RunMap) :
  (forall k b, (k, b) ∈ rm -> (1 <= Bucket.count b)%Z) ->
  forall k b, (k, b) ∈ processMessages ms rm -> (1 <= Bucket.count b)%Z.
Proof.
  revert rm. induction ms as [|m ms IH]; intros rm H; [done|].
  apply IH. destruct (keyOf m) as [key|] eqn:Hk.
  - rewrite (processMessage_counted _ _ _ Hk). intros k b Hin.
    apply elem_rmSet in Hin as [[= -> ->]|Hin]; [|by eapply H].
    unfold absorbMsg. rewrite absorb_count.
    destruct (rmGet key rm) as [b0|] eqn:Hg; [|simpl; lia].
    apply rmGet_Some_elem in Hg. apply H in Hg. lia.
  - by rewrite processMessage_skipped.
Qed.

(** X3. Within one cycle the run map counts every sender exactly: for
    every key, the count of its bucket is the number of messages that
    the scan counts under that key, a key has a bucket exactly when it
    has such a message, and no key has two buckets. *)
Theorem processMessages_counts_each_key (msgs : list Msg) (key : string) :
  let runMap := processMessages msgs [] in
  bucketCount key runMap = occurrences key [msgs]
  /\ (is_Some (rmGet key runMap) <-> (0 < occurrences key [msgs])%Z)
  /\ NoDup (map fst runMap).
Proof.
  cbv zeta.
  pose proof (bucketCount_processMessages key msgs []) as Hc.
  change (bucketCount key []) with 0%Z in Hc. rewrite Z.add_0_l in Hc.
  split; [done|]. split; [|apply NoDup_keys_processMessages; constructor].
  rewrite <- Hc. unfold bucketCount.
  destruct (rmGet key (processMessages msgs [])) as [b|] eqn:Hg.
  - apply rmGet_Some_elem in Hg.
    apply counts_positive_processMessages in Hg; [|intros ? ? H; by inversion H].
    split; [lia|by eexists].
  - split; [by intros [? ?]|lia].
Qed.

(** ** What a merge keeps and adds *)

Lemma length_applyUpdate sheet u : (length sheet <= length (applyUpdate sheet u))%nat.
Proof.
  destruct u as [row B]. unfold applyUpdate. destruct (row <? 2)%nat; [done|].
  unfold setRow. destruct (row - 2 <? length sheet)%nat.
  - by rewrite length_insert.
  - rewrite length_app. lia.
Qed.

Lemma length_fold_applyUpdate us sheet :
  (length sheet <= length (fold_left applyUpdate us sheet))%nat.
Proof.
  revert sheet. induction us as [|u us IH]; intros sheet; simpl; [done|].
  etrans; [apply (length_applyUpdate sheet u)|apply IH].
Qed.

Lemma email_kept_applyUpdate sheet u i r :
  sheet !! i = Some r -> Js.truthy (Row.email r) = true ->
  exists r', applyUpdate sheet u !! i = Some r' /\ Row.email r' = Row.email r.
Proof.
  intros Hi Ht. destruct u as [row B]. unfold applyUpdate.
  destruct (row <? 2)%nat; [by exists r|].
  unfold setRow, getRow. destruct (row - 2 <? length sheet)%nat eqn:E.
  - apply Nat.ltb_lt in E. destruct (decide (i = row - 2)%nat) as [->|Hne].
    + rewrite list_lookup_insert_eq by done. eexists. split; [done|].
      rewrite (nth_lookup_Some _ _ _ _ Hi). simpl. unfold Js.or. by rewrite Ht.
    + rewrite list_lookup_insert_ne by done. by exists r.
  - exists r. split; [|done]. by apply lookup_app_l_Some.
Qed.

Lemma email_kept_fold_applyUpdate us sheet i r :
  sheet !! i = Some r -> Js.truthy (Row.email r) = true ->
  exists r', fold_left applyUpdate us sheet !! i = Some r' /\ Row.email r' = Row.email r.
Proof.
  revert sheet r. induction us as [|u us IH]; intros sheet r Hi Ht; simpl.
  - by exists r.
  - destruct (email_kept_applyUpdate sheet u i r Hi Ht) as (r1 & H1 & E1).
    destruct (IH _ _ H1) as (r2 & H2 & E2); [by rewrite E1|].
    exists r2. split; [done|congruence].
Qed.

Lemma email_kept_mergeWrites sheet indexSheet runMap i r :
  sheet !! i = Some r -> Js.truthy (Row.email r) = true ->
  exists r', (mergeWrites sheet indexSheet runMap).1 !! i = Some r'
             /\ Row.email r' = Row.email r.
Proof.
  intros Hi Ht. unfold mergeWrites. cbv zeta. cbn [fst].
  apply email_kept_fold_applyUpdate; [|done]. by apply lookup_app_l_Some.
Qed.

Lemma length_mergeWrites sheet indexSheet runMap :
  (length sheet <= length (mergeWrites sheet indexSheet runMap).1)%nat.
Proof.
  unfold mergeWrites. cbv zeta. cbn [fst].
  etrans; [|apply length_fold_applyUpdate]. rewrite length_app. lia.
Qed.

(** X4. Whatever the index holds, right or wrong, a merge adds to the
    total of the Count column exactly the counts of the run map, never
    removes a row, and only appends to the index, one entry per key
    that the index did not have. *)
Theorem merge_adds_counts_and_only_appends
    (sheet : Sheet) (indexSheet : IndexSheet) (runMap : RunMap) :
  let merged := mergeRunMapUsingIndex sheet indexSheet runMap in
  totalEmails merged.1 = (totalEmails sheet + pendingEmails runMap)%Z
  /\ (length sheet <= length merged.1)%nat
  /\ exists entries,
      merged.2 = indexSheet ++ entries
      /\ map fst entries
         = map fst (filter (fun kb : string * Bucket.t =>
                              readIndex indexSheet !! kb.1 = None) runMap).
Proof.
  cbv zeta. split; [apply totalEmails_merge|].
  unfold mergeRunMapUsingIndex. destruct runMap as [|kb rm].
  - split; [done|]. exists []. by rewrite app_nil_r.
  - pose proof (length_mergeWrites sheet indexSheet (kb :: rm)) as Hlen.
    assert (exists entries,
      (mergeWrites sheet indexSheet (kb :: rm)).2 = indexSheet ++ entries
      /\ map fst entries
         = map fst (filter (fun kb0 : string * Bucket.t =>
                              readIndex indexSheet !! kb0.1 = None) (kb :: rm)))
      as (entries & He & Hk).
    { unfold mergeWrites. cbv zeta. cbn [snd]. eexists. split; [reflexivity|].
      generalize (S (getLastRow sheet)).
      generalize (filter (fun kb0 : string * Bucket.t =>
                            readIndex indexSheet !! kb0.1 = None) (kb :: rm)).
      intros l. induction l as [|x l IH]; intros n; [done|].
      cbn [imap map fst]. f_equal.
      rewrite <- (IH (S n)). f_equal. apply imap_ext. intros j y _. simpl.
      f_equal. lia. }
    destruct (mergeWrites sheet indexSheet (kb :: rm)) as [sheet' index'].
    cbn [fst snd] in *. split.
    + by rewrite (Permutation_length (sortByCountDesc_perm sheet')).
    + by exists entries.
Qed.

Lemma emails_prefix_mergeWrites sheet indexSheet runMap :
  Forall (fun r => Js.truthy (Row.email r) = true) sheet ->
  map Row.email (take (length sheet) (mergeWrites sheet indexSheet runMap).1)
  = map Row.email sheet.
Proof.
  intros Hall. apply list_eq. intros i.
  change (map Row.email) with (fmap (M:=list) Row.email).
  rewrite !list_lookup_fmap.
  destruct (sheet !! i) as [r|] eqn:Hi.
  - assert (Js.truthy (Row.email r) = true) as Ht.
    { rewrite Forall_forall in Hall. apply Hall. by eapply list_elem_of_lookup_2. }
    destruct (email_kept_mergeWrites sheet indexSheet runMap i r Hi Ht) as (r' & H' & E).
    rewrite lookup_take_lt by (by eapply lookup_lt_Some).
    rewrite H'. simpl. by rewrite E.
  - apply lookup_ge_None in Hi. rewrite lookup_take_ge by done. done.
Qed.

(** X5. A merge never changes or drops the address of a record:
    when every row of the store has an address, the addresses after the
    merge are those before it, each as often as before, plus the
    addresses of the rows that the merge added. *)
Theorem merge_keeps_addresses
    (sheet : Sheet) (indexSheet : IndexSheet) (runMap : RunMap)
    (Hemails : Forall (fun r => Js.truthy (Row.email r) = true) sheet) :
  exists added,
    Permutation
      (map Row.email (mergeRunMapUsingIndex sheet indexSheet runMap).1)
      (map Row.email sheet ++ added).
Proof.
  unfold mergeRunMapUsingIndex. destruct runMap as [|kb rm].
  - exists []. by rewrite app_nil_r.
  - pose proof (emails_prefix_mergeWrites sheet indexSheet (kb :: rm) Hemails) as Hpre.
    destruct (mergeWrites sheet indexSheet (kb :: rm)) as [sheet' index'].
    cbn [fst] in *. exists (map Row.email (drop (length sheet) sheet')).
    rewrite <- Hpre, <- map_app, take_drop.
    apply Permutation_map, sortByCountDesc_perm.
Qed.

Lemma merge_keeps_addresses_witness :
  Forall (fun r => Js.truthy (Row.email r) = true)
    [buildRowFromBucket (newBucket "cat@z.net" None)]
  /\ exists added,
      Permutation
        (map Row.email
           (mergeRunMapUsingIndex
              [buildRowFromBucket (newBucket "cat@z.net" None)]
              [("cat@z.net", 2%nat)]
              (processMessages [fromAnn; fromCat] [])).1)
        (["cat@z.net"] ++ added).
Proof.
  assert (H : Forall (fun r => Js.truthy (Row.email r) = true)
                [buildRowFromBucket (newBucket "cat@z.net" None)])
    by (by repeat constructor).
  split; [exact H|].
  exact (merge_keeps_addresses _ [("cat@z.net", 2%nat)]
           (processMessages [fromAnn; fromCat] []) H).
Defined.

(** ** The first merge into an empty store *)

Lemma mergeWrites_empty_index sheet (runMap : RunMap) :
  (mergeWrites sheet [] runMap).1 = sheet ++ map (fun kb => buildRowFromBucket kb.2) runMap.
Proof.
  unfold mergeWrites. cbv zeta. cbn [fst].
  assert (forall k, readIndex [] !! k = None) as Hnone by (intros k; apply lookup_empty).
  revert Hnone. generalize (readIndex []). intros im Hnone.
  assert (filter (fun kb : string * Bucket.t => im !! kb.1 = None) runMap = runMap) as ->.
  { induction runMap as [|x l IH]; [done|].
    rewrite filter_cons, decide_True by apply Hnone. by rewrite IH. }
  assert (omap (fun kb : string * Bucket.t =>
                  match im !! kb.1 with
                  | Some row => Some (row, kb.2)
                  | None => None
                  end) runMap = []) as ->.
  { induction runMap as [|x l IH]; [done|]. cbn [omap list_omap].
    rewrite Hnone. apply IH. }
  reflexivity.
Qed.

Lemma storedCount_perm key s1 s2 :
  Permutation s1 s2 -> storedCount key s1 = storedCount key s2.
Proof.
  intros H. unfold storedCount. apply sumZ_perm, Permutation_map.
  by apply filter_Permutation.
Qed.

Lemma storedCount_new_rows key (rm : RunMap) :
  emailsAreKeys rm -> NoDup (map fst rm) ->
  storedCount key (map (fun kb => buildRowFromBucket kb.2) rm) = bucketCount key rm.
Proof.
  unfold storedCount, bucketCount.
  induction rm as [|[k b] rm IH]; intros Hkeys Hnd; [done|].
  cbn [map fst] in *. apply NoDup_cons in Hnd as [Hk Hnd].
  assert (emailsAreKeys rm) as Hkeys'.
  { intros k' b' H. apply Hkeys. by right. }
  destruct (Hkeys k b) as [He Hl]; [left|].
  rewrite filter_cons. cbn [rmGet snd].
  assert (Js.toLowerCase (Row.email (buildRowFromBucket b)) = k) as Hrow.
  { simpl. by rewrite He. }
  destruct (String.eqb_spec k key) as [->|Hne].
  - rewrite decide_True by done. cbn [map sumZ]. rewrite IH by done.
    apply rmGet_None_keys in Hk. rewrite Hk. simpl. lia.
  - rewrite decide_False by (by rewrite Hrow). by apply IH.
Qed.

Lemma processMessages_counts_each_key_aux (msgs : list Msg) (key : string) :
  bucketCount key (processMessages msgs []) = occurrences key [msgs]
  /\ NoDup (map fst (processMessages msgs []))
  /\ emailsAreKeys (processMessages msgs []).
Proof.
  pose proof (bucketCount_processMessages key msgs []) as Hc.
  change (bucketCount key []) with 0%Z in Hc. rewrite Z.add_0_l in Hc.
  split; [done|]. split; [apply NoDup_keys_processMessages; constructor|].
  apply processMessages_emailsAreKeys. intros k v H. by inversion H.
Qed.

Lemma storedCount_first_merge (msgs : list Msg) (key : string) :
  storedCount key (mergeRunMapUsingIndex [] [] (processMessages msgs [])).1
  = occurrences key [msgs].
Proof.
  destruct (processMessages_counts_each_key_aux msgs key) as (Hc & Hnd & Hkeys).
  unfold mergeRunMapUsingIndex.
  destruct (processMessages msgs []) as [|kb rm] eqn:E.
  - rewrite <- Hc. reflexivity.
  - pose proof (mergeWrites_empty_index [] (kb :: rm)) as Hw.
    destruct (mergeWrites [] [] (kb :: rm)) as [sheet' index']. cbn [fst] in *.
    rewrite (storedCount_perm key _ _ (sortByCountDesc_perm sheet')), Hw.
    rewrite app_nil_l, storedCount_new_rows by done. exact Hc.
Qed.

(** X6. The first merge of a scan is exact: merging the run map of a
    list of messages into an empty store leaves, for every sender, a
    stored count equal to the number of its counted messages. *)
Theorem first_merge_counts_each_sender (msgs : list Msg) (key : string) :
  storedCount key (mergeRunMapUsingIndex [] [] (processMessages msgs [])).1
  = occurrences key [msgs].
Proof. apply storedCount_first_merge. Qed.

(** ** Progress of an invocation *)

Lemma length_page env c :
  length (search env c CONFIG.PAGE_SIZE_THREADS)
  = Nat.min CONFIG.PAGE_SIZE_THREADS (length (threads env) - c).
Proof. unfold search. by rewrite length_take, length_drop. Qed.

Lemma mainLoop_lockstep fuel env runStart st st' :
  mainLoop fuel env runStart st = Some st' ->
  (cursor st <= cursor st')%nat
  /\ (cursor st' <= Nat.max (cursor st) (length (threads env)))%nat
  /\ totalProcessed st'
     = (fun n => n + (cursor st' - cursor st))%nat <$> totalProcessed st.
Proof.
  revert st st'. induction fuel as [|fuel IH]; intros st st' H; [done|].
  cbn [mainLoop] in H.
  assert (forall st0 : Loop,
    cursor st0 = cursor st -> totalProcessed st0 = totalProcessed st ->
    (cursor st <= cursor st0)%nat
    /\ (cursor st0 <= Nat.max (cursor st) (length (threads env)))%nat
    /\ totalProcessed st0
       = (fun n => n + (cursor st0 - cursor st))%nat <$> totalProcessed st) as Hstop.
  { intros st0 -> ->. split; [lia|]. split; [lia|].
    destruct (totalProcessed st); simpl; [f_equal; lia|done]. }
  destruct (overLimit env runStart (tick st)).
  { injection H as <-. by apply Hstop. }
  destruct (isEmpty (search env (cursor st) CONFIG.PAGE_SIZE_THREADS)) eqn:Hpage.
  { injection H as <-. by apply Hstop. }
  pose proof (length_page env (cursor st)) as Hlen.
  destruct (processThreads env runStart _ (S (tick st)) (runMap st))
    as [[rm' t'] rest].
  set (n := length (search env (cursor st) CONFIG.PAGE_SIZE_THREADS)) in *.
  destruct (_ && negb (isEmpty rm')) in H;
    apply IH in H as (Hc & Hmax & Ht); cbn [cursor totalProcessed] in *;
    (split; [lia|]; split; [lia|]);
    rewrite Ht; destruct (totalProcessed st); simpl; try done; f_equal; lia.
Qed.

(** X7. Every invocation ends.  If it ends at the early return or on
    an unreadable cursor, the sheets are as before.  If it runs the
    scan, the final cursor lies between the stored cursor and the end
    of the mailbox, and the total of processed threads has grown by
    exactly the distance that the cursor has moved. *)
Theorem invocation_ends_and_advances_in_step (env : Env) (w : World) :
  exists w' o,
    buildSenderReportBatch env w = Some (w', o)
    /\ match o with
       | Finished r =>
           exists c0,
             storedCursor w = Some c0
             /\ (c0 <= finalCursor r <= length (threads env))%nat
             /\ finalTotal r
                = (fun n => n + (finalCursor r - c0))%nat
                    <$> readCount (props (initialise w)) KEYS.TOTAL_PROCESSED
       | NothingToScan =>
           sheet w' = sheet w /\ indexSheet w' = indexSheet w
           /\ exists c0, storedCursor w = Some c0 /\ (length (threads env) <= c0)%nat
       | Threw =>
           sheet w' = sheet w /\ indexSheet w' = indexSheet w
           /\ storedCursor w = None
       end.
Proof.
  destruct (buildSenderReportBatch_total env w) as [[w' o] Hrun].
  exists w', o. split; [done|].
  unfold buildSenderReportBatch in Hrun. unfold storedCursor.
  assert (sheet (initialise w) = sheet w /\ indexSheet (initialise w) = indexSheet w)
    as [Hs Hi] by (unfold initialise; by destruct (negb _)).
  destruct (readCount (props (initialise w)) KEYS.CURSOR) as [c0|].
  2:{ injection Hrun as <- <-. done. }
  destruct (isEmpty (search env c0 1)) eqn:Hprobe.
  { injection Hrun as <- <-. split; [done|]. split; [done|].
    exists c0. split; [done|]. by apply probe_empty. }
  destruct (mainLoop _ env _ _) as [st|] eqn:Hloop; [|done].
  injection Hrun as Hfin. apply finish_spec in Hfin as (-> & _).
  apply mainLoop_lockstep in Hloop as (Hc & Hmax & Ht).
  cbn [cursor totalProcessed finalCursor finalTotal] in *.
  exists c0. split; [done|]. split; [|done].
  assert (c0 < length (threads env))%nat; [|lia].
  unfold search in Hprobe.
  destruct (decide (c0 < length (threads env))%nat); [done|].
  rewrite drop_ge in Hprobe by lia. done.
Qed.

(** X8. The resumption values written by a checkpoint read back as
    they were written: the next invocation starts from the cursor of
    the checkpoint and from its total (a total that is not a number
    stays so). *)
Theorem checkpoint_values_read_back
    (w : World) (runMap : RunMap) (c : nat) (t : option nat)
    (Hinit : Js.truthyO (props w !! KEYS.INITIALIZED) = true) :
  storedCursor (checkpoint w runMap c t) = Some c
  /\ readCount (props (initialise (checkpoint w runMap c t))) KEYS.TOTAL_PROCESSED = t.
Proof.
  assert (initialise (checkpoint w runMap c t) = checkpoint w runMap c t) as Hi.
  { apply initialise_idem. by rewrite checkpoint_initialized. }
  unfold storedCursor. rewrite Hi. unfold checkpoint.
  destruct (mergeRunMapUsingIndex _ _ _) as [s i]. cbn [props]. split.
  - apply readCount_stored. by rewrite lookup_insert_ne, lookup_insert_eq.
  - destruct t as [n|].
    + apply readCount_stored. by rewrite lookup_insert_eq.
    + unfold readCount. by rewrite lookup_insert_eq.
Qed.

Lemma checkpoint_values_read_back_witness :
  Js.truthyO (props (initialise freshWorld) !! KEYS.INITIALIZED) = true
  /\ storedCursor
       (checkpoint (initialise freshWorld) (processMessages [fromAnn] []) 50 (Some 50%nat))
     = Some 50%nat.
Proof.
  assert (H : Js.truthyO (props (initialise freshWorld) !! KEYS.INITIALIZED) = true)
    by reflexivity.
  split; [exact H|].
  exact (proj1 (checkpoint_values_read_back (initialise freshWorld)
                  (processMessages [fromAnn] []) 50 (Some 50%nat) H)).
Defined.

(** ** Scans within the budget *)

Lemma processThreads_in_budget_runMap env runStart page t rm :
  (forall i, overLimit env runStart i = false) ->
  processThreads env runStart page t rm
  = (processMessages (concat page) rm, (t + length page)%nat, []).
Proof.
  intros Hb. revert t rm. induction page as [|msgs page IH]; intros t rm; simpl.
  - by rewrite Nat.add_0_r.
  - rewrite Hb, IH, thread_effect, processMessages_app. do 2 f_equal. lia.
Qed.

Lemma drop_page (ts : list Thread) c k :
  drop c ts = take k (drop c ts) ++ drop (c + length (take k (drop c ts))) ts.
Proof.
  rewrite <- drop_drop. generalize (drop c ts). intros l.
  rewrite length_take. destruct (decide (k <= length l)%nat).
  - rewrite Nat.min_l by done. by rewrite take_drop.
  - rewrite Nat.min_r by lia. rewrite take_ge, drop_ge by lia. by rewrite app_nil_r.
Qed.

Lemma mainLoop_no_checkpoint fuel env runStart st st' :
  (forall i, overLimit env runStart i = false) ->
  (forall i, (now env i - lastCheckpointTime st < CONFIG.CHECKPOINT_INTERVAL_MS)%Z) ->
  (threadsSinceCheckpoint st + (length (threads env) - cursor st)
   < CONFIG.CHECKPOINT_THREADS)%nat ->
  mainLoop fuel env runStart st = Some st' ->
  world st' = world st
  /\ runMap st' = processMessages (concat (drop (cursor st) (threads env))) (runMap st).
Proof.
  intros Hb. revert st st'. induction fuel as [|fuel IH]; intros st st' Ht Hn H; [done|].
  cbn [mainLoop] in H. rewrite Hb in H.
  destruct (isEmpty (search env (cursor st) CONFIG.PAGE_SIZE_THREADS)) eqn:Hpage.
  { injection H as <-. cbn [world runMap]. split; [done|].
    unfold search in Hpage.
    destruct (drop (cursor st) (threads env)) as [|x l]; [done|done]. }
  rewrite processThreads_in_budget_runMap in H by done.
  pose proof (length_page env (cursor st)) as Hlen.
  assert ((CONFIG.CHECKPOINT_THREADS
           <=? threadsSinceCheckpoint st
               + length (search env (cursor st) CONFIG.PAGE_SIZE_THREADS))%nat = false)
    as Hth by (apply Nat.leb_gt; lia).
  assert ((CONFIG.CHECKPOINT_INTERVAL_MS
           <=? now env (S (tick st)
                        + length (search env (cursor st) CONFIG.PAGE_SIZE_THREADS))
               - lastCheckpointTime st)%Z = false)
    as Htm by (apply Z.leb_gt, Ht).
  rewrite Hth, Htm in H. cbn [orb andb] in H.
  apply IH in H as [Hw Hr]; cbn [world runMap cursor lastCheckpointTime
                                 threadsSinceCheckpoint] in *; [|done|lia].
  split; [done|]. rewrite Hr, <- processMessages_app, <- concat_app. do 2 f_equal.
  unfold search. symmetry. apply drop_page.
Qed.

Lemma occurrences_concat key (ts : list Thread) :
  occurrences key [concat ts] = occurrences key ts.
Proof. unfold occurrences. simpl. by rewrite app_nil_r. Qed.

Lemma finish_sheets st env :
  sheet (finish st env).1
  = (mergeRunMapUsingIndex (sheet (world st)) (indexSheet (world st)) (runMap st)).1.
Proof.
  unfold finish.
  assert (sheet (if negb (isEmpty (runMap st))
                 then checkpoint (world st) (runMap st) (cursor st) (totalProcessed st)
                 else world st)
          = (mergeRunMapUsingIndex (sheet (world st)) (indexSheet (world st))
               (runMap st)).1) as H.
  { destruct (runMap st) as [|kb rm] eqn:E; [done|]. cbn [isEmpty negb].
    unfold checkpoint. by destruct (mergeRunMapUsingIndex _ _ _). }
  by destruct (isEmpty (search env (cursor st) 1)).
Qed.

Lemma first_probe_nonempty env : threads env <> [] -> isEmpty (search env 0 1) = false.
Proof. unfold search. by destruct (threads env). Qed.

Lemma readCount_total_uninitialised w :
  Js.truthyO (props w !! KEYS.INITIALIZED) = false ->
  readCount (props (initialise w)) KEYS.TOTAL_PROCESSED = Some 0%nat.
Proof.
  intros H. unfold initialise. rewrite H. simpl. unfold readCount.
  rewrite lookup_insert_ne, lookup_insert_eq by done. reflexivity.
Qed.

Lemma scan_in_budget
    (env : Env) (w : World)
    (Hany : threads env <> [])
    (Hbudget : forall i, (now env i - now env 0 <= CONFIG.RUNTIME_HARD_LIMIT_MS)%Z)
    (Hfresh : Js.truthyO (props w !! KEYS.INITIALIZED) = false) :
  exists w' r,
    buildSenderReportBatch env w = Some (w', Finished r)
    /\ done r = true
    /\ finalCursor r = length (threads env)
    /\ finalTotal r = Some (length (threads env))
    /\ finalSkipped r = 0%nat
    /\ totalEmails (sheet w')
       = (totalEmails (sheet w) + countedIn (threads env))%Z
    /\ props w' !! KEYS.CURSOR = None
    /\ props w' !! KEYS.INITIALIZED = None.
Proof.
  assert (forall i, overLimit env (now env 0) i = false) as Hb.
  { intros i. unfold overLimit. apply Z.ltb_ge, Hbudget. }
  unfold buildSenderReportBatch.
  pose proof (storedCursor_uninitialised w Hfresh) as Hc. unfold storedCursor in Hc.
  rewrite Hc, (readCount_total_uninitialised w Hfresh), (first_probe_nonempty env Hany).
  destruct (mainLoop_in_budget env (now env 0) (S (length (threads env)))
              {| world := initialise w; cursor := 0; totalProcessed := Some 0%nat;
                 runMap := []; threadsSinceCheckpoint := 0;
                 lastCheckpointTime := now env 1; tick := 2; skipped := 0 |} Hb)
    as (st & Hloop & Hcur & Htot & Hsk); [cbn [cursor]; lia|].
  rewrite Hloop. apply mainLoop_spec in Hloop as (_ & _ & _ & Hacc).
  cbn [cursor totalProcessed skipped world] in *.
  rewrite Nat.sub_0_r in Hcur, Htot. simpl in Hcur, Htot.
  destruct (finish st env) as [w' o] eqn:Hfin.
  apply finish_spec in Hfin as (-> & Hsheet & Hdone & _).
  assert (isEmpty (search env (cursor st) 1) = true) as He.
  { unfold search. rewrite Hcur, drop_ge by lia. reflexivity. }
  destruct (Hdone He) as (Hpc & _ & Hpi).
  exists w'. eexists. split; [reflexivity|]. cbn [done finalCursor finalTotal finalSkipped].
  split; [exact He|]. split; [done|]. split; [done|]. split; [done|].
  split; [|done].
  rewrite Hsheet, Hacc by done. unfold accounted, slice. cbn [world runMap].
  rewrite initialise_sheet, Hcur, Nat.sub_0_r, drop_0, take_ge by lia.
  unfold pendingEmails. simpl. lia.
Qed.

(** X9. A scan that starts from an uninitialised state and stays
    within its time budget reads the whole mailbox in one invocation:
    it ends done at the end of the mailbox, skips no thread, and adds
    to the store exactly the counted messages of the mailbox, however
    many checkpoints it takes on the way and whatever the store held
    before. *)
Theorem scan_in_budget_stores_every_message
    (env : Env) (w : World)
    (Hany : threads env <> [])
    (Hbudget : forall i, (now env i - now env 0 <= CONFIG.RUNTIME_HARD_LIMIT_MS)%Z)
    (Hfresh : Js.truthyO (props w !! KEYS.INITIALIZED) = false) :
  exists w' r,
    buildSenderReportBatch env w = Some (w', Finished r)
    /\ done r = true
    /\ finalCursor r = length (threads env)
    /\ finalTotal r = Some (length (threads env))
    /\ finalSkipped r = 0%nat
    /\ totalEmails (sheet w')
       = (totalEmails (sheet w) + countedIn (threads env))%Z.
Proof.
  destruct (scan_in_budget env w Hany Hbudget Hfresh)
    as (w' & r & Hrun & Hd & Hc & Ht & Hs & He & _).
  by exists w', r.
Qed.

Lemma scan_in_budget_stores_every_message_witness :
  (threads {| threads := mailbox51; now := fun _ => 0%Z |} <> []
   /\ (forall i : nat,
         (now {| threads := mailbox51; now := fun _ => 0%Z |} i
          - now {| threads := mailbox51; now := fun _ => 0%Z |} 0
          <= CONFIG.RUNTIME_HARD_LIMIT_MS)%Z)
   /\ Js.truthyO (props freshWorld !! KEYS.INITIALIZED) = false)
  /\ exists w' r,
      buildSenderReportBatch {| threads := mailbox51; now := fun _ => 0%Z |} freshWorld
      = Some (w', Finished r)
      /\ totalEmails (sheet w') = 52%Z.
Proof.
  assert (Hany : threads {| threads := mailbox51; now := fun _ => 0%Z |} <> []) by done.
  assert (Hb : forall i : nat,
             (now {| threads := mailbox51; now := fun _ => 0%Z |} i
              - now {| threads := mailbox51; now := fun _ => 0%Z |} 0
              <= CONFIG.RUNTIME_HARD_LIMIT_MS)%Z).
  { intros i. simpl. unfold CONFIG.RUNTIME_HARD_LIMIT_MS. lia. }
  split; [split; [done|split; [exact Hb|reflexivity]]|].
  destruct (scan_in_budget_stores_every_message _ freshWorld Hany Hb eq_refl)
    as (w' & r & Hrun & _ & _ & _ & _ & Htot).
  exists w', r. split; [exact Hrun|]. rewrite Htot. reflexivity.
Defined.

(** X10. A short and quick scan is exact for every sender: from an
    uninitialised state with an empty store, over a mailbox of fewer
    than CHECKPOINT_THREADS threads and on a clock that stays below the
    checkpoint interval and the hard limit, the only merge is the final
    one, and the count stored for each sender is the number of its
    counted messages in the mailbox. *)
Theorem short_scan_counts_each_sender
    (env : Env) (w : World)
    (Hany : threads env <> [])
    (Hshort : (length (threads env) < CONFIG.CHECKPOINT_THREADS)%nat)
    (Hbudget : forall i, (now env i - now env 0 <= CONFIG.RUNTIME_HARD_LIMIT_MS)%Z)
    (Hquick : forall i, (now env i - now env 1 < CONFIG.CHECKPOINT_INTERVAL_MS)%Z)
    (Hfresh : Js.truthyO (props w !! KEYS.INITIALIZED) = false)
    (Hstore : sheet w = [] /\ indexSheet w = []) :
  exists w' r,
    buildSenderReportBatch env w = Some (w', Finished r)
    /\ done r = true
    /\ forall key, storedCount key (sheet w') = occurrences key (threads env).
Proof.
  assert (forall i, overLimit env (now env 0) i = false) as Hb.
  { intros i. unfold overLimit. apply Z.ltb_ge, Hbudget. }
  unfold buildSenderReportBatch.
  pose proof (storedCursor_uninitialised w Hfresh) as Hc. unfold storedCursor in Hc.
  rewrite Hc, (readCount_total_uninitialised w Hfresh), (first_probe_nonempty env Hany).
  destruct (mainLoop_in_budget env (now env 0) (S (length (threads env)))
              {| world := initialise w; cursor := 0; totalProcessed := Some 0%nat;
                 runMap := []; threadsSinceCheckpoint := 0;
                 lastCheckpointTime := now env 1; tick := 2; skipped := 0 |} Hb)
    as (st & Hloop & Hcur & _); [cbn [cursor]; lia|].
  rewrite Hloop.
  apply mainLoop_no_checkpoint in Hloop as [Hw Hr];
    cbn [cursor lastCheckpointTime threadsSinceCheckpoint world runMap] in *;
    [|done|done|lia].
  rewrite Nat.sub_0_r in Hcur. simpl in Hcur. rewrite drop_0 in Hr.
  pose proof (finish_sheets st env) as Hsheet.
  destruct (finish st env) as [w' o] eqn:Hfin.
  apply finish_spec in Hfin as (-> & _). cbn [fst] in Hsheet.
  exists w'. eexists. split; [reflexivity|]. cbn [done]. split.
  - unfold search. rewrite Hcur, drop_ge by lia. reflexivity.
  - intros key. destruct Hstore as [Hs Hi].
    assert (indexSheet (initialise w) = indexSheet w) as Hi'
      by (unfold initialise; by destruct (negb _)).
    rewrite Hsheet, Hw, Hr, initialise_sheet, Hi', Hs, Hi.
    rewrite storedCount_first_merge. apply occurrences_concat.
Qed.

Lemma short_scan_counts_each_sender_witness :
  (threads {| threads := [[fromAnn]; [fromBob; fromAnn]]; now := fun _ => 0%Z |} <> []
   /\ (length (threads {| threads := [[fromAnn]; [fromBob; fromAnn]];
                          now := fun _ => 0%Z |})
       < CONFIG.CHECKPOINT_THREADS)%nat
   /\ (forall i : nat,
         (now {| threads := [[fromAnn]; [fromBob; fromAnn]]; now := fun _ => 0%Z |} i
          - now {| threads := [[fromAnn]; [fromBob; fromAnn]]; now := fun _ => 0%Z |} 0
          <= CONFIG.RUNTIME_HARD_LIMIT_MS)%Z)
   /\ (forall i : nat,
         (now {| threads := [[fromAnn]; [fromBob; fromAnn]]; now := fun _ => 0%Z |} i
          - now {| threads := [[fromAnn]; [fromBob; fromAnn]]; now := fun _ => 0%Z |} 1
          < CONFIG.CHECKPOINT_INTERVAL_MS)%Z)
   /\ Js.truthyO (props freshWorld !! KEYS.INITIALIZED) = false
   /\ (sheet freshWorld = [] /\ indexSheet freshWorld = []))
  /\ exists w' r,
      buildSenderReportBatch
        {| threads := [[fromAnn]; [fromBob; fromAnn]]; now := fun _ => 0%Z |} freshWorld
      = Some (w', Finished r)
      /\ storedCount "ann@x.com" (sheet w') = 2%Z.
Proof.
  assert (Hany : threads {| threads := [[fromAnn]; [fromBob; fromAnn]];
                            now := fun _ => 0%Z |} <> []) by done.
  assert (Hs : (length (threads {| threads := [[fromAnn]; [fromBob; fromAnn]];
                                  now := fun _ => 0%Z |})
                < CONFIG.CHECKPOINT_THREADS)%nat)
    by (unfold CONFIG.CHECKPOINT_THREADS; simpl; lia).
  assert (Hb : forall i : nat,
         (now {| threads := [[fromAnn]; [fromBob; fromAnn]]; now := fun _ => 0%Z |} i
          - now {| threads := [[fromAnn]; [fromBob; fromAnn]]; now := fun _ => 0%Z |} 0
          <= CONFIG.RUNTIME_HARD_LIMIT_MS)%Z).
  { intros i. simpl. unfold CONFIG.RUNTIME_HARD_LIMIT_MS. lia. }
  assert (Hq : forall i : nat,
         (now {| threads := [[fromAnn]; [fromBob; fromAnn]]; now := fun _ => 0%Z |} i
          - now {| threads := [[fromAnn]; [fromBob; fromAnn]]; now := fun _ => 0%Z |} 1
          < CONFIG.CHECKPOINT_INTERVAL_MS)%Z).
  { intros i. simpl. unfold CONFIG.CHECKPOINT_INTERVAL_MS. lia. }
  assert (He : sheet freshWorld = [] /\ indexSheet freshWorld = []) by (by split).
  split; [exact (conj Hany (conj Hs (conj Hb (conj Hq (conj eq_refl He)))))|].
  destruct (short_scan_counts_each_sender _ freshWorld Hany Hs Hb Hq eq_refl He)
    as (w' & r & Hrun & _ & Hk).
  exists w', r. split; [exact Hrun|]. rewrite Hk. reflexivity.
Defined.

(** ** Sheet statistics *)

Lemma getSheetStats_fold sheet st :
  Stats.senderCount (fold_left statsStep sheet st)
  = (Stats.senderCount st
     + length (filter (fun r => (0 < Row.count r)%Z) sheet))%nat
  /\ Stats.totalEmails (fold_left statsStep sheet st)
     = (Stats.totalEmails st
        + sumZ (map Row.count (filter (fun r => (0 < Row.count r)%Z) sheet)))%Z.
Proof.
  revert st. induction sheet as [|r sheet IH]; intros st.
  - simpl. split; lia.
  - cbn [fold_left]. rewrite filter_cons. destruct (IH (statsStep st r)) as [H1 H2].
    rewrite H1, H2. unfold statsStep. destruct (0 <? Row.count r)%Z eqn:E.
    + apply Z.ltb_lt in E. rewrite decide_True by done. simpl. split; lia.
    + apply Z.ltb_ge in E. rewrite decide_False by lia. done.
Qed.

Lemma sumZ_positive_rows sheet :
  Forall (fun r => (0 <= Row.count r)%Z) sheet ->
  sumZ (map Row.count (filter (fun r => (0 < Row.count r)%Z) sheet)) = totalEmails sheet.
Proof.
  unfold totalEmails. induction 1 as [|r sheet Hr H IH]; [done|].
  rewrite filter_cons. destruct (decide (0 < Row.count r)%Z); simpl; lia.
Qed.

Lemma nonneg_applyUpdate sheet u :
  Forall (fun r => (0 <= Row.count r)%Z) sheet -> (0 <= Bucket.count u.2)%Z ->
  Forall (fun r => (0 <= Row.count r)%Z) (applyUpdate sheet u).
Proof.
  intros Hs Hb. destruct u as [row B]. unfold applyUpdate.
  destruct (row <? 2)%nat; [done|].
  assert (0 <= Row.count (mergeRowVals (getRow row sheet) B))%Z as Hm.
  { simpl in *. unfold getRow.
    destruct (nth_in_or_default (row - 2) sheet Row.blank) as [Hin| ->].
    - rewrite Forall_forall in Hs. apply list_elem_of_In, Hs in Hin. lia.
    - simpl. lia. }
  unfold setRow. destruct (row - 2 <? length sheet)%nat.
  - by apply Forall_insert.
  - apply Forall_app. split; [done|]. apply Forall_app. split.
    + apply Forall_forall. intros r Hr. apply list_elem_of_In, repeat_spec in Hr as ->. done.
    + by constructor.
Qed.

Lemma nonneg_merge sheet indexSheet (runMap : RunMap) :
  Forall (fun r => (0 <= Row.count r)%Z) sheet ->
  Forall (fun kb : string * Bucket.t => (0 <= Bucket.count kb.2)%Z) runMap ->
  Forall (fun r => (0 <= Row.count r)%Z) (mergeRunMapUsingIndex sheet indexSheet runMap).1.
Proof.
  intros Hs Hb. unfold mergeRunMapUsingIndex. destruct runMap as [|kb rm]; [done|].
  assert (Forall (fun r => (0 <= Row.count r)%Z)
            (mergeWrites sheet indexSheet (kb :: rm)).1) as H.
  { unfold mergeWrites. cbv zeta. cbn [fst].
    match goal with |- context [fold_left applyUpdate ?us ?s] =>
      assert (Forall (fun u : nat * Bucket.t => (0 <= Bucket.count u.2)%Z) us) as Hus;
      [|assert (Forall (fun r => (0 <= Row.count r)%Z) s) as Hs1;
        [|revert Hus Hs1; generalize us s]]
    end.
    - apply Forall_forall. intros [row B] Hin.
      apply list_elem_of_omap in Hin as ([k b] & Hkb & Heq). simpl in Heq.
      destruct (readIndex indexSheet !! k); [|done]. injection Heq as <- <-.
      rewrite Forall_forall in Hb. by apply (Hb (k, b)).
    - apply Forall_app. split; [done|]. apply Forall_forall. intros r Hr.
      apply list_elem_of_In, in_map_iff in Hr as ([k b] & <- & Hin). simpl.
      apply list_elem_of_In, list_elem_of_filter in Hin as [_ Hin].
      rewrite Forall_forall in Hb. by apply (Hb (k, b)).
    - intros us. induction us as [|u us IH]; intros s Hus Hs1; [done|].
      apply Forall_cons in Hus as [Hu Hus]. simpl. apply IH; [done|].
      by apply nonneg_applyUpdate. }
  destruct (mergeWrites sheet indexSheet (kb :: rm)) as [sheet' index'].
  cbn [fst] in *. by rewrite sortByCountDesc_perm.
Qed.

(** X11. On a store whose counts are not negative, the total that
    [getSheetStats] reports is the sum of the Count column and its
    sender count is at most the number of rows; and a merge of buckets
    with non-negative counts raises the reported total by exactly the
    counts of the run map, which is the number of emails that the scan
    logs for a checkpoint. *)
Theorem getSheetStats_follows_merges
    (sheet : Sheet) (indexSheet : IndexSheet) (runMap : RunMap)
    (Hrows : Forall (fun r => (0 <= Row.count r)%Z) sheet)
    (Hbuckets : Forall (fun kb : string * Bucket.t => (0 <= Bucket.count kb.2)%Z) runMap) :
  Stats.totalEmails (getSheetStats sheet) = totalEmails sheet
  /\ (Stats.senderCount (getSheetStats sheet) <= length sheet)%nat
  /\ Stats.totalEmails
       (getSheetStats (mergeRunMapUsingIndex sheet indexSheet runMap).1)
     = (Stats.totalEmails (getSheetStats sheet) + pendingEmails runMap)%Z.
Proof.
  assert (forall s, Forall (fun r => (0 <= Row.count r)%Z) s ->
                    Stats.totalEmails (getSheetStats s) = totalEmails s) as Htot.
  { intros s Hs. unfold getSheetStats.
    destruct (getSheetStats_fold s {| Stats.senderCount := 0; Stats.totalEmails := 0 |})
      as [_ H]. rewrite H, sumZ_positive_rows by done. simpl. lia. }
  split; [by apply Htot|]. split.
  - unfold getSheetStats.
    destruct (getSheetStats_fold sheet {| Stats.senderCount := 0; Stats.totalEmails := 0 |})
      as [H _]. rewrite H. simpl. apply length_filter.
  - rewrite !Htot by (done || by apply nonneg_merge). apply totalEmails_merge.
Qed.

Lemma getSheetStats_follows_merges_witness :
  (Forall (fun r => (0 <= Row.count r)%Z) []
   /\ Forall (fun kb : string * Bucket.t => (0 <= Bucket.count kb.2)%Z)
        (processMessages [fromAnn; fromBob; fromAnn] []))
  /\ Stats.totalEmails
       (getSheetStats
          (mergeRunMapUsingIndex [] [] (processMessages [fromAnn; fromBob; fromAnn] [])).1)
     = 3%Z.
Proof.
  assert (H1 : Forall (fun r => (0 <= Row.count r)%Z) []) by constructor.
  assert (H2 : Forall (fun kb : string * Bucket.t => (0 <= Bucket.count kb.2)%Z)
                 (processMessages [fromAnn; fromBob; fromAnn] [])).
  { vm_compute. repeat constructor; discriminate. }
  split; [by split|].
  destruct (getSheetStats_follows_merges [] [] _ H1 H2) as (_ & _ & H).
  rewrite H. reflexivity.
Defined.

(** ** Checking senders *)

Lemma setCheckedRows_spec emailSet checked rows :
  (setCheckedRows emailSet checked rows).1
  = map (fun r => if inSet (emailKey r) emailSet then setAct checked r else r) rows
  /\ (setCheckedRows emailSet checked rows).2
     = length (filter (fun r => inSet (emailKey r) emailSet = true) rows).
Proof.
  induction rows as [|r rows [IH1 IH2]]; [done|].
  cbn [setCheckedRows map]. rewrite filter_cons.
  destruct (setCheckedRows emailSet checked rows) as [out updated]. cbn [fst snd] in *.
  destruct (inSet (emailKey r) emailSet) eqn:E.
  - rewrite decide_True by done. simpl. by rewrite IH1, IH2.
  - rewrite decide_False by done. simpl. by rewrite IH1, IH2.
Qed.

Lemma emailKey_setAct checked r : emailKey (setAct checked r) = emailKey r.
Proof. reflexivity. Qed.

Lemma inSet_lower s emails :
  inSet s (map Js.toLowerCase emails) = true
  <-> Exists (fun e => Js.toLowerCase e = s) emails.
Proof.
  unfold inSet. rewrite existsb_exists, Exists_exists. split.
  - intros (x & Hx & He). apply in_map_iff in Hx as (e & <- & Hin).
    apply String.eqb_eq in He. exists e. split; [by apply list_elem_of_In|done].
  - intros (e & Hin & <-). exists (Js.toLowerCase e). split.
    + apply in_map_iff. exists e. split; [done|by apply list_elem_of_In].
    + apply String.eqb_refl.
Qed.

(** X12. [setCheckedApi] writes the Act flag of exactly the rows whose
    address, trimmed and in lower case, equals one of the given
    addresses in lower case, and reports their number.  It changes no
    other column and no other row, keeps every row in its place, and
    doing it twice is the same as doing it once. *)
Theorem setCheckedApi_writes_only_the_flag
    (sheet : Sheet) (emails : list string) (checked : bool) :
  let out := setCheckedApi sheet emails checked in
  let named (r : Row.t) := Exists (fun e => Js.toLowerCase e = emailKey r) emails in
  map dataColumns out.1 = map dataColumns sheet
  /\ (forall i r, sheet !! i = Some r ->
        exists r', out.1 !! i = Some r'
          /\ (named r -> Row.act r' = checked)
          /\ (~ named r -> r' = r))
  /\ out.2 = length (filter named sheet)
  /\ (setCheckedApi out.1 emails checked).1 = out.1.
Proof.
  cbv zeta. unfold setCheckedApi.
  destruct (setCheckedRows_spec (map Js.toLowerCase emails) checked sheet) as [H1 H2].
  rewrite H1, H2. split; [|split; [|split]].
  - rewrite map_map. apply map_ext. intros r. by destruct (inSet _ _).
  - intros i r Hi. change (map ?f sheet) with (fmap (M:=list) f sheet).
    rewrite list_lookup_fmap, Hi. simpl. eexists. split; [done|].
    destruct (inSet (emailKey r) (map Js.toLowerCase emails)) eqn:E.
    + split; [done|]. intros Hn. exfalso. apply Hn. by apply inSet_lower.
    + split; [|done]. intros He. apply inSet_lower in He. congruence.
  - f_equal. apply list_filter_iff. intros r. apply inSet_lower.
  - destruct (setCheckedRows_spec (map Js.toLowerCase emails) checked
                (map (fun r => if inSet (emailKey r) (map Js.toLowerCase emails)
                               then setAct checked r else r) sheet)) as [H3 _].
    rewrite H3, map_map. apply map_ext. intros r.
    destruct (inSet (emailKey r) (map Js.toLowerCase emails)) eqn:E.
    + by rewrite emailKey_setAct, E.
    + by rewrite E.
Qed.

(** ** Listing senders *)

Lemma insertSender_perm x l : Permutation (insertSender x l) (x :: l).
Proof.
  induction l as [|y l IH]; simpl; [done|].
  destruct (Row.count x.2 <? Row.count y.2)%Z; [|done].
  rewrite IH. apply perm_swap.
Qed.

Lemma sortSenders_perm l : Permutation (sortSenders l) l.
Proof.
  induction l as [|x l IH]; simpl; [done|].
  rewrite insertSender_perm. by constructor.
Qed.

Lemma insertSender_sorted x l :
  StronglySorted (fun a b : nat * Row.t => (Row.count b.2 <= Row.count a.2)%Z) l ->
  StronglySorted (fun a b : nat * Row.t => (Row.count b.2 <= Row.count a.2)%Z)
    (insertSender x l).
Proof.
  induction 1 as [|y l Hl IH Hy]; simpl; [repeat constructor|].
  destruct (Row.count x.2 <? Row.count y.2)%Z eqn:E.
  - apply Z.ltb_lt in E. constructor; [done|].
    rewrite insertSender_perm. constructor; [lia|done].
  - apply Z.ltb_ge in E. constructor; [by constructor|].
    constructor; [done|]. eapply Forall_impl; [exact Hy|]. simpl. intros z Hz. lia.
Qed.

Lemma sortSenders_sorted l :
  StronglySorted (fun a b : nat * Row.t => (Row.count b.2 <= Row.count a.2)%Z)
    (sortSenders l).
Proof.
  induction l as [|x l IH]; simpl; [constructor|]. by apply insertSender_sorted.
Qed.

Lemma jsSlice_window {A} (start stop : option Z) (l : list A) :
  exists k n, jsSlice start stop l = take n (drop k l).
Proof. unfold jsSlice. eauto. Qed.

Lemma window_sorted {A} (R : A -> A -> Prop) k n (l : list A) :
  StronglySorted R l -> StronglySorted R (take n (drop k l)).
Proof.
  intros H. rewrite <- (take_drop k l) in H.
  apply StronglySorted_app_1_r in H.
  rewrite <- (take_drop n (drop k l)) in H.
  by apply StronglySorted_app_1_l in H.
Qed.

Lemma filteredSenders_length_from mc ou op (sheet : Sheet) k :
  length (filter (fun x : nat * Row.t => passesFilters mc ou op x.2 = true)
            (imap (fun i r => ((i + k)%nat, r)) sheet))
  = length (filter (fun r => passesFilters mc ou op r = true) sheet).
Proof.
  revert k. induction sheet as [|r sheet IH]; intros k; [done|].
  rewrite imap_cons, !filter_cons. cbn [snd].
  rewrite (imap_ext _ (fun i r => ((i + S k)%nat, r)))
    by (intros i x _; simpl; f_equal; lia).
  destruct (decide (passesFilters mc ou op r = true)); simpl; by rewrite IH.
Qed.

Lemma filteredSenders_elem mc ou op (sheet : Sheet) n r :
  (n, r) ∈ filteredSenders mc ou op sheet ->
  (2 <= n)%nat /\ sheet !! (n - 2)%nat = Some r /\ passesFilters mc ou op r = true.
Proof.
  unfold filteredSenders. intros H.
  apply list_elem_of_filter in H as [Hp H]. cbn [snd] in Hp.
  apply elem_of_lookup_imap in H as (i & x & [= -> ->] & Hi).
  split; [lia|]. split; [|done]. by replace (i + 2 - 2)%nat with i by lia.
Qed.

Lemma passesFilters_true mc ou op r :
  passesFilters mc ou op r = true ->
  match mc with Some m => (m <= Row.count r)%Z | None => True end
  /\ (ou = true -> Row.act r = false)
  /\ (op = true -> Js.trim (Row.processed r) = "").
Proof.
  unfold passesFilters. intros H.
  apply andb_true_iff in H as [H H3]. apply andb_true_iff in H as [H1 H2].
  split; [|split].
  - destruct mc as [m|]; [|done]. apply negb_true_iff, Z.ltb_ge in H1. lia.
  - intros ->. simpl in H2. by apply negb_true_iff in H2.
  - intros ->. simpl in H3. apply negb_true_iff in H3.
    by destruct (Js.trim (Row.processed r)).
Qed.

Lemma take_min_length {A} n (l : list A) : take (Nat.min n (length l)) l = take n l.
Proof.
  destruct (decide (n <= length l)%nat).
  - by rewrite Nat.min_l.
  - rewrite Nat.min_r by lia. rewrite !take_ge by lia. done.
Qed.

(** X13. [getSendersApi] lists only senders that pass the requested
    filters, each with the number of the row that holds it, in order of
    decreasing count, and reports as total the number of rows that
    pass.  With a non-negative offset and limit the page is the next
    [min(limit, 500)] senders from the offset, at most 500.  The cap
    does not apply to a negative limit: with limit -1 and no offset the
    page holds all senders but the last, however many there are. *)
Theorem getSendersApi_page (sheet : Sheet) (params : Params) :
  let minCount := parseIntZ (Js.or (Js.orEmpty (p_minCount params)) "0") in
  let onlyUnchecked :=
    match p_onlyUnchecked params with Some s => String.eqb s "true" | None => false end in
  let onlyUnprocessed :=
    match p_onlyUnprocessed params with Some s => String.eqb s "true" | None => false end in
  let senders :=
    sortSenders (filteredSenders minCount onlyUnchecked onlyUnprocessed sheet) in
  let page := (getSendersApi sheet params).1 in
  let total := (getSendersApi sheet params).2 in
  total = length (filter (fun r => passesFilters minCount onlyUnchecked onlyUnprocessed r
                                  = true) sheet)
  /\ (forall n r, (n, r) ∈ page ->
        (2 <= n)%nat /\ getRow n sheet = r
        /\ match minCount with Some m => (m <= Row.count r)%Z | None => True end
        /\ (onlyUnchecked = true -> Row.act r = false)
        /\ (onlyUnprocessed = true -> Js.trim (Row.processed r) = ""))
  /\ StronglySorted (fun a b : nat * Row.t => (Row.count b.2 <= Row.count a.2)%Z) page
  /\ (forall o l,
        parseIntZ (Js.or (Js.orEmpty (p_offset params)) "0") = Some o ->
        parseIntZ (Js.or (Js.orEmpty (p_limit params)) "100") = Some l ->
        (0 <= o)%Z -> (0 <= l)%Z ->
        page = take (Z.to_nat (Z.min l 500)) (drop (Z.to_nat o) senders)
        /\ (length page <= 500)%nat)
  /\ (p_limit params = Some "-1" -> p_offset params = None ->
      length page = (total - 1)%nat).
Proof.
  cbv zeta. unfold getSendersApi. cbv zeta. cbn [fst snd].
  set (mc := parseIntZ (Js.or (Js.orEmpty (p_minCount params)) "0")).
  set (ou := match p_onlyUnchecked params with
             | Some s => String.eqb s "true" | None => false end).
  set (op := match p_onlyUnprocessed params with
             | Some s => String.eqb s "true" | None => false end).
  set (senders := sortSenders (filteredSenders mc ou op sheet)).
  split; [|split; [|split; [|split]]].
  - subst senders. rewrite (Permutation_length (sortSenders_perm _)).
    apply (filteredSenders_length_from mc ou op sheet 2).
  - intros n r Hin.
    destruct (jsSlice_window
                (parseIntZ (Js.or (Js.orEmpty (p_offset params)) "0"))
                (match parseIntZ (Js.or (Js.orEmpty (p_offset params)) "0"),
                       match parseIntZ (Js.or (Js.orEmpty (p_limit params)) "100") with
                       | Some n0 => Some (Z.min n0 500)
                       | None => None
                       end with
                 | Some o, Some l => Some (o + l)%Z
                 | _, _ => None
                 end) senders) as (k & m & Hw).
    rewrite Hw in Hin. apply subseteq_take, subseteq_drop in Hin.
    subst senders. rewrite sortSenders_perm in Hin.
    apply filteredSenders_elem in Hin as (Hn & Hrow & Hp).
    split; [done|]. split; [unfold getRow; by apply nth_lookup_Some|].
    by apply passesFilters_true.
  - destruct (jsSlice_window
                (parseIntZ (Js.or (Js.orEmpty (p_offset params)) "0"))
                (match parseIntZ (Js.or (Js.orEmpty (p_offset params)) "0"),
                       match parseIntZ (Js.or (Js.orEmpty (p_limit params)) "100") with
                       | Some n0 => Some (Z.min n0 500)
                       | None => None
                       end with
                 | Some o, Some l => Some (o + l)%Z
                 | _, _ => None
                 end) senders) as (k & m & ->).
    apply window_sorted, sortSenders_sorted.
  - intros o l -> -> Ho Hl. unfold jsSlice.
    destruct (o <? 0)%Z eqn:Eo; [apply Z.ltb_lt in Eo; lia|].
    destruct (o + Z.min l 500 <? 0)%Z eqn:Es; [apply Z.ltb_lt in Es; lia|].
    assert (forall (s : list (nat * Row.t)),
      take (Z.to_nat (Z.min (o + Z.min l 500) (Z.of_nat (length s))
                      - Z.min o (Z.of_nat (length s))))
           (drop (Z.to_nat (Z.min o (Z.of_nat (length s)))) s)
      = take (Z.to_nat (Z.min l 500)) (drop (Z.to_nat o) s)) as Hs.
    { intros s. destruct (decide (o <= Z.of_nat (length s))%Z).
      - rewrite (Z.min_l o) by done.
        rewrite <- (take_min_length (Z.to_nat (Z.min l 500))).
        f_equal. rewrite length_drop. lia.
      - rewrite !(drop_ge s) by lia. by rewrite !take_nil. }
    rewrite Hs. split; [done|]. rewrite length_take. lia.
  - intros -> ->. cbn [Js.orEmpty Js.or Js.truthy].
    change (parseIntZ "-1") with (Some (-1)%Z). change (parseIntZ "0") with (Some 0%Z).
    unfold jsSlice.
    assert ((0 + Z.min (-1) 500 <? 0)%Z = true) as -> by reflexivity.
    change (0 <? 0)%Z with false. cbv iota.
    rewrite length_take, length_drop. lia.
Qed.

(** ** The index through the writes of a merge *)

Lemma readIndex_fold l : readIndex l = fold_left indexStep l ∅.
Proof. reflexivity. Qed.

Lemma readIndex_app l1 l2 : readIndex (l1 ++ l2) = fold_left indexStep l2 (readIndex l1).
Proof. rewrite !readIndex_fold. apply fold_left_app. Qed.

Lemma indexStep_fold_truthy l (m : gmap string nat) key row :
  (forall k r, m !! k = Some r -> Js.truthy k = true) ->
  fold_left indexStep l m !! key = Some row -> Js.truthy key = true.
Proof.
  revert m. induction l as [|[k r] l IH]; intros m Hm; simpl; [apply Hm|].
  apply IH. intros k' r'.
  destruct (Js.truthy _ && (1 <? r)%nat) eqn:E; [|apply Hm].
  apply andb_true_iff in E as [E _].
  rewrite lookup_insert. case_decide as Hk; [|apply Hm]. by subst.
Qed.

Lemma readIndex_key_truthy indexSheet key row :
  readIndex indexSheet !! key = Some row -> Js.truthy key = true.
Proof.
  rewrite readIndex_fold. apply indexStep_fold_truthy. intros k r. by rewrite lookup_empty.
Qed.

(** The index after the entries of new rows [n0], [n0 + 1], ... are
    appended for keys that it does not hold. *)
Lemma indexStep_new_entries (news : RunMap) (m : gmap string nat) n0 key row :
  (2 <= n0)%nat ->
  NoDup (map fst news) ->
  (forall k b, (k, b) ∈ news -> Js.truthy k = true /\ Js.toLowerCase (Js.trim k) = k) ->
  fold_left indexStep (imap (fun i kb => (kb.1, (n0 + i)%nat)) news) m !! key = Some row
  <-> (exists i b, news !! i = Some (key, b) /\ row = (n0 + i)%nat)
      \/ ((key ∉ map fst news) /\ m !! key = Some row).
Proof.
  revert m n0. induction news as [|[k b] news IH]; intros m n0 Hn0 Hnd Hkeys.
  - simpl. split.
    + intros H. right. split; [|done]. intros Hin. by inversion Hin.
    + intros [(i & b & Hi & _)|[_ H]]; [done|done].
  - rewrite imap_cons. cbn [fold_left map fst] in *.
    apply NoDup_cons in Hnd as [Hk Hnd].
    destruct (Hkeys k b) as [Ht Hl]; [by left|].
    assert (indexStep m (k, (n0 + 0)%nat) = <[k := n0]> m) as ->.
    { unfold indexStep. rewrite Hl, Ht, Nat.add_0_r.
      assert ((1 <? n0)%nat = true) as -> by (apply Nat.ltb_lt; lia). done. }
    rewrite (imap_ext _ (fun i kb => (kb.1, (S n0 + i)%nat)))
      by (intros i x _; simpl; f_equal; lia).
    rewrite IH; [|lia|done|intros k' b' H; apply (Hkeys k' b'); by right].
    split.
    + intros [(i & b' & Hi & ->)|[Hnot Hm]].
      * left. exists (S i), b'. split; [done|lia].
      * destruct (decide (k = key)) as [->|Hne].
        -- rewrite lookup_insert_eq in Hm. injection Hm as <-.
           left. exists 0%nat, b. split; [done|lia].
        -- rewrite lookup_insert_ne in Hm by done. right. split; [|done].
           intros Hin. apply elem_of_cons in Hin as [->|Hin]; [done|by apply Hnot].
    + intros [(i & b' & Hi & ->)|[Hnot Hm]].
      * destruct i as [|i].
        -- injection Hi as -> ->. right. split; [done|].
           rewrite lookup_insert_eq. f_equal. lia.
        -- left. exists i, b'. split; [done|lia].
      * right. split; [intros Hin; apply Hnot; by right|].
        rewrite lookup_insert_ne; [done|]. intros ->. apply Hnot. left.
Qed.

Lemma keyOf_key_normal m key :
  keyOf m = Some key -> Js.truthy key = true /\ Js.trim key = key.
Proof.
  intros Hk. destruct (keyOf_email _ _ Hk) as [He Hl].
  unfold keyOf in Hk. destruct (isInInbox m); simpl in Hk; [|done].
  destruct (Js.truthy (parseFrom (getFrom m)).1) eqn:Ht; simpl in Hk; [|done].
  rewrite <- He. split; [done|apply parseFrom_email_trim].
Qed.

Lemma keys_normal_processMessages ms (rm : RunMap) :
  Forall (fun k => Js.truthy k = true /\ Js.trim k = k) (map fst rm) ->
  Forall (fun k => Js.truthy k = true /\ Js.trim k = k) (map fst (processMessages ms rm)).
Proof.
  revert rm. induction ms as [|m ms IH]; intros rm H; [done|].
  apply IH. destruct (keyOf m) as [key|] eqn:Hk.
  - rewrite (processMessage_counted _ _ _ Hk), keys_rmSet.
    destruct (rmGet key rm); [done|].
    apply Forall_app. split; [done|]. apply Forall_singleton. by eapply keyOf_key_normal.
  - by rewrite processMessage_skipped.
Qed.

Lemma wellKeyed_processMessages ms : wellKeyed (processMessages ms []).
Proof.
  split; [apply NoDup_keys_processMessages; constructor|].
  intros k b Hkb.
  assert (emailsAreKeys (processMessages ms [])) as Hek.
  { apply processMessages_emailsAreKeys. intros k' v H. by inversion H. }
  destruct (Hek k b Hkb) as [He Hl].
  pose proof (keys_normal_processMessages ms [] (Forall_nil_2 _)) as Hn.
  rewrite Forall_forall in Hn.
  destruct (Hn k) as [Ht Htr].
  { apply (list_elem_of_fmap_2 fst) in Hkb. exact Hkb. }
  by rewrite Htr, Hl.
Qed.

Lemma length_applyUpdate_in_range sheet u :
  (u.1 - 2 < length sheet)%nat -> length (applyUpdate sheet u) = length sheet.
Proof.
  destruct u as [row B]. simpl. intros H. unfold applyUpdate.
  destruct (row <? 2)%nat; [done|]. unfold setRow.
  assert ((row - 2 <? length sheet)%nat = true) as -> by (by apply Nat.ltb_lt).
  apply length_insert.
Qed.

Lemma length_fold_applyUpdate_in_range us sheet :
  Forall (fun u => (u.1 - 2 < length sheet)%nat) us ->
  length (fold_left applyUpdate us sheet) = length sheet.
Proof.
  revert sheet. induction us as [|u us IH]; intros sheet H; simpl; [done|].
  apply Forall_cons in H as [Hu H].
  rewrite IH; rewrite length_applyUpdate_in_range by done; done.
Qed.

(** The writes of a merge, before the sort, keep the index consistent
    with the sheet. *)
Lemma mergeWrites_IndexConsistent sheet indexSheet (runMap : RunMap) :
  IndexConsistent sheet indexSheet -> wellKeyed runMap ->
  IndexConsistent (mergeWrites sheet indexSheet runMap).1
                  (mergeWrites sheet indexSheet runMap).2.
Proof.
  intros [Hc1 Hc2] [Hnd Hk]. unfold mergeWrites. cbv zeta. cbn [fst snd].
  set (im := readIndex indexSheet) in *.
  set (news := filter (fun kb : string * Bucket.t => im !! kb.1 = None) runMap).
  set (ups := omap (fun kb : string * Bucket.t =>
                      match im !! kb.1 with
                      | Some row => Some (row, kb.2)
                      | None => None
                      end) runMap).
  set (sheet1 := sheet ++ map (fun kb : string * Bucket.t => buildRowFromBucket kb.2) news).
  assert (NoDup (map fst news)) as Hnd'.
  { refine (sublist_NoDup _ (map fst runMap) Hnd _).
    apply (fmap_sublist fst), sublist_filter. }
  assert (forall k b, (k, b) ∈ news ->
            Js.truthy k = true /\ Js.toLowerCase (Js.trim k) = k) as Hk'.
  { intros k b H. apply list_elem_of_filter in H as [_ H].
    destruct (Hk k b H) as (? & ? & ?). done. }
  assert (forall i k b, news !! i = Some (k, b) ->
            sheet1 !! (length sheet + i)%nat = Some (buildRowFromBucket b)
            /\ Js.toLowerCase (Row.email (buildRowFromBucket b)) = k
            /\ Js.truthy k = true) as Hnew.
  { intros i k b Hi. unfold sheet1.
    rewrite lookup_app_r by lia.
    replace (length sheet + i - length sheet)%nat with i by lia.
    change (map ?f) with (fmap (M:=list) f). rewrite list_lookup_fmap, Hi. simpl.
    apply list_elem_of_lookup_2, list_elem_of_filter in Hi as [_ Hi].
    destruct (Hk k b Hi) as (Ht & Hl & He). rewrite He.
    split; [done|]. split; [|done].
    rewrite <- Hl at 1. rewrite toLowerCase_idem. done. }
  assert (forall i r, sheet1 !! i = Some r -> Js.truthy (Row.email r) = true) as Htr.
  { intros i r Hi. unfold sheet1 in Hi. apply lookup_app_Some in Hi as [Hi|[Hge Hi]].
    - destruct (Hc2 r) as [row Hrow]; [by eapply list_elem_of_lookup_2|].
      apply readIndex_key_truthy in Hrow. by rewrite truthy_toLowerCase in Hrow.
    - change (map ?f) with (fmap (M:=list) f) in Hi. rewrite list_lookup_fmap in Hi.
      destruct (news !! (i - length sheet)%nat) as [[k b]|] eqn:E; [|done].
      injection Hi as <-. destruct (Hnew _ _ _ E) as (_ & Hl & Ht).
      rewrite <- Hl in Ht. by rewrite truthy_toLowerCase in Ht. }
  assert (length (fold_left applyUpdate ups sheet1) = length sheet1) as Hlen.
  { apply length_fold_applyUpdate_in_range. apply Forall_forall. intros [row B] Hu.
    apply list_elem_of_omap in Hu as ([k b] & _ & Hu). simpl in Hu.
    destruct (im !! k) as [row'|] eqn:E; [|done]. injection Hu as <- <-.
    destruct (Hc1 _ _ E) as (r & _ & Hr & _). apply lookup_lt_Some in Hr.
    unfold sheet1. rewrite length_app. simpl. lia. }
  assert (forall key row,
            readIndex
              (indexSheet ++ imap (fun i (kb : string * Bucket.t) =>
                                     (kb.1, (S (getLastRow sheet) + i)%nat)) news)
              !! key = Some row
            <-> (exists i b, news !! i = Some (key, b)
                             /\ row = (S (getLastRow sheet) + i)%nat)
                \/ ((key ∉ map fst news) /\ im !! key = Some row)) as Hidx.
  { intros key row. rewrite readIndex_app.
    apply indexStep_new_entries; [unfold getLastRow; lia|done|done]. }
  split.
  - intros key row Hrow. apply Hidx in Hrow as [(i & b & Hi & ->)|[_ Hm]].
    + destruct (Hnew _ _ _ Hi) as (H1 & Hl & Ht).
      destruct (email_kept_fold_applyUpdate ups sheet1 _ _ H1) as (r' & Hr' & He).
      { rewrite <- Hl in Ht. by rewrite truthy_toLowerCase in Ht. }
      exists r'. unfold getLastRow. split; [lia|].
      replace (S (S (length sheet)) + i - 2)%nat with (length sheet + i)%nat by lia.
      split; [done|]. by rewrite He.
    + destruct (Hc1 _ _ Hm) as (r & Hge & Hr & Hl).
      assert (sheet1 !! (row - 2)%nat = Some r) as H1 by (by apply lookup_app_l_Some).
      destruct (email_kept_fold_applyUpdate ups sheet1 _ _ H1 (Htr _ _ H1))
        as (r' & Hr' & He).
      exists r'. split; [done|]. split; [done|]. by rewrite He.
  - intros r' Hr'. apply list_elem_of_lookup in Hr' as [i Hi].
    assert (i < length sheet1)%nat as Hlt by (rewrite <- Hlen; by eapply lookup_lt_Some).
    apply lookup_lt_is_Some in Hlt as [r H1].
    destruct (email_kept_fold_applyUpdate ups sheet1 _ _ H1 (Htr _ _ H1))
      as (r'' & Hr'' & He).
    assert (r'' = r') as -> by congruence. rewrite He.
    assert (forall j k b, news !! j = Some (k, b) ->
              is_Some (readIndex
                (indexSheet ++ imap (fun i (kb : string * Bucket.t) =>
                                       (kb.1, (S (getLastRow sheet) + i)%nat)) news)
                !! k)) as Hin.
    { intros j k b Hj. eexists. apply Hidx. left. by exists j, b. }
    unfold sheet1 in H1. apply lookup_app_Some in H1 as [H1|[Hge H1]].
    + destruct (Hc2 r) as [row Hrow]; [by eapply list_elem_of_lookup_2|].
      destruct (decide (Js.toLowerCase (Row.email r) ∈ map fst news)) as [Hd|Hd].
      * change (map fst news) with (fst <$> news) in Hd.
        apply list_elem_of_fmap in Hd as ([k b] & Hkey & Hkb). simpl in Hkey.
        apply list_elem_of_lookup in Hkb as [j Hj]. rewrite Hkey. by eapply Hin.
      * exists row. apply Hidx. right. done.
    + change (map ?f) with (fmap (M:=list) f) in H1. rewrite list_lookup_fmap in H1.
      destruct (news !! (i - length sheet)%nat) as [[k b]|] eqn:E; [|done].
      injection H1 as <-. destruct (Hnew _ _ _ E) as (_ & Hl & _).
      rewrite Hl. by eapply Hin.
Qed.

(** ** The count of one sender through a merge *)

Lemma storedCount_app key s1 s2 :
  storedCount key (s1 ++ s2) = (storedCount key s1 + storedCount key s2)%Z.
Proof. unfold storedCount. by rewrite filter_app, map_app, sumZ_app. Qed.

Lemma storedCount_insert key (s : Sheet) i r v :
  s !! i = Some r -> Row.email v = Row.email r ->
  storedCount key (<[i := v]> s)
  = (storedCount key s
     + if decide (Js.toLowerCase (Row.email r) = key)
       then Row.count v - Row.count r else 0)%Z.
Proof.
  intros Hi He. revert i Hi. unfold storedCount.
  induction s as [|x s IH]; intros i Hi; [done|].
  destruct i as [|i]; simpl in Hi |- *.
  - injection Hi as ->. rewrite !filter_cons, He.
    destruct (decide (Js.toLowerCase (Row.email r) = key)); simpl; lia.
  - rewrite !filter_cons.
    destruct (decide (Js.toLowerCase (Row.email x) = key)); simpl; rewrite (IH i Hi); lia.
Qed.

Lemma applyUpdate_in_range sheet row B r :
  (2 <= row)%nat -> sheet !! (row - 2)%nat = Some r ->
  applyUpdate sheet (row, B) = <[(row - 2)%nat := mergeRowVals r B]> sheet.
Proof.
  intros Hrow Hr. unfold applyUpdate, setRow, getRow.
  assert ((row <? 2)%nat = false) as -> by (apply Nat.ltb_ge; lia).
  assert ((row - 2 <? length sheet)%nat = true) as ->
    by (apply Nat.ltb_lt; by eapply lookup_lt_Some).
  by rewrite (nth_lookup_Some _ _ _ _ Hr).
Qed.

Lemma storedCount_fold_applyUpdate key (us : list (nat * Bucket.t)) (s : Sheet) :
  (forall i r, s !! i = Some r -> Js.truthy (Row.email r) = true) ->
  Forall (fun u => (2 <= u.1)%nat
                   /\ exists r, s !! (u.1 - 2)%nat = Some r
                                /\ Js.toLowerCase (Row.email r) = Bucket.email u.2) us ->
  storedCount key (fold_left applyUpdate us s)
  = (storedCount key s
     + sumZ (map (fun u => Bucket.count u.2)
                 (filter (fun u => Bucket.email u.2 = key) us)))%Z.
Proof.
  revert s. induction us as [|[row B] us IH]; intros s Ht Hus.
  - simpl. lia.
  - apply Forall_cons in Hus as [(Hrow & r & Hr & He) Hus]. simpl in Hrow, Hr, He.
    cbn [fold_left]. rewrite (applyUpdate_in_range _ _ _ _ Hrow Hr).
    assert (Row.email (mergeRowVals r B) = Row.email r) as Hem.
    { simpl. unfold Js.or. by rewrite (Ht _ _ Hr). }
    assert (forall i x, s !! i = Some x ->
              exists x', <[(row - 2)%nat := mergeRowVals r B]> s !! i = Some x'
                         /\ Row.email x' = Row.email x) as Hkept.
    { intros i x Hi. destruct (decide (i = row - 2)%nat) as [->|Hne].
      - rewrite list_lookup_insert_eq by (by eapply lookup_lt_Some).
        eexists. split; [done|]. congruence.
      - rewrite list_lookup_insert_ne by done. by exists x. }
    rewrite IH.
    + rewrite (storedCount_insert _ _ _ _ _ Hr Hem), filter_cons. cbn [snd].
      rewrite He. destruct (decide (Bucket.email B = key)); simpl; lia.
    + intros i x' Hi.
      assert (i < length s)%nat as Hlt.
      { apply lookup_lt_Some in Hi. by rewrite length_insert in Hi. }
      apply lookup_lt_is_Some in Hlt as [x Hx].
      destruct (Hkept _ _ Hx) as (x'' & Hx'' & Hex).
      assert (x'' = x') as -> by congruence. rewrite Hex. by eapply Ht.
    + eapply Forall_impl; [exact Hus|].
      intros [row' B'] (Hrow' & x & Hx & Hex). simpl in *. split; [done|].
      destruct (Hkept _ _ Hx) as (x' & Hx' & Hex'). exists x'. split; [done|].
      by rewrite Hex'.
Qed.

Lemma filedUnder_absent key (rm : RunMap) : key ∉ map fst rm -> filedUnder key rm = 0%Z.
Proof.
  unfold filedUnder. induction rm as [|[k b] rm IH]; intros H; [done|].
  rewrite filter_cons. cbn [fst map] in *.
  rewrite decide_False by (intros ->; apply H; left).
  apply IH. intros Hin. apply H. by right.
Qed.

Lemma bucketCount_filedUnder key (rm : RunMap) :
  NoDup (map fst rm) -> bucketCount key rm = filedUnder key rm.
Proof.
  unfold bucketCount. induction rm as [|[k b] rm IH]; intros Hnd; [done|].
  cbn [map fst] in Hnd. apply NoDup_cons in Hnd as [Hk Hnd].
  unfold filedUnder. rewrite filter_cons. cbn [rmGet fst].
  destruct (String.eqb_spec k key) as [->|Hne].
  - rewrite decide_True by done. cbn [map sumZ snd].
    pose proof (filedUnder_absent key rm Hk) as H0. unfold filedUnder in H0. lia.
  - rewrite decide_False by done. by apply IH.
Qed.

Lemma storedCount_built_rows key (rm : RunMap) :
  (forall k b, (k, b) ∈ rm -> Js.toLowerCase (Bucket.email b) = k) ->
  storedCount key (map (fun kb => buildRowFromBucket kb.2) rm) = filedUnder key rm.
Proof.
  unfold storedCount, filedUnder. induction rm as [|[k b] rm IH]; intros H; [done|].
  cbn [map snd]. rewrite !filter_cons. cbn [fst Row.email buildRowFromBucket].
  rewrite (H k b) by left.
  destruct (decide (k = key)); cbn [map sumZ snd Row.count buildRowFromBucket];
    rewrite IH by (intros k' b' Hin; apply H; by right); done.
Qed.

Lemma filedUnder_partition key (im : gmap string nat) (rm : RunMap) :
  (forall k b, (k, b) ∈ rm -> Bucket.email b = k) ->
  filedUnder key rm
  = (filedUnder key (filter (fun kb : string * Bucket.t => im !! kb.1 = None) rm)
     + sumZ (map (fun u : nat * Bucket.t => Bucket.count u.2)
                 (filter (fun u : nat * Bucket.t => Bucket.email u.2 = key)
                         (omap (fun kb : string * Bucket.t =>
                                  match im !! kb.1 with
                                  | Some row => Some (row, kb.2)
                                  | None => None
                                  end) rm))))%Z.
Proof.
  unfold filedUnder. induction rm as [|[k b] rm IH]; intros H; [done|].
  assert (Bucket.email b = k) as He by (apply H; left).
  specialize (IH (fun k' b' Hin => H k' b' (list_elem_of_further _ _ _ Hin))).
  rewrite (filter_cons (fun kb => kb.1 = key)).
  rewrite (filter_cons (fun kb : string * Bucket.t => im !! kb.1 = None)).
  cbn [omap list_omap fst snd]. destruct (im !! k) as [row|] eqn:E.
  - destruct (decide (Some row = None)) as [?|_]; [done|].
    rewrite (filter_cons (fun u : nat * Bucket.t => Bucket.email u.2 = key)).
    cbn [snd]. rewrite He.
    destruct (decide (k = key)); cbn [map sumZ snd]; lia.
  - destruct (decide (None = None)) as [_|?]; [|done].
    rewrite (filter_cons (fun kb => kb.1 = key)). cbn [fst].
    destruct (decide (k = key)); cbn [map sumZ snd]; lia.
Qed.

Lemma storedCount_mergeWrites sheet indexSheet (runMap : RunMap) key :
  IndexConsistent sheet indexSheet -> wellKeyed runMap ->
  storedCount key (mergeWrites sheet indexSheet runMap).1
  = (storedCount key sheet + bucketCount key runMap)%Z.
Proof.
  intros [Hc1 Hc2] [Hnd Hk]. unfold mergeWrites. cbv zeta. cbn [fst].
  set (im := readIndex indexSheet) in *.
  assert (forall k b, (k, b) ∈ runMap -> Js.toLowerCase k = k) as Hlow.
  { intros k b H. destruct (Hk k b H) as (_ & Hl & _).
    rewrite <- Hl at 1. by rewrite toLowerCase_idem. }
  rewrite storedCount_fold_applyUpdate.
  - rewrite storedCount_app, storedCount_built_rows.
    + rewrite (bucketCount_filedUnder _ _ Hnd), (filedUnder_partition key im runMap).
      * lia.
      * intros k b H. by destruct (Hk k b H) as (_ & _ & ?).
    + intros k b H. apply list_elem_of_filter in H as [_ H].
      destruct (Hk k b H) as (_ & _ & ->). by eapply Hlow.
  - intros i r Hi. apply lookup_app_Some in Hi as [Hi|[_ Hi]].
    + destruct (Hc2 r) as [row Hrow]; [by eapply list_elem_of_lookup_2|].
      apply readIndex_key_truthy in Hrow. by rewrite truthy_toLowerCase in Hrow.
    + change (map ?f) with (fmap (M:=list) f) in Hi. rewrite list_lookup_fmap in Hi.
      destruct (filter _ runMap !! _) as [[k b]|] eqn:E; [|done].
      injection Hi as <-. apply list_elem_of_lookup_2, list_elem_of_filter in E as [_ E].
      destruct (Hk k b E) as (Ht & _ & He). simpl. by rewrite He.
  - apply Forall_forall. intros [row B] Hu.
    apply list_elem_of_omap in Hu as ([k b] & Hkb & Hu). simpl in Hu.
    destruct (im !! k) as [row'|] eqn:E; [|done]. injection Hu as <- <-.
    destruct (Hc1 _ _ E) as (r & Hge & Hr & Hl). simpl. split; [done|].
    exists r. split; [by apply lookup_app_l_Some|].
    destruct (Hk k b Hkb) as (_ & _ & ->). done.
Qed.


Lemma IndexConsistent_empty : IndexConsistent [] [].
Proof.
  split.
  - intros key row H. change (readIndex []) with (∅ : gmap string nat) in H.
    by rewrite lookup_empty in H.
  - intros r H. by inversion H.
Qed.



(** X15. With a right index a merge credits every sender its own
    messages: for each sender the stored count grows by exactly the
    number of counted messages of that sender in the run map, whatever
    the sort then does to the rows. *)
Theorem merge_credits_each_sender
    (sheet : Sheet) (indexSheet : IndexSheet) (msgs : list Msg) (key : string) :
  IndexConsistent sheet indexSheet ->
  storedCount key (mergeRunMapUsingIndex sheet indexSheet (processMessages msgs [])).1
  = (storedCount key sheet + occurrences key [msgs])%Z.
Proof.
  intros Hc. destruct (processMessages_counts_each_key_aux msgs key) as (Hn & _ & _).
  pose proof (storedCount_mergeWrites sheet indexSheet _ key Hc
                (wellKeyed_processMessages msgs)) as Hm.
  rewrite Hn in Hm. unfold mergeRunMapUsingIndex.
  destruct (processMessages msgs []) as [|kb rm].
  - change (bucketCount key []) with 0%Z in Hn. rewrite <- Hn. cbn [fst]. lia.
  - destruct (mergeWrites sheet indexSheet (kb :: rm)) as [sheet' index'].
    cbn [fst] in *. by rewrite (storedCount_perm key _ _ (sortByCountDesc_perm sheet')).
Qed.

Lemma merge_credits_each_sender_witness :
  let store := mergeWrites [] [] (processMessages [fromAnn; fromBob] []) in
  let msgs := [fromBob; fromCat; fromBob] in
  IndexConsistent store.1 store.2
  /\ storedCount "bob@y.org"
       (mergeRunMapUsingIndex store.1 store.2 (processMessages msgs [])).1
     = (storedCount "bob@y.org" store.1 + occurrences "bob@y.org" [msgs])%Z.
Proof.
  cbv zeta.
  assert (IndexConsistent
            (mergeWrites [] [] (processMessages [fromAnn; fromBob] [])).1
            (mergeWrites [] [] (processMessages [fromAnn; fromBob] [])).2) as Hc.
  { apply mergeWrites_IndexConsistent;
      [apply IndexConsistent_empty|apply wellKeyed_processMessages]. }
  split; [exact Hc|].
  apply (merge_credits_each_sender _ _ _ _ Hc).
Defined.

(** ** The user properties that a scan leaves alone *)

Lemma checkpoint_props_other w rm c t k :
  k <> KEYS.CURSOR -> k <> KEYS.TOTAL_PROCESSED ->
  props (checkpoint w rm c t) !! k = props w !! k.
Proof.
  intros Hc Ht. unfold checkpoint. destruct (mergeRunMapUsingIndex _ _ _). cbn [props].
  by rewrite !lookup_insert_ne.
Qed.

Lemma mainLoop_props_other fuel env runStart st st' k :
  k <> KEYS.CURSOR -> k <> KEYS.TOTAL_PROCESSED ->
  mainLoop fuel env runStart st = Some st' ->
  props (world st') !! k = props (world st) !! k.
Proof.
  intros Hc Ht. revert st st'. induction fuel as [|fuel IH]; intros st st' H; [done|].
  cbn [mainLoop] in H.
  destruct (overLimit env runStart (tick st)); [by injection H as <-|].
  destruct (isEmpty (search env (cursor st) CONFIG.PAGE_SIZE_THREADS));
    [by injection H as <-|].
  destruct (processThreads env runStart _ (S (tick st)) (runMap st)) as [[rm' t'] rest].
  destruct (_ && negb (isEmpty rm')) in H; apply IH in H; cbn [world] in H; [|done].
  by rewrite H, checkpoint_props_other.
Qed.

Lemma initialise_props_other w k :
  k <> KEYS.CURSOR -> k <> KEYS.TOTAL_PROCESSED -> k <> KEYS.INITIALIZED ->
  props (initialise w) !! k = props w !! k.
Proof.
  intros Hc Ht Hi. unfold initialise. destruct (negb _); [|done]. cbn [props].
  by rewrite !lookup_insert_ne.
Qed.

Lemma finish_props_other st env k :
  k <> KEYS.CURSOR -> k <> KEYS.TOTAL_PROCESSED -> k <> KEYS.INITIALIZED ->
  props (finish st env).1 !! k = props (world st) !! k.
Proof.
  intros Hc Ht Hi. unfold finish.
  assert (props (if negb (isEmpty (runMap st))
                 then checkpoint (world st) (runMap st) (cursor st) (totalProcessed st)
                 else world st) !! k = props (world st) !! k) as H.
  { destruct (negb _); [by apply checkpoint_props_other|done]. }
  destruct (isEmpty (search env (cursor st) 1)); cbn [fst props].
  - by rewrite !lookup_delete_ne.
  - by rewrite !lookup_insert_ne.
Qed.

Lemma buildSenderReportBatch_props_other env w w' o k :
  k <> KEYS.CURSOR -> k <> KEYS.TOTAL_PROCESSED -> k <> KEYS.INITIALIZED ->
  buildSenderReportBatch env w = Some (w', o) ->
  props w' !! k = props w !! k.
Proof.
  intros Hc Ht Hi. unfold buildSenderReportBatch.
  destruct (readCount _ KEYS.CURSOR) as [c|];
    [|intros [= <- _]; by apply initialise_props_other].
  destruct (isEmpty (search env c 1)); [intros [= <- _]; by apply initialise_props_other|].
  destruct (mainLoop _ _ _ _) as [st|] eqn:Hloop; [|done].
  intros [= Hfin]. apply (f_equal fst) in Hfin. cbn [fst] in Hfin. rewrite <- Hfin.
  rewrite finish_props_other by done.
  apply (mainLoop_props_other _ _ _ _ _ k Hc Ht) in Hloop. cbn [world] in Hloop.
  rewrite Hloop. by apply initialise_props_other.
Qed.



(** ** Automatic scanning *)



Lemma filter_not_handler_idem (h : string) (l : list string) :
  filter (fun x => x <> h) (filter (fun x => x <> h) l) = filter (fun x => x <> h) l.
Proof.
  induction l as [|x l IH]; [done|]. rewrite filter_cons.
  destruct (decide (x <> h)); [|done]. by rewrite filter_cons, decide_True, IH.
Qed.

Lemma filter_handler_removed (h : string) (l : list string) :
  filter (fun x => x = h) (filter (fun x => x <> h) l) = [].
Proof.
  induction l as [|x l IH]; [done|]. rewrite filter_cons.
  destruct (decide (x <> h)); [|done]. by rewrite filter_cons, decide_False.
Qed.

(** X17. However many triggers of the batch handler the project has,
    after [startAutoScan] it has exactly one, the triggers of other
    handlers are the ones it had, and the auto-scan flag is set; this
    holds also when the first batch throws. *)
Theorem startAutoScan_leaves_one_trigger (env : Env) (p : Project) :
  exists p' returned,
    startAutoScan env p = Some (p', returned)
    /\ filter (fun h => h = "autoScanBatch") (triggers p') = ["autoScanBatch"]
    /\ filter (fun h => h <> "autoScanBatch") (triggers p')
       = filter (fun h => h <> "autoScanBatch") (triggers p)
    /\ isAutoScanEnabled p' = true.
Proof.
  unfold startAutoScan. cbv zeta.
  destruct (buildSenderReportBatch_total env
              (setProps (store (stopAutoScan p))
                 (<[KEYS.AUTO_SCAN_ENABLED := "true"]> (props (store (stopAutoScan p))))))
    as [[w o] Hrun].
  rewrite Hrun.
  assert (props w !! KEYS.AUTO_SCAN_ENABLED = Some "true") as Hflag.
  { rewrite (buildSenderReportBatch_props_other _ _ _ _ KEYS.AUTO_SCAN_ENABLED
               ltac:(done) ltac:(done) ltac:(done) Hrun).
    cbn [setProps props]. by rewrite lookup_insert_eq. }
  assert (filter (fun h => h = "autoScanBatch")
            (triggers (stopAutoScan p) ++ ["autoScanBatch"]) = ["autoScanBatch"]) as H1.
  { rewrite filter_app. cbn [stopAutoScan triggers].
    by rewrite filter_handler_removed. }
  assert (filter (fun h => h <> "autoScanBatch")
            (triggers (stopAutoScan p) ++ ["autoScanBatch"])
          = filter (fun h => h <> "autoScanBatch") (triggers p)) as H2.
  { rewrite filter_app. cbn [stopAutoScan triggers].
    rewrite filter_not_handler_idem.
    rewrite filter_cons, decide_False by (intros H; by apply H). apply app_nil_r. }
  assert (forall q, store q = w -> isAutoScanEnabled q = true) as H3.
  { intros q Hq. unfold isAutoScanEnabled. rewrite Hq, Hflag. done. }
  destruct o; eexists _, _; (split; [reflexivity|]); cbn [triggers];
    (split; [exact H1|]); (split; [exact H2|]); by apply H3.
Qed.

Lemma readCount_absent (m : gmap string string) key :
  m !! key = None -> readCount m key = Some 0%nat.
Proof. intros H. unfold readCount. rewrite H. reflexivity. Qed.


Lemma autoScanBatch_in_budget (env : Env) (p : Project) :
  threads env <> [] ->
  (forall i, (now env i - now env 0 <= CONFIG.RUNTIME_HARD_LIMIT_MS)%Z) ->
  Js.truthyO (props (store p) !! KEYS.INITIALIZED) = false ->
  exists w',
    autoScanBatch env p = Some {| store := w'; triggers := triggers p |}
    /\ totalEmails (sheet w')
       = (totalEmails (sheet (store p)) + countedIn (threads env))%Z
    /\ props w' !! KEYS.INITIALIZED = None.
Proof.
  intros Hany Hb Hfresh.
  destruct (scan_in_budget env (store p) Hany Hb Hfresh)
    as (w' & r & Hrun & _ & _ & _ & _ & Htot & Hpc & Hpi).
  exists w'. unfold autoScanBatch. rewrite Hrun, (readCount_absent _ _ Hpc).
  by rewrite (first_probe_nonempty env Hany).
Qed.

(** X19. Automatic scanning does not end when the scan does.  A batch
    that reads a non-empty mailbox to its end within the time budget
    clears the stored cursor, the check that follows reads cursor 0 and
    finds a thread, and the trigger stays; the next batch on the same
    mailbox starts from thread 0 and adds every counted message to the
    store a second time. *)
Theorem auto_scan_counts_the_mailbox_again (env1 env2 : Env) (p : Project)
    (Hsame : threads env2 = threads env1)
    (Hany : threads env1 <> [])
    (Hbudget1 : forall i, (now env1 i - now env1 0 <= CONFIG.RUNTIME_HARD_LIMIT_MS)%Z)
    (Hbudget2 : forall i, (now env2 i - now env2 0 <= CONFIG.RUNTIME_HARD_LIMIT_MS)%Z)
    (Hfresh : Js.truthyO (props (store p) !! KEYS.INITIALIZED) = false) :
  exists p1 p2,
    autoScanBatch env1 p = Some p1
    /\ autoScanBatch env2 p1 = Some p2
    /\ triggers p2 = triggers p
    /\ totalEmails (sheet (store p2))
       = (totalEmails (sheet (store p)) + 2 * countedIn (threads env1))%Z.
Proof.
  destruct (autoScanBatch_in_budget env1 p Hany Hbudget1 Hfresh)
    as (w1 & Hrun1 & Htot1 & Hi1).
  destruct (autoScanBatch_in_budget env2 {| store := w1; triggers := triggers p |})
    as (w2 & Hrun2 & Htot2 & _);
    [by rewrite Hsame|done|by cbn [store]; rewrite Hi1|].
  eexists _, _. split; [exact Hrun1|]. split; [exact Hrun2|].
  cbn [store triggers] in *. split; [done|]. rewrite Htot2, Htot1, Hsame. lia.
Qed.

Lemma auto_scan_counts_the_mailbox_again_witness :
  let env := {| threads := [[fromAnn]; [fromBob; fromAnn]]; now := fun _ => 0%Z |} in
  let p := {| store := freshWorld; triggers := ["autoScanBatch"] |} in
  exists p1 p2,
    autoScanBatch env p = Some p1
    /\ autoScanBatch env p1 = Some p2
    /\ triggers p2 = ["autoScanBatch"]
    /\ totalEmails (sheet (store p2)) = 6%Z.
Proof.
  cbv zeta.
  assert (forall i : nat,
            (now {| threads := [[fromAnn]; [fromBob; fromAnn]]; now := fun _ => 0%Z |} i
             - now {| threads := [[fromAnn]; [fromBob; fromAnn]]; now := fun _ => 0%Z |} 0
             <= CONFIG.RUNTIME_HARD_LIMIT_MS)%Z) as Hb by (intros i; done).
  destruct (auto_scan_counts_the_mailbox_again
              {| threads := [[fromAnn]; [fromBob; fromAnn]]; now := fun _ => 0%Z |}
              {| threads := [[fromAnn]; [fromBob; fromAnn]]; now := fun _ => 0%Z |}
              {| store := freshWorld; triggers := ["autoScanBatch"] |}
              eq_refl ltac:(done) Hb Hb eq_refl)
    as (p1 & p2 & H1 & H2 & Ht & Htot).
  exists p1, p2. split; [exact H1|]. split; [exact H2|]. split; [exact Ht|].
  rewrite Htot. reflexivity.
Defined.

(** ** The status after a batch *)

Lemma readCount_numToString (m : gmap string string) key t :
  m !! key = Some (numToString t) -> readCount m key = t.
Proof.
  destruct t as [n|]; [apply readCount_stored|].
  intros H. unfold readCount. rewrite H. reflexivity.
Qed.

(** X20. What [startScanApi] reports after a batch that ran.  If the
    batch did not reach the end of the mailbox the status is
    in_progress with the cursor and the total of the batch.  If it did,
    the resumption state is cleared, so the report is not_started with
    cursor 0 and zero threads processed, under the message that the scan
    is complete: a batch that ran is never followed by the status
    complete. *)
Theorem startScanApi_report_after_a_batch
    (env : Env) (p : Project) (w' : World) (r : Result) :
  buildSenderReportBatch env (store p) = Some (w', Finished r) ->
  exists report message,
    startScanApi env p
    = Some ({| store := w'; triggers := triggers p |}, Some (report, message))
    /\ Status.hasMore report = negb (done r)
    /\ Status.status report = (if done r then not_started else in_progress)
    /\ Status.cursor report = Some (if done r then 0%nat else finalCursor r)
    /\ Status.totalProcessed report = (if done r then Some 0%nat else finalTotal r)
    /\ message = (if done r then "Scan complete" else "Batch complete, more to scan")
    /\ Status.senderCount report = Stats.senderCount (getSheetStats (sheet w'))
    /\ Status.totalEmails report = Stats.totalEmails (getSheetStats (sheet w')).
Proof.
  intros Hrun. unfold startScanApi. rewrite Hrun. cbv zeta.
  assert (forall q, (if negb (isEmpty (sheet q)) then getSheetStats (sheet q)
                     else {| Stats.senderCount := 0; Stats.totalEmails := 0 |})
                    = getSheetStats (sheet q)) as Hstats.
  { intros q. by destruct (sheet q). }
  unfold buildSenderReportBatch in Hrun.
  destruct (readCount (props (initialise (store p))) KEYS.CURSOR) as [c|]; [|done].
  destruct (isEmpty (search env c 1)); [done|].
  destruct (mainLoop _ _ _ _) as [st|] eqn:Hloop; [|done].
  injection Hrun as Hfin.
  apply mainLoop_spec in Hloop as (_ & Hinit & _). cbn [world] in Hinit.
  apply finish_spec in Hfin as (Hr & _ & Hdone & Hmore). injection Hr as ->.
  cbn [done finalCursor finalTotal].
  unfold getStatusApi. cbn [store]. rewrite Hstats.
  destruct (isEmpty (search env (cursor st) 1)) eqn:He.
  - destruct (Hdone eq_refl) as (Hpc & Hpt & Hpi).
    rewrite Hpi, (readCount_absent _ _ Hpc), (readCount_absent _ _ Hpt).
    cbn [Js.truthyO fmap option_fmap option_map]. by eexists _, _.
  - destruct (Hmore eq_refl) as (Hpc & Hpt & Hpi).
    rewrite Hpi, Hinit, initialise_initialized.
    rewrite (readCount_stored _ _ _ Hpc), (readCount_numToString _ _ _ Hpt), He.
    cbn [negb fmap option_fmap option_map]. by eexists _, _.
Qed.

Lemma startScanApi_report_after_a_batch_witness :
  let env := {| threads := [[fromAnn]; [fromBob; fromAnn]]; now := fun _ => 0%Z |} in
  let p := {| store := freshWorld; triggers := [] |} in
  exists w' report,
    startScanApi env p
    = Some ({| store := w'; triggers := [] |}, Some (report, "Scan complete"))
    /\ Status.status report = not_started
    /\ Status.cursor report = Some 0%nat.
Proof.
  cbv zeta.
  destruct (scan_in_budget
              {| threads := [[fromAnn]; [fromBob; fromAnn]]; now := fun _ => 0%Z |}
              freshWorld ltac:(done) ltac:(intros i; done) eq_refl)
    as (w' & r & Hrun & Hd & _).
  destruct (startScanApi_report_after_a_batch
              {| threads := [[fromAnn]; [fromBob; fromAnn]]; now := fun _ => 0%Z |}
              {| store := freshWorld; triggers := [] |} w' r Hrun)
    as (report & message & Hs & _ & Hst & Hc & _ & Hm & _).
  rewrite Hd in Hst, Hc, Hm. subst message.
  exists w', report. split; [exact Hs|]. split; [exact Hst|exact Hc].
Defined.

(** ** Deleting the mail of a sender *)

Lemma deleteLoop_total {A} fuel (found : list A) start total :
  (length found - start < fuel)%nat ->
  exists left n, deleteLoop fuel found start total = Some (left, n).
Proof.
  revert found start total. induction fuel as [|fuel IH]; intros found start total Hf; [lia|].
  cbn [deleteLoop]. cbv zeta.
  destruct (take 100 (drop start found)) as [|t ts] eqn:E; [by eexists _, _|].
  cbn [isEmpty]. apply IH.
  assert (start < length found)%nat as Hlt.
  { destruct (decide (start < length found)%nat) as [H|H]; [done|].
    rewrite drop_ge in E by lia. done. }
  rewrite length_app, length_take, length_drop. lia.
Qed.

Lemma deleteLoop_accounts {A} fuel (found left : list A) start total n :
  deleteLoop fuel found start total = Some (left, n) ->
  (n + length left = total + length found)%nat.
Proof.
  revert found start total. induction fuel as [|fuel IH]; intros found start total H; [done|].
  cbn [deleteLoop] in H. cbv zeta in H.
  destruct (isEmpty (take 100 (drop start found))) eqn:E.
  - injection H as <- <-. lia.
  - assert (start < length found)%nat as Hlt.
    { destruct (decide (start < length found)%nat) as [Hd|Hd]; [done|].
      rewrite drop_ge in E by lia. done. }
    apply IH in H. rewrite H.
    rewrite length_app, !length_take, !length_drop. lia.
Qed.

Lemma deleteLoop_mono {A} fuel (found left : list A) start total n :
  deleteLoop fuel found start total = Some (left, n) -> (total <= n)%nat.
Proof.
  revert found start total. induction fuel as [|fuel IH]; intros found start total H; [done|].
  cbn [deleteLoop] in H. cbv zeta in H.
  destruct (isEmpty (take 100 (drop start found))).
  - injection H as <- <-. lia.
  - apply IH in H. lia.
Qed.

Lemma deleteLoop_prefix {A} fuel (found left : list A) start total n :
  deleteLoop fuel found start total = Some (left, n) ->
  take start left = take start found.
Proof.
  revert found start total. induction fuel as [|fuel IH]; intros found start total H; [done|].
  cbn [deleteLoop] in H. cbv zeta in H.
  destruct (isEmpty (take 100 (drop start found))) eqn:E.
  - by injection H as <- <-.
  - assert (start < length found)%nat as Hlt.
    { destruct (decide (start < length found)%nat) as [Hd|Hd]; [done|].
      rewrite drop_ge in E by lia. done. }
    apply IH in H.
    apply (f_equal (take start)) in H.
    rewrite !take_take, Nat.min_l in H by lia. rewrite H.
    rewrite take_app_le by (rewrite length_take; lia).
    rewrite take_take. f_equal. lia.
Qed.

(** X21. [deleteAllFromSender] pages through a search whose results
    shrink as it trashes them, and advances its offset all the same.
    The number it reports is the number of threads it moved to the
    trash.  A sender with at most 100 threads loses all of them.  For a
    sender with more, the threads that were the second hundred of the
    search are all still in the mailbox when the function returns. *)
Theorem deleteAllFromSender_leaves_the_second_page {A} (found : list A) :
  exists left n,
    deleteAllFromSender found = Some (left, n)
    /\ (n + length left = length found)%nat
    /\ ((length found <= 100)%nat -> left = [])
    /\ take 100 left = take 100 (drop 100 found).
Proof.
  unfold deleteAllFromSender.
  destruct (deleteLoop_total (S (length found)) found 0 0) as (left & n & H); [lia|].
  exists left, n. split; [exact H|].
  pose proof (deleteLoop_accounts _ _ _ _ _ _ H) as Hacc.
  split; [lia|].
  cbn [deleteLoop] in H. cbv zeta in H. rewrite drop_0 in H.
  destruct (take 100 found) as [|t ts] eqn:E.
  - cbn [isEmpty] in H. injection H as <- <-.
    assert (found = []) as -> by (by destruct found). done.
  - cbn [isEmpty] in H. rewrite take_0, app_nil_l, !Nat.add_0_l in H.
    pose proof (deleteLoop_mono _ _ _ _ _ _ H) as Hmono.
    apply deleteLoop_prefix in H. split; [|exact H].
    intros Hle. rewrite <- E, length_take in Hmono.
    destruct left; [done|]. simpl in Hacc. lia.
Qed.

(** ** The action executor *)

Lemma checkedRowsLoop_spec options out rows i :
  Forall2 (fun r r' => (isChecked r = false -> r' = r)
                       /\ (isChecked r = true -> dealtWith r r'))
          rows (checkedRowsLoop options out i rows).1.1
  /\ ((checkedRowsLoop options out i rows).1.2 + (checkedRowsLoop options out i rows).2
      = length (filter (fun r => isChecked r = true) rows))%nat
  /\ ((checkedRowsLoop options out i rows).2 = 0%nat ->
      Forall (fun r' => isChecked r' = false) (checkedRowsLoop options out i rows).1.1).
Proof.
  revert i. induction rows as [|r rows IH]; intros i.
  - simpl. split; [constructor|]. split; [done|]. constructor.
  - cbn [checkedRowsLoop]. specialize (IH (S i)).
    destruct (checkedRowsLoop options out (S i) rows) as [[rest acted] errors].
    cbn [fst snd] in IH. destruct IH as (Hrows & Hcount & Hclean).
    rewrite filter_cons. cbv zeta.
    assert (negb (Row.act r) || negb (Js.truthy (Js.trim (Row.email r)))
            = negb (isChecked r)) as ->.
    { unfold isChecked. by destruct (Row.act r), (Js.truthy _). }
    destruct (decide (isChecked r = true)) as [Hc|Hc].
    + rewrite Hc. cbn [negb].
      destruct (runActions options out i _ _ _) as [notes|message]; cbn [fst snd].
      * split; [constructor; [|done]|].
        { split; [congruence|]. intros _. left. by eexists _, _. }
        split; [simpl; lia|]. intros He0. constructor; [done|by apply Hclean].
      * split; [constructor; [|done]|].
        { split; [congruence|]. intros _. right. by eexists. }
        split; [simpl; lia|]. done.
    + apply not_true_is_false in Hc. rewrite Hc. cbn [negb fst snd].
      split; [constructor; [|done]|].
      { split; [done|congruence]. }
      split; [done|]. intros He0. constructor; [done|by apply Hclean].
Qed.

Lemma dealtWith_senderColumns r r' : dealtWith r r' -> senderColumns r' = senderColumns r.
Proof. by intros [(notes & stamp & ->)|(message & ->)]. Qed.

Lemma no_checked_rows (sheet : Sheet) :
  Forall (fun r => isChecked r = false) sheet ->
  length (filter (fun r => isChecked r = true) sheet) = 0%nat.
Proof.
  induction 1 as [|r l Hr H IH]; [done|].
  rewrite filter_cons, decide_False by congruence. done.
Qed.

(** X22. The executor of the checked rows keeps every row in its place
    and never changes what a row says about its sender: address, name,
    count, subject, last date and unsubscribe targets.  A row that is
    not checked, or has no address, is left as it is.  A checked row is
    either unchecked, stamped and annotated with the results, or, when
    an action throws, keeps its check and gets a note that starts with
    ERROR.  The two counters add up to the number of checked rows, and
    after a run without errors a second run finds nothing to do. *)
Theorem processCheckedRows_touches_only_checked_rows
    (options : Options) (out : Outside) (sheet : Sheet) :
  let result := processCheckedRows options out sheet in
  let sheet' := result.1.1 in
  let acted := result.1.2 in
  let errors := result.2 in
  length sheet' = length sheet
  /\ (forall i r, sheet !! i = Some r ->
        exists r', sheet' !! i = Some r'
          /\ senderColumns r' = senderColumns r
          /\ (isChecked r = false -> r' = r)
          /\ (isChecked r = true -> dealtWith r r'))
  /\ (acted + errors = length (filter (fun r => isChecked r = true) sheet))%nat
  /\ (errors = 0%nat ->
      forall out2, processCheckedRows options out2 sheet' = (sheet', 0%nat, 0%nat)).
Proof.
  cbv zeta.
  assert (forall sh : Sheet,
            length (filter (fun r => isChecked r = true) sh) = 0%nat ->
            forall out2, processCheckedRows options out2 sh = (sh, 0%nat, 0%nat)) as Hidle.
  { intros sh H0 out2. unfold processCheckedRows. rewrite H0.
    by destruct (isEmpty sh). }
  destruct (length (filter (fun r => isChecked r = true) sheet)) as [|n] eqn:Hcnt.
  - rewrite (Hidle sheet Hcnt). cbn [fst snd].
    split; [done|]. split; [|split; [done|intros _; by apply Hidle]].
    intros i r Hi. exists r. split; [done|]. split; [done|]. split; [done|].
    intros Hc. exfalso.
    assert (r ∈ filter (fun r => isChecked r = true) sheet) as Hin.
    { apply list_elem_of_filter. split; [done|]. by eapply list_elem_of_lookup_2. }
    destruct (filter (fun r => isChecked r = true) sheet); [by inversion Hin|done].
  - assert (processCheckedRows options out sheet = checkedRowsLoop options out 0 sheet)
      as ->.
    { unfold processCheckedRows. rewrite Hcnt.
      destruct sheet; [done|reflexivity]. }
    destruct (checkedRowsLoop_spec options out sheet 0) as (Hrows & Hsum & Hclean).
    rewrite Hcnt in Hsum.
    split; [symmetry; by eapply Forall2_length|].
    split; [|split; [exact Hsum|]].
    + intros i r Hi.
      destruct (Forall2_lookup_l _ _ _ _ _ Hrows Hi) as (r' & Hi' & Hsame & Hdealt).
      exists r'. split; [done|]. split; [|done].
      destruct (isChecked r) eqn:Hc.
      * by apply dealtWith_senderColumns, Hdealt.
      * by rewrite Hsame.
    + intros He. apply Hidle, no_checked_rows, Hclean, He.
Qed.

Lemma actionRowsLoop_spec emailSet options out rows i :
  Forall2 (fun r r' => (inSet (emailKey r) emailSet = false -> r' = r)
                       /\ (inSet (emailKey r) emailSet = true -> dealtWith r r'))
          rows (actionRowsLoop emailSet options out i rows).1
  /\ (actionRowsLoop emailSet options out i rows).2
     = length (filter (fun r => inSet (emailKey r) emailSet = true) rows).
Proof.
  revert i. induction rows as [|r rows IH]; intros i.
  - simpl. split; [constructor|done].
  - cbn [actionRowsLoop]. specialize (IH (S i)).
    destruct (actionRowsLoop emailSet options out (S i) rows) as [rest processed].
    cbn [fst snd] in IH. destruct IH as (Hrows & Hcount).
    rewrite filter_cons. cbv zeta.
    destruct (decide (inSet (emailKey r) emailSet = true)) as [Hc|Hc].
    + rewrite Hc. cbn [negb].
      destruct (runActions options out i _ _ _) as [notes|message]; cbn [fst snd].
      * split; [constructor; [|done]|simpl; lia].
        split; [congruence|]. intros _. left. by eexists _, _.
      * split; [constructor; [|done]|simpl; lia].
        split; [congruence|]. intros _. right. by eexists.
    + apply not_true_is_false in Hc. rewrite Hc. cbn [negb fst snd].
      split; [constructor; [|done]|done].
      split; [done|congruence].
Qed.

(** X23. [doActionApi] refuses an empty list of addresses.  Otherwise
    it deals with exactly the rows whose address, trimmed and in lower
    case, equals one of the given addresses in lower case, whether they
    are checked or not: each such row is unchecked, stamped and
    annotated, or gets a note that starts with ERROR when an action
    throws, and both kinds count as processed.  Every other row is left
    as it is, every row stays in its place, and no row loses what it
    says about its sender. *)
Theorem doActionApi_touches_only_named_rows
    (emails : list string) (options : Options) (out : Outside) (sheet : Sheet) :
  let named (r : Row.t) := Exists (fun e => Js.toLowerCase e = emailKey r) emails in
  match doActionApi emails options out sheet with
  | None => emails = []
  | Some (sheet', processed) =>
      emails <> []
      /\ length sheet' = length sheet
      /\ (forall i r, sheet !! i = Some r ->
            exists r', sheet' !! i = Some r'
              /\ senderColumns r' = senderColumns r
              /\ (named r -> dealtWith r r')
              /\ (~ named r -> r' = r))
      /\ processed = length (filter named sheet)
  end.
Proof.
  cbv zeta. unfold doActionApi. destruct emails as [|e emails]; [done|].
  cbn [isEmpty].
  destruct (actionRowsLoop_spec (map Js.toLowerCase (e :: emails)) options out sheet 0)
    as (Hrows & Hcount).
  destruct (actionRowsLoop _ options out 0 sheet) as [sheet' processed].
  cbn [fst snd] in *.
  split; [done|]. split; [symmetry; by eapply Forall2_length|]. split.
  - intros i r Hi.
    destruct (Forall2_lookup_l _ _ _ _ _ Hrows Hi) as (r' & Hi' & Hsame & Hdealt).
    exists r'. split; [done|].
    destruct (inSet (emailKey r) (map Js.toLowerCase (e :: emails))) eqn:Hin.
    + split; [by apply dealtWith_senderColumns, Hdealt|].
      split; [intros _; by apply Hdealt|].
      intros Hn. exfalso. apply Hn. by apply inSet_lower.
    + rewrite Hsame by done. split; [done|]. split; [|done].
      intros Hn. apply inSet_lower in Hn. congruence.
  - rewrite Hcount. f_equal. apply list_filter_iff. intros r. apply inSet_lower.
Qed.

(** ** The classification endpoint *)

Lemma inSet_elem x (l : list string) : inSet x l = true <-> x ∈ l.
Proof.
  unfold inSet. rewrite existsb_exists. split.
  - intros (y & Hy & He). apply String.eqb_eq in He as ->. by apply list_elem_of_In.
  - intros H. exists x. split; [by apply list_elem_of_In|apply String.eqb_refl].
Qed.

Lemma setAdd_NoDup x l : NoDup l -> NoDup (Classify.setAdd x l).
Proof.
  intros H. unfold Classify.setAdd. destruct (inSet x l) eqn:E; [done|].
  apply NoDup_app. split; [done|]. split; [|apply NoDup_singleton].
  intros y Hy Hx. apply list_elem_of_singleton in Hx as ->.
  apply inSet_elem in Hy. congruence.
Qed.

Lemma setAdd_elem x y l : y ∈ Classify.setAdd x l -> y = x \/ y ∈ l.
Proof.
  unfold Classify.setAdd. destruct (inSet x l); [by right|].
  intros H. apply elem_of_app in H as [H|H]; [by right|].
  apply list_elem_of_singleton in H. by left.
Qed.

Lemma keepInput_fold inputEmails deleteEmails all :
  NoDup all ->
  NoDup (fold_left (Classify.keepInput inputEmails) deleteEmails all)
  /\ forall x, x ∈ fold_left (Classify.keepInput inputEmails) deleteEmails all ->
       x ∈ all \/ x ∈ inputEmails.
Proof.
  revert all. induction deleteEmails as [|e l IH]; intros all Hnd; simpl.
  - split; [done|]. intros x Hx. by left.
  - destruct (IH (Classify.keepInput inputEmails all e)) as [H1 H2].
    { unfold Classify.keepInput. destruct (inSet _ inputEmails); [|done].
      by apply setAdd_NoDup. }
    split; [done|]. intros x Hx. apply H2 in Hx as [Hx|Hx]; [|by right].
    unfold Classify.keepInput in Hx.
    destruct (inSet (Js.toLowerCase e) inputEmails) eqn:E; [|by left].
    apply setAdd_elem in Hx as [->|Hx]; [|by left].
    right. by apply inSet_elem.
Qed.

Lemma batchesOf_elem fuel (l batch : list Classify.Sender) s :
  batch ∈ Classify.batchesOf fuel l -> s ∈ batch -> s ∈ l.
Proof.
  revert l. induction fuel as [|fuel IH]; intros l Hb Hs; [by inversion Hb|].
  cbn [Classify.batchesOf] in Hb. destruct l as [|x l']; [by inversion Hb|].
  apply elem_of_cons in Hb as [->|Hb].
  - eapply subseteq_take, Hs.
  - eapply subseteq_drop, IH, Hs. exact Hb.
Qed.

Lemma classifyBatches_inv classifyBatch (valid : list Classify.Sender) batches k all res :
  (forall batch s, batch ∈ batches -> s ∈ batch -> s ∈ valid) ->
  NoDup all ->
  (forall x, x ∈ all -> exists s, s ∈ valid /\ Js.toLowerCase (Classify.emailOf s) = x) ->
  Classify.classifyBatches classifyBatch k batches all = Some res ->
  NoDup res
  /\ forall x, x ∈ res -> exists s, s ∈ valid /\ Js.toLowerCase (Classify.emailOf s) = x.
Proof.
  revert k all. induction batches as [|batch rest IH]; intros k all Hsub Hnd Hall H.
  - injection H as <-. done.
  - cbn [Classify.classifyBatches] in H.
    destruct (classifyBatch k batch) as [deleteEmails|]; [|done].
    destruct (keepInput_fold
                (map (fun s => Js.toLowerCase (Classify.emailOf s)) batch)
                deleteEmails all Hnd) as [H1 H2].
    eapply IH; [|exact H1| |exact H].
    + intros b s Hb. apply Hsub. by right.
    + intros x Hx. apply H2 in Hx as [Hx|Hx]; [by apply Hall|].
      change (map ?f batch) with (f <$> batch) in Hx.
      apply list_elem_of_fmap in Hx as (s & -> & Hs).
      exists s. split; [|done]. eapply Hsub; [left|done].
Qed.

Lemma emailCaseMap_fold (valid : list Classify.Sender) (m : gmap string string) e em :
  fold_left (fun m s => <[Js.toLowerCase (Classify.emailOf s) := Classify.emailOf s]> m)
    valid m !! e = Some em ->
  m !! e = Some em
  \/ exists s, s ∈ valid /\ Classify.emailOf s = em /\ Js.toLowerCase em = e.
Proof.
  revert m. induction valid as [|s valid IH]; intros m H; [by left|].
  cbn [fold_left] in H. apply IH in H as [H|(s' & Hs' & He)].
  - rewrite lookup_insert in H. case_decide as Hk.
    + injection H as <-. right. exists s. split; [left|done].
    + by left.
  - right. exists s'. split; [by right|done].
Qed.

Lemma emailCaseMap_fold_some (valid : list Classify.Sender) (m : gmap string string) e :
  (is_Some (m !! e)
   \/ exists s, s ∈ valid /\ Js.toLowerCase (Classify.emailOf s) = e) ->
  is_Some (fold_left
             (fun m s => <[Js.toLowerCase (Classify.emailOf s) := Classify.emailOf s]> m)
             valid m !! e).
Proof.
  revert m. induction valid as [|s valid IH]; intros m H.
  - destruct H as [H|(s & Hs & _)]; [done|by inversion Hs].
  - cbn [fold_left]. apply IH.
    destruct H as [H|(s' & Hs' & He)].
    + left. rewrite lookup_insert. by case_decide.
    + apply elem_of_cons in Hs' as [->|Hs'].
      * left. rewrite <- He, lookup_insert_eq. done.
      * right. by exists s'.
Qed.

Lemma isValid_email s :
  Classify.isValid s = true ->
  Classify.email s = Some (Classify.emailOf s) /\ Js.truthy (Classify.emailOf s) = true.
Proof.
  unfold Classify.isValid, Classify.emailOf.
  destruct (Classify.email s) as [e|]; [|done]. simpl. by destruct e.
Qed.

(** X24. The classification endpoint cannot name a sender that it was
    not given.  Whatever the model answers, a response with status 200
    comes from a POST request with an API key, and its list holds only
    addresses of valid senders of the request, written as in the
    request, and holds no address twice, also not in another
    spelling of upper and lower case. *)
Theorem classify_returns_only_input_senders
    (method : string) (apiKey : option string)
    (senders : option (list Classify.Sender))
    (classifyBatch : nat -> list Classify.Sender -> option (list string))
    (deleteList : list string) :
  Classify.handler method apiKey senders classifyBatch
  = Classify.Json 200 (inr deleteList) ->
  method = "POST"
  /\ Js.truthyO apiKey = true
  /\ (exists input,
        senders = Some input
        /\ Forall (fun e => exists s, s ∈ input /\ Classify.email s = Some e
                                      /\ Classify.isValid s = true) deleteList)
  /\ NoDup (map Js.toLowerCase deleteList).
Proof.
  unfold Classify.handler.
  destruct (String.eqb method "OPTIONS"); [done|].
  destruct (String.eqb_spec method "POST") as [->|]; [|done]. cbn [negb].
  destruct (Js.truthyO apiKey); [|done]. cbn [negb].
  destruct senders as [input|]; [|done].
  destruct (isEmpty input); [done|]. cbv zeta.
  set (valid := filter (fun s => Classify.isValid s = true) input).
  destruct (isEmpty valid); [done|].
  destruct (Classify.classifyBatches classifyBatch 0 _ []) as [all|] eqn:Hall; [|done].
  intros [= <-].
  apply (classifyBatches_inv classifyBatch valid) in Hall as [Hnd Hin];
    [|intros batch s Hb Hs; by eapply batchesOf_elem|constructor
     |intros x Hx; by inversion Hx].
  assert (forall x, x ∈ all ->
            exists s, s ∈ valid
              /\ Js.or (Js.orEmpty (Classify.emailCaseMap valid !! x)) x
                 = Classify.emailOf s
              /\ Js.toLowerCase (Classify.emailOf s) = x) as Hget.
  { intros x Hx. destruct (Hin x Hx) as (s0 & Hs0 & He0).
    destruct (emailCaseMap_fold_some valid ∅ x) as [em Hem]; [right; by exists s0|].
    fold (Classify.emailCaseMap valid) in Hem. rewrite Hem.
    apply emailCaseMap_fold in Hem as [Hem|(s & Hs & <- & He)]; [done|].
    exists s. split; [done|]. split; [|done].
    apply list_elem_of_filter in Hs as [Hv _].
    destruct (isValid_email s Hv) as [_ Ht]. cbn [Js.orEmpty]. unfold Js.or. by rewrite Ht. }
  split; [done|]. split; [done|]. split.
  - exists input. split; [done|]. apply Forall_forall. intros e He.
    change (map ?f all) with (f <$> all) in He.
    apply list_elem_of_fmap in He as (x & -> & Hx).
    destruct (Hget x Hx) as (s & Hs & -> & _).
    apply list_elem_of_filter in Hs as [Hv Hs].
    exists s. split; [done|]. split; [|done]. by apply isValid_email.
  - rewrite map_map.
    rewrite (map_ext_in _ id), map_id; [done|].
    intros x Hx. apply list_elem_of_In in Hx.
    destruct (Hget x Hx) as (s & _ & -> & He). exact He.
Qed.

Lemma classify_returns_only_input_senders_witness :
  Classify.handler "POST" (Some "key") (Some classifyRequest) classifyAnswer
  = Classify.Json 200 (inr ["News@Shop.com"])
  /\ NoDup (map Js.toLowerCase ["News@Shop.com"]).
Proof.
  assert (Classify.handler "POST" (Some "key") (Some classifyRequest) classifyAnswer
          = Classify.Json 200 (inr ["News@Shop.com"])) as H
    by (vm_compute; reflexivity).
  split; [exact H|].
  exact (proj2 (proj2 (proj2
           (classify_returns_only_input_senders _ _ _ _ _ H)))).
Defined.
